(** * NullAxis: the SQL agent workflow of [backend/agent_graph.py]

    A shallow embedding of the workflow controller: the validation policy
    ([sql_validation_node]), the routing function ([should_repair]), the
    nodes that call the text-generation backend and the row store, the graph
    built by [build_graph] and the entry point [run_agent]; and of the code
    behind its collaborators: the backend client ([call_deepseek_json]),
    the row store access ([run_query]), the schema cache ([get_schema])
    and the column mapping of the loader ([load_and_transform_csv]).

    Conventions of the embedding.
    - A Python [str] is a [string]; the embedding covers text whose code
      points are below 128, where [str.upper], [str.strip] and the classes
      [\w], [\s], [\d] of [re] are the ASCII ones given below.
    - [None] is [None]; an [Optional[str]] field of the state dictionary is an
      [option string], and its truth value is [truthy].
    - External collaborators (the backend, the row store, the schema cache)
      are the fields of a [Backend] record; each returns a value or raises.
      The dictionary the backend returns is a [Reply] whose values have the
      types the prompts ask for: [sql], [explanation] and [answer] are
      strings when present, [confidence] is a number.  A reply with a null
      or a value of another type is outside the embedding.  Every call a
      node makes is recorded in a list of [Call] events.
    - Logging is left out, except where building the log line raises: the
      slice [sql[:200]] of a missing candidate query.
    - [int] raises its ValueError on a text of more than 4300 digits, the
      default limit of the interpreter.
    - A node returns its new state or raises; [walk] runs the compiled
      graph, [ainvoke] is [graph.ainvoke] and [run_agent] the entry point.

    The definitions come first; the statements about them follow, the
    routing and the run of the graph before the validator. *)

From Stdlib Require Import Bool Arith ZArith List Ascii String Lia QArith.
From Stdlib Require Import Numbers.DecimalString.
Import ListNotations.

Open Scope bool_scope.
Open Scope string_scope.
Open Scope Z_scope.

(* ------------------------------------------------------------------ *)
(** ** Characters and the string methods used by the validator *)

Module PyStr.

Definition code (c : ascii) : N := N_of_ascii c.

Definition in_range (lo hi : N) (c : ascii) : bool :=
  (N.leb lo (code c)) && (N.leb (code c) hi).

Definition is_upper_letter (c : ascii) : bool := in_range 65 90 c.
Definition is_lower_letter (c : ascii) : bool := in_range 97 122 c.
Definition is_digit (c : ascii) : bool := in_range 48 57 c.

(** [\w] : letters, digits and the underscore. *)
Definition is_word (c : ascii) : bool :=
  is_upper_letter c || is_lower_letter c || is_digit c || N.eqb (code c) 95.

(** [\s] and the characters removed by [str.strip()]: tab, line feed,
    vertical tab, form feed, carriage return, the four separators
    0x1c..0x1f and the space. *)
Definition is_space (c : ascii) : bool :=
  in_range 9 13 c || in_range 28 31 c || N.eqb (code c) 32.

Definition upper_char (c : ascii) : ascii :=
  if is_lower_letter c then ascii_of_N (code c - 32) else c.

Definition lower_char (c : ascii) : ascii :=
  if is_upper_letter c then ascii_of_N (code c + 32) else c.

Fixpoint map_str (f : ascii -> ascii) (s : string) : string :=
  match s with
  | EmptyString => EmptyString
  | String c s' => String (f c) (map_str f s')
  end.

(** [s.upper()] and [s.lower()] *)
Definition upper (s : string) : string := map_str upper_char s.
Definition lower (s : string) : string := map_str lower_char s.

(** [s.lstrip(chars)], with the set of characters as a predicate *)
Fixpoint lstrip_by (p : ascii -> bool) (s : string) : string :=
  match s with
  | EmptyString => EmptyString
  | String c s' => if p c then lstrip_by p s' else s
  end.

(** [s.rstrip(chars)] *)
Fixpoint rstrip_by (p : ascii -> bool) (s : string) : string :=
  match s with
  | EmptyString => EmptyString
  | String c s' =>
      match rstrip_by p s' with
      | EmptyString => if p c then EmptyString else String c EmptyString
      | t => String c t
      end
  end.

(** [s.strip()] *)
Definition strip (s : string) : string :=
  rstrip_by is_space (lstrip_by is_space s).

Definition is_semicolon (c : ascii) : bool := N.eqb (code c) 59.

(** [s.startswith(p)] *)
Definition startswith (p s : string) : bool := String.prefix p s.

(** [sep.join(l)] *)
Fixpoint join (sep : string) (l : list string) : string :=
  match l with
  | [] => EmptyString
  | [x] => x
  | x :: rest => x ++ sep ++ join sep rest
  end.

(** The number a run of decimal digits denotes *)
Definition digit_val (c : ascii) : Z := Z.of_N (code c) - 48.

Fixpoint int_acc (acc : Z) (s : string) : Z :=
  match s with
  | EmptyString => acc
  | String c s' => int_acc (10 * acc + digit_val c) s'
  end.

Definition int_value (s : string) : Z := int_acc 0 s.

(** [str(n)] for an integer *)
Definition str_of_Z (z : Z) : string := NilEmpty.string_of_int (Z.to_int z).
Definition str_of_nat (n : nat) : string := NilEmpty.string_of_uint (Nat.to_uint n).

(** Truth value of an [Optional[str]]: [None] and [""] are false. *)
Definition truthy (o : option string) : bool :=
  match o with
  | None => false
  | Some s => negb (String.eqb s EmptyString)
  end.

End PyStr.

(* ------------------------------------------------------------------ *)
(** ** The fragment of [re] the validator uses

    The six patterns of [sql_validation_node] are built from a word
    boundary, literal characters and a greedy [cls+], at most one of which
    is a capturing group.  [match_here] is the backtracking matcher at one
    position; the position is a suffix of the text together with [wb], which
    tells whether the character before it is a word character (all that
    [\b] needs to know). *)

Module Re.
Import PyStr.

(** The character classes [\s], [\w] and [\d]. *)
Inductive cclass : Type := Space | Word | Digit.

Definition in_class (cls : cclass) (c : ascii) : bool :=
  match cls with
  | Space => is_space c
  | Word => is_word c
  | Digit => is_digit c
  end.

Inductive atom : Type :=
| Bnd                                   (* \b *)
| Chr (c : ascii)                       (* a literal character *)
| Rep1 (cap : bool) (cls : cclass).     (* cls+ ; group 1 when cap *)

Definition regex := list atom.

Definition next_is_word (s : string) : bool :=
  match s with
  | EmptyString => false
  | String c _ => is_word c
  end.

Definition at_boundary (wb : bool) (s : string) : bool :=
  xorb wb (next_is_word s).

(** Result: the text of group 1 (empty when the pattern has no group) and
    the number of characters consumed. *)
Fixpoint match_here (r : regex) (wb : bool) (s : string) {struct r}
  : option (string * nat) :=
  match r with
  | [] => Some (EmptyString, O)
  | Bnd :: r' => if at_boundary wb s then match_here r' wb s else None
  | Chr c :: r' =>
      match s with
      | EmptyString => None
      | String d s' =>
          if Ascii.eqb c d then
            match match_here r' (is_word d) s' with
            | Some (g, n) => Some (g, S n)
            | None => None
            end
          else None
      end
  | Rep1 cap cls :: r' =>
      (fix plus (s : string) : option (string * nat) :=
         match s with
         | EmptyString => None
         | String c s' =>
             if in_class cls c then
               match plus s' with
               | Some (g, n) => Some (if cap then String c g else g, S n)
               | None =>
                   match match_here r' (is_word c) s' with
                   | Some (g, n) =>
                       Some (if cap then String c EmptyString else g, S n)
                   | None => None
                   end
               end
             else None
         end) s
  end.

(** [re.search]: the leftmost position where the pattern matches; the
    result is group 1 of that match. *)
Fixpoint search_from (r : regex) (wb : bool) (s : string) : option string :=
  match match_here r wb s with
  | Some (g, _) => Some g
  | None =>
      match s with
      | EmptyString => None
      | String c s' => search_from r (is_word c) s'
      end
  end.

Definition search (r : regex) (s : string) : option string :=
  search_from r false s.

Definition found (r : regex) (s : string) : bool :=
  match search r s with Some _ => true | None => false end.

(** [re.findall] for a pattern with one group: the groups of the
    non-overlapping matches, left to right.  [skip] counts the characters
    still covered by the previous match. *)
Fixpoint findall_from (r : regex) (wb : bool) (skip : nat) (s : string)
  : list string :=
  match skip with
  | S k =>
      match s with
      | EmptyString => []
      | String c s' => findall_from r (is_word c) k s'
      end
  | O =>
      match match_here r wb s with
      | Some (g, n) =>
          g :: match s with
               | EmptyString => []
               | String c s' => findall_from r (is_word c) (Nat.pred n) s'
               end
      | None =>
          match s with
          | EmptyString => []
          | String c s' => findall_from r (is_word c) O s'
          end
      end
  end.

Definition findall (r : regex) (s : string) : list string :=
  findall_from r false O s.

(** Literal text as a sequence of atoms ([re.escape] is the identity on the
    letters of the keywords). *)
Fixpoint lit (s : string) : regex :=
  match s with
  | EmptyString => []
  | String c s' => Chr c :: lit s'
  end.

End Re.

Import PyStr Re.

(* ------------------------------------------------------------------ *)
(** ** Data model *)

(** A value of a result row. *)
Inductive Scalar : Type :=
| SNull
| SBool (b : bool)
| SInt (z : Z)
| SFloat (q : Q)
| SStr (s : string).

Definition Row := list (string * Scalar).

(** The schema snapshot: table name, row count, and the name and type of
    each column. *)
Record Schema := {
  table : string;
  total_rows : Z;
  columns : list (string * string)
}.

(** A raised exception; [exn_str] is [str(e)]. *)
Record exn := Exception { exn_type : string; exn_str : string }.

Inductive Result (A : Type) : Type :=
| Ok (a : A)
| Raise (e : exn).
Arguments Ok {A} a.
Arguments Raise {A} e.

(** The dictionary parsed from the backend's response; [None] is a missing
    key, read through [dict.get] with a default. *)
Record Reply := {
  r_sql : option string;
  r_explanation : option string;
  r_confidence : option Q;
  r_answer : option string
}.

Definition get {A} (o : option A) (default : A) : A :=
  match o with Some a => a | None => default end.

(** The shared state dictionary ([Context = Dict[str, Any]]).  For
    [schema] and [repair_count], [None] is an absent key (what
    [input_node] tests); for the other optional fields it is Python's
    [None]. *)
Record Context := {
  user_question : string;
  schema : option Schema;
  deepseek_sql : option string;
  sql_explanation : option string;
  sql_confidence : option Q;
  validated_sql : option string;
  sql_error : option string;
  result_rows : list Row;
  result_columns : list string;
  final_answer : option string;
  repair_count : option Z
}.

Definition set_schema v (c : Context) : Context :=
  {| user_question := user_question c; schema := v;
     deepseek_sql := deepseek_sql c; sql_explanation := sql_explanation c;
     sql_confidence := sql_confidence c; validated_sql := validated_sql c;
     sql_error := sql_error c; result_rows := result_rows c;
     result_columns := result_columns c; final_answer := final_answer c;
     repair_count := repair_count c |}.

Definition set_deepseek_sql v (c : Context) : Context :=
  {| user_question := user_question c; schema := schema c;
     deepseek_sql := v; sql_explanation := sql_explanation c;
     sql_confidence := sql_confidence c; validated_sql := validated_sql c;
     sql_error := sql_error c; result_rows := result_rows c;
     result_columns := result_columns c; final_answer := final_answer c;
     repair_count := repair_count c |}.

Definition set_sql_explanation v (c : Context) : Context :=
  {| user_question := user_question c; schema := schema c;
     deepseek_sql := deepseek_sql c; sql_explanation := v;
     sql_confidence := sql_confidence c; validated_sql := validated_sql c;
     sql_error := sql_error c; result_rows := result_rows c;
     result_columns := result_columns c; final_answer := final_answer c;
     repair_count := repair_count c |}.

Definition set_sql_confidence v (c : Context) : Context :=
  {| user_question := user_question c; schema := schema c;
     deepseek_sql := deepseek_sql c; sql_explanation := sql_explanation c;
     sql_confidence := v; validated_sql := validated_sql c;
     sql_error := sql_error c; result_rows := result_rows c;
     result_columns := result_columns c; final_answer := final_answer c;
     repair_count := repair_count c |}.

Definition set_validated_sql v (c : Context) : Context :=
  {| user_question := user_question c; schema := schema c;
     deepseek_sql := deepseek_sql c; sql_explanation := sql_explanation c;
     sql_confidence := sql_confidence c; validated_sql := v;
     sql_error := sql_error c; result_rows := result_rows c;
     result_columns := result_columns c; final_answer := final_answer c;
     repair_count := repair_count c |}.

Definition set_sql_error v (c : Context) : Context :=
  {| user_question := user_question c; schema := schema c;
     deepseek_sql := deepseek_sql c; sql_explanation := sql_explanation c;
     sql_confidence := sql_confidence c; validated_sql := validated_sql c;
     sql_error := v; result_rows := result_rows c;
     result_columns := result_columns c; final_answer := final_answer c;
     repair_count := repair_count c |}.

Definition set_result_rows v (c : Context) : Context :=
  {| user_question := user_question c; schema := schema c;
     deepseek_sql := deepseek_sql c; sql_explanation := sql_explanation c;
     sql_confidence := sql_confidence c; validated_sql := validated_sql c;
     sql_error := sql_error c; result_rows := v;
     result_columns := result_columns c; final_answer := final_answer c;
     repair_count := repair_count c |}.

Definition set_result_columns v (c : Context) : Context :=
  {| user_question := user_question c; schema := schema c;
     deepseek_sql := deepseek_sql c; sql_explanation := sql_explanation c;
     sql_confidence := sql_confidence c; validated_sql := validated_sql c;
     sql_error := sql_error c; result_rows := result_rows c;
     result_columns := v; final_answer := final_answer c;
     repair_count := repair_count c |}.

Definition set_final_answer v (c : Context) : Context :=
  {| user_question := user_question c; schema := schema c;
     deepseek_sql := deepseek_sql c; sql_explanation := sql_explanation c;
     sql_confidence := sql_confidence c; validated_sql := validated_sql c;
     sql_error := sql_error c; result_rows := result_rows c;
     result_columns := result_columns c; final_answer := v;
     repair_count := repair_count c |}.

Definition set_repair_count v (c : Context) : Context :=
  {| user_question := user_question c; schema := schema c;
     deepseek_sql := deepseek_sql c; sql_explanation := sql_explanation c;
     sql_confidence := sql_confidence c; validated_sql := validated_sql c;
     sql_error := sql_error c; result_rows := result_rows c;
     result_columns := result_columns c; final_answer := final_answer c;
     repair_count := v |}.

(** *** External collaborators *)

(** The three places that call [call_deepseek_json]; each stands for the
    messages that node builds from the state. *)
Inductive Purpose : Type := ForGeneration | ForRepair | ForAnswer.

(** What the collaborators answer.  The backend's reply may depend on the
    whole state at the time of the call, which fixes the messages sent and,
    through [repair_count], the attempt. *)
Record Backend := {
  get_schema : Result Schema;
  call_deepseek_json : Purpose -> Context -> Result Reply;
  run_query : string -> Result (list string * list Row)
}.

(** The calls a run makes, in order. *)
Inductive Call : Type :=
| CallSchema
| CallBackend (p : Purpose) (st : Context)
| CallQuery (sql : string).

Definition MAX_REPAIR_ATTEMPTS : Z := 2.

Definition TypeError_None_subscript : exn :=
  Exception "TypeError" "'NoneType' object is not subscriptable".

(** The longest run of digits [int] converts: the interpreter's default
    limit for the conversion of a text to an integer. *)
Definition max_str_digits : nat := 4300.

Definition int_too_long (digits : nat) : exn :=
  Exception "ValueError"
    ("Exceeds the limit (4300 digits) for integer string conversion: "
     ++ "value has " ++ str_of_nat digits
     ++ " digits; use sys.set_int_max_str_digits() to increase the limit").

(** [int(s)] on a run of decimal digits: its value, or the ValueError
    raised when the run is longer than the limit. *)
Definition int (s : string) : Result Z :=
  if (max_str_digits <? String.length s)%nat
  then Raise (int_too_long (String.length s))
  else Ok (int_value s).

(* ------------------------------------------------------------------ *)
(** ** The validator: [sql_validation_node] *)

Definition forbidden_keywords : list string :=
  [ "INSERT"; "UPDATE"; "DELETE"; "DROP"; "ALTER"; "ATTACH";
    "PRAGMA"; "CREATE"; "TRUNCATE"; "COPY"; "ANALYZE"; "EXECUTE";
    "EXEC"; "CALL"; "MERGE"; "REPLACE" ].

(** [r'\b' + re.escape(keyword) + r'\b'] *)
Definition keyword_pattern (keyword : string) : regex :=
  Bnd :: (lit keyword ++ [Bnd])%list.

(** [r'\bFROM\s+(\w+)\b'] and [r'\bJOIN\s+(\w+)\b'] *)
Definition from_pattern : regex :=
  Bnd :: (lit "FROM" ++ [Rep1 false Space; Rep1 true Word; Bnd])%list.
Definition join_pattern : regex :=
  Bnd :: (lit "JOIN" ++ [Rep1 false Space; Rep1 true Word; Bnd])%list.

(** [r'\bWITH\s+(\w+)'] *)
Definition with_pattern : regex :=
  Bnd :: (lit "WITH" ++ [Rep1 false Space; Rep1 true Word])%list.

(** [r'\bLIMIT\s+\d+'] and [r'\bLIMIT\s+(\d+)'] *)
Definition limit_pattern : regex :=
  Bnd :: (lit "LIMIT" ++ [Rep1 false Space; Rep1 false Digit])%list.
Definition limit_value_pattern : regex :=
  Bnd :: (lit "LIMIT" ++ [Rep1 false Space; Rep1 true Digit])%list.

Definition base_tables : list string := ["nyc_311"; "NYC_311"; "Nyc_311"].

(** The test of the loop over [table_refs]. *)
Definition invalid_table_ref (valid_tables : list string) (table_ref : string)
  : bool :=
  negb (String.eqb (lower table_ref) "nyc_311")
  && negb (existsb (String.eqb table_ref) valid_tables).

Definition msg_empty : string := "SQL query is empty".
Definition msg_form : string := "SQL must start with SELECT or WITH".
Definition msg_forbidden (keyword : string) : string :=
  "Forbidden keyword found: " ++ keyword.
Definition msg_table (table_ref : string) : string :=
  "Invalid table reference: " ++ table_ref
  ++ ". Only 'nyc_311' and CTEs are allowed.".
Definition msg_limit (limit_value : Z) : string :=
  "LIMIT value " ++ str_of_Z limit_value ++ " exceeds maximum of 1000".

Definition sql_validation_node (state : Context) : Result Context :=
  match deepseek_sql state with
  | None => Raise TypeError_None_subscript      (* sql[:200] in the log line *)
  | Some sql =>
    (* Clear previous validation errors *)
    let state := set_validated_sql None (set_sql_error None state) in
    if String.eqb sql "" || String.eqb (strip sql) "" then
      Ok (set_sql_error (Some msg_empty) state)
    else
    let sql_upper := strip (upper sql) in
    if negb (startswith "SELECT" sql_upper || startswith "WITH" sql_upper) then
      Ok (set_sql_error (Some msg_form) state)
    else
    match find (fun keyword => found (keyword_pattern keyword) sql_upper)
               forbidden_keywords with
    | Some keyword => Ok (set_sql_error (Some (msg_forbidden keyword)) state)
    | None =>
      let table_refs :=
        (findall from_pattern sql_upper
           ++ findall join_pattern sql_upper)%list in
      let valid_tables :=
        (base_tables ++ findall with_pattern sql_upper)%list in
      match find (invalid_table_ref valid_tables) table_refs with
      | Some table_ref => Ok (set_sql_error (Some (msg_table table_ref)) state)
      | None =>
        let has_limit := found limit_pattern sql_upper in
        let state :=
          if has_limit then state
          else set_deepseek_sql
                 (Some (strip (rstrip_by is_semicolon sql) ++ " LIMIT 1000"))
                 state in
        (* Validation passed.  (The set of schema column names computed
           at this point of the source is not used.) *)
        let accept := Ok (set_validated_sql (deepseek_sql state) state) in
        (* Check LIMIT value *)
        match search limit_value_pattern sql_upper with
        | Some digits =>
            match int digits with
            | Raise e => Raise e
            | Ok limit_value =>
                if 1000 <? limit_value then
                  Ok (set_sql_error (Some (msg_limit limit_value)) state)
                else accept
            end
        | None => accept
        end
      end
    end
  end.

(* ------------------------------------------------------------------ *)
(** ** The other nodes *)

Definition input_node (backend : Backend) (state : Context)
  : Result Context * list Call :=
  let init_count (st : Context) :=
    match repair_count st with
    | None => set_repair_count (Some 0) st
    | Some _ => st
    end in
  match schema state with
  | None =>
      match get_schema backend with
      | Ok s => (Ok (init_count (set_schema (Some s) state)), [CallSchema])
      | Raise e => (Raise e, [CallSchema])
      end
  | Some _ => (Ok (init_count state), [])
  end.

Definition sql_generation_node (backend : Backend) (state : Context)
  : Result Context * list Call :=
  match call_deepseek_json backend ForGeneration state with
  | Ok result =>
      (Ok (set_sql_confidence (Some (get (r_confidence result) 0%Q))
             (set_sql_explanation (Some (get (r_explanation result) ""))
                (set_deepseek_sql (Some (get (r_sql result) "")) state))),
       [CallBackend ForGeneration state])
  | Raise e =>
      (Ok (set_deepseek_sql None
             (set_sql_error
                (Some ("SQL generation failed: " ++ exn_str e)) state)),
       [CallBackend ForGeneration state])
  end.

(** An [Optional[str]] inside an f-string. *)
Definition fmt (o : option string) : string := get o "None".

Definition sql_repair_node (backend : Backend) (state : Context)
  : Result Context * list Call :=
  match deepseek_sql state with
  | None => (Raise TypeError_None_subscript, [])  (* previous_sql[:200] *)
  | Some previous_sql =>
    let sql_error := sql_error state in
    let repair_count := get (repair_count state) 0 in
    if MAX_REPAIR_ATTEMPTS <=? repair_count then
      (Ok (set_sql_error
             (Some ("Maximum repair attempts ("
                    ++ str_of_Z MAX_REPAIR_ATTEMPTS
                    ++ ") reached. Last error: " ++ fmt sql_error)) state),
       [])
    else
      let state := set_repair_count (Some (repair_count + 1)) state in
      match call_deepseek_json backend ForRepair state with
      | Ok result =>
          (Ok (set_sql_error None
                 (set_sql_explanation (Some (get (r_explanation result) ""))
                    (set_deepseek_sql (Some (get (r_sql result) "")) state))),
           [CallBackend ForRepair state])
      | Raise e =>
          (Ok (set_sql_error
                 (Some ("SQL repair failed: " ++ exn_str e)) state),
           [CallBackend ForRepair state])
      end
  end.

Definition sql_execution_node (backend : Backend) (state : Context)
  : Result Context * list Call :=
  match validated_sql state with
  | Some validated =>
      if String.eqb validated "" then
        (Ok (set_sql_error (Some "No validated SQL to execute") state), [])
      else
        match run_query backend validated with
        | Ok (columns, rows) =>
            (Ok (set_sql_error None
                   (set_result_rows rows
                      (set_result_columns columns state))),
             [CallQuery validated])
        | Raise e =>
            (Ok (set_result_rows []
                   (set_result_columns []
                      (set_sql_error
                         (Some ("SQL execution failed: " ++ exn_str e))
                         state))),
             [CallQuery validated])
        end
  | None =>
      (Ok (set_sql_error (Some "No validated SQL to execute") state), [])
  end.

Definition answer_generation_node (backend : Backend) (state : Context)
  : Result Context * list Call :=
  let result_columns := result_columns state in
  let result_rows := result_rows state in
  (* If there was an error, don't generate answer *)
  if truthy (sql_error state) then
    (Ok (set_final_answer (Some ("Error: " ++ fmt (sql_error state))) state),
     [])
  else
    match call_deepseek_json backend ForAnswer state with
    | Ok result =>
        (Ok (set_final_answer
               (Some (get (r_answer result) "Unable to generate answer."))
               state),
         [CallBackend ForAnswer state])
    | Raise e =>
        (* Fallback answer if generation fails *)
        (Ok (set_final_answer
               (Some
                  (match result_rows with
                   | _ :: _ =>
                       "Query executed successfully and returned "
                       ++ str_of_nat (List.length result_rows)
                       ++ " rows. Columns: " ++ join ", " result_columns
                   | [] =>
                       "Query executed but returned no results. "
                       ++ "Error generating answer: " ++ exn_str e
                   end))
               state),
         [CallBackend ForAnswer state])
    end.

Definition output_node (state : Context) : Context := state.

(** Conditional edge after validation. *)
Definition should_repair (state : Context) : string :=
  let sql_error := sql_error state in
  let repair_count := get (repair_count state) 0 in
  let validated_sql := validated_sql state in
  if truthy validated_sql then "continue"
  else if truthy sql_error && (repair_count <? MAX_REPAIR_ATTEMPTS) then
    "repair"
  else if truthy sql_error && negb (truthy validated_sql) then
    "skip_to_answer"
  else "continue".

(* ------------------------------------------------------------------ *)
(** ** The graph of [build_graph] and [run_agent] *)

Inductive Node : Type :=
| input | generate_sql | validate_sql | repair_sql
| execute_sql | generate_answer | output | END.

(** The mapping given to [add_conditional_edges]. *)
Definition conditional_edges : list (string * Node) :=
  [ ("repair", repair_sql);
    ("continue", execute_sql);
    ("skip_to_answer", generate_answer) ].

Fixpoint lookup (key : string) (m : list (string * Node)) : option Node :=
  match m with
  | [] => None
  | (k, v) :: m' => if String.eqb key k then Some v else lookup key m'
  end.

Definition KeyError (key : string) : exn := Exception "KeyError" key.

(** The node that runs after [n] has produced [state]. *)
Definition next_node (n : Node) (state : Context) : Result Node :=
  match n with
  | input => Ok generate_sql
  | generate_sql => Ok validate_sql
  | validate_sql =>
      match lookup (should_repair state) conditional_edges with
      | Some m => Ok m
      | None => Raise (KeyError (should_repair state))
      end
  | repair_sql => Ok validate_sql
  | execute_sql => Ok generate_answer
  | generate_answer => Ok output
  | output => Ok END
  | END => Ok END
  end.

Definition run_node (backend : Backend) (n : Node) (state : Context)
  : Result Context * list Call :=
  match n with
  | input => input_node backend state
  | generate_sql => sql_generation_node backend state
  | validate_sql => (sql_validation_node state, [])
  | repair_sql => sql_repair_node backend state
  | execute_sql => sql_execution_node backend state
  | generate_answer => answer_generation_node backend state
  | output => (Ok (output_node state), [])
  | END => (Ok state, [])
  end.

(** One run of the compiled graph: the states after each node, the calls
    made and how it ended. *)
Record Run := {
  trace : list (Node * Context);
  calls : list Call;
  outcome : Result Context
}.

Definition GraphRecursionError : exn :=
  Exception "GraphRecursionError" "Recursion limit reached".

(** The graph walked from node [n]; [limit] is the number of steps the
    runtime allows before it raises. *)
Fixpoint walk (backend : Backend) (limit : nat) (n : Node) (state : Context)
  : Run :=
  match n with
  | END => {| trace := []; calls := []; outcome := Ok state |}
  | _ =>
    match limit with
    | O => {| trace := []; calls := []; outcome := Raise GraphRecursionError |}
    | S limit' =>
      match run_node backend n state with
      | (Raise e, cs) => {| trace := []; calls := cs; outcome := Raise e |}
      | (Ok state', cs) =>
        match next_node n state' with
        | Raise e =>
            {| trace := [(n, state')]; calls := cs; outcome := Raise e |}
        | Ok m =>
            let r := walk backend limit' m state' in
            {| trace := (n, state') :: trace r;
               calls := (cs ++ calls r)%list;
               outcome := outcome r |}
        end
      end
    end
  end.

Definition recursion_limit : nat := 25.

(** [graph.ainvoke(context)] *)
Definition ainvoke (backend : Backend) (context : Context) : Run :=
  walk backend recursion_limit input context.

(** The dictionary [run_agent] returns. *)
Record AgentResult := {
  answer_text : option string;
  sql : option string;
  res_columns : list string;
  res_rows : list Row;
  error : option string
}.

Definition initial_context (user_question : string) (s : Schema) : Context :=
  {| user_question := user_question;
     schema := Some s;
     deepseek_sql := None;
     sql_explanation := None;
     sql_confidence := None;
     validated_sql := None;
     sql_error := None;
     result_rows := [];
     result_columns := [];
     final_answer := None;
     repair_count := Some 0 |}.

Definition run_agent (backend : Backend) (user_question : string)
  : Result AgentResult * list Call :=
  match get_schema backend with
  | Raise e => (Raise e, [CallSchema])
  | Ok s =>
      let r := ainvoke backend (initial_context user_question s) in
      match outcome r with
      | Ok final_state =>
          (Ok {| answer_text := final_answer final_state;
                 sql := validated_sql final_state;
                 res_columns := result_columns final_state;
                 res_rows := result_rows final_state;
                 error := sql_error final_state |},
           CallSchema :: calls r)
      | Raise e =>
          (Ok {| answer_text :=
                   Some ("Agent execution failed: " ++ exn_str e);
                 sql := None;
                 res_columns := [];
                 res_rows := [];
                 error := Some (exn_str e) |},
           CallSchema :: calls r)
      end
  end.

(* ------------------------------------------------------------------ *)
(** ** Vocabulary of the statements: runs, sample collaborators *)

(** The verdict recorded by a pass: either a non-empty validated query and
    no error, or a non-empty error and no validated query. *)
Definition verdict (st : Context) : Prop :=
  (truthy (validated_sql st) = true /\ sql_error st = None
   /\ validated_sql st = deepseek_sql st)
  \/ (validated_sql st = None /\ truthy (sql_error st) = true).

(** A run that starts with node [n] leaving [st'] after the calls [cs] and
    goes on as [r]. *)
Definition step_then (n : Node) (st' : Context) (cs : list Call) (r : Run)
  : Run :=
  {| trace := (n, st') :: trace r;
     calls := (cs ++ calls r)%list;
     outcome := outcome r |}.

(** The Executor has failed on the validated query of [st]. *)
Definition exec_failed (backend : Backend) (st : Context) : Prop :=
  exists v e,
    validated_sql st = Some v /\ v <> ""
    /\ run_query backend v = Raise e
    /\ sql_error st = Some ("SQL execution failed: " ++ exn_str e)
    /\ result_rows st = [] /\ result_columns st = [].

(** How a state can enter the Answerer. *)
Definition answer_entry (backend : Backend) (st : Context) : Prop :=
  (validated_sql st = None /\ truthy (sql_error st) = true)
  \/ (truthy (validated_sql st) = true /\ sql_error st = None)
  \/ exec_failed backend st.

(** The answer text came from the backend's reply. *)
Definition answered_by_backend (backend : Backend) (a : string) : Prop :=
  exists st reply,
    call_deepseek_json backend ForAnswer st = Ok reply
    /\ a = get (r_answer reply) "Unable to generate answer.".

Definition Inv (backend : Backend) (n : Node) (st : Context) : Prop :=
  (exists k, repair_count st = Some k /\ 0 <= k <= MAX_REPAIR_ATTEMPTS)
  /\ schema st <> None
  /\ sql_error st <> Some ""
  /\ match n with
     | input | generate_sql =>
         validated_sql st = None /\ sql_error st = None
         /\ final_answer st = None
     | validate_sql =>
         validated_sql st = None /\ final_answer st = None
     | repair_sql =>
         validated_sql st = None /\ truthy (sql_error st) = true
         /\ get (repair_count st) 0 < MAX_REPAIR_ATTEMPTS
         /\ final_answer st = None
     | execute_sql =>
         truthy (validated_sql st) = true /\ sql_error st = None
         /\ final_answer st = None
     | generate_answer =>
         answer_entry backend st /\ final_answer st = None
     | output | END =>
         answer_entry backend st
         /\ exists a, final_answer st = Some a
                      /\ (a <> "" \/ answered_by_backend backend a)
     end.

Definition sample_schema : Schema :=
  {| table := "nyc_311";
     total_rows := 1000;
     columns := [("unique_key", "BIGINT"); ("complaint_type", "VARCHAR")] |}.

Definition sample_context : Context := initial_context "How many?" sample_schema.

(** *** Sample collaborators *)

Definition reply_with_sql (text : string) : Reply :=
  {| r_sql := Some text;
     r_explanation := Some "explanation";
     r_confidence := Some (9 # 10)%Q;
     r_answer := None |}.

Definition reply_with_answer (text : string) : Reply :=
  {| r_sql := None; r_explanation := None; r_confidence := None;
     r_answer := Some text |}.

(** A backend that proposes the same forbidden statement on every
    generation and repair call. *)
Definition stubborn_backend : Backend :=
  {| get_schema := Ok sample_schema;
     call_deepseek_json := fun p _ =>
       match p with
       | ForAnswer => Ok (reply_with_answer "answer")
       | _ => Ok (reply_with_sql "DROP TABLE nyc_311")
       end;
     run_query := fun _ => Ok (["n"], [[("n", SInt 1)]]) |}.

Definition stubborn_run : Run :=
  Eval vm_compute in ainvoke stubborn_backend sample_context.

Definition stubborn_final : Context :=
  Eval vm_compute in
    match outcome stubborn_run with Ok st => st | Raise _ => sample_context end.

Definition rejected_once : Context :=
  set_sql_error (Some msg_form)
    (set_deepseek_sql (Some "DROP TABLE nyc_311") sample_context).

Definition repaired_once : Context :=
  Eval vm_compute in
    match fst (run_node stubborn_backend repair_sql rejected_once) with
    | Ok st => st
    | Raise _ => sample_context
    end.

(** Both a validated query and an error are present. *)
Definition both_set (st : Context) : Prop :=
  truthy (validated_sql st) = true /\ truthy (sql_error st) = true.

(** A run whose generated query is accepted and then fails in the row
    store. *)
Definition failing_query_backend : Backend :=
  {| get_schema := Ok sample_schema;
     call_deepseek_json := fun p _ =>
       match p with
       | ForAnswer => Ok (reply_with_answer "answer")
       | _ => Ok (reply_with_sql "SELECT borough FROM nyc_311 LIMIT 10")
       end;
     run_query := fun _ =>
       Raise (Exception "BinderException"
                "Binder Error: column borough not found") |}.

Definition failed_execution_run : Run :=
  Eval vm_compute in ainvoke failing_query_backend sample_context.

Definition after_failed_execution : Context :=
  Eval vm_compute in
    match nth_error (trace failed_execution_run) 3 with
    | Some (_, st) => st
    | None => sample_context
    end.

Definition after_first_rejection : Context :=
  Eval vm_compute in
    match nth_error (trace stubborn_run) 2 with
    | Some (_, st) => st
    | None => sample_context
    end.

Definition no_schema_backend : Backend :=
  {| get_schema := Raise (Exception "IOException" "cannot open database");
     call_deepseek_json := fun _ _ => Ok (reply_with_answer "answer");
     run_query := fun _ => Ok ([], []) |}.

Definition failing_answer_backend : Backend :=
  {| get_schema := Ok sample_schema;
     call_deepseek_json := fun _ _ =>
       Raise (Exception "HTTPStatusError" "503 Service Unavailable");
     run_query := fun _ => Ok ([], []) |}.

(** The state the generation node leaves when its call fails with that
    exception. *)
Definition after_failed_generation : Context :=
  set_deepseek_sql None
    (set_sql_error (Some "SQL generation failed: 503 Service Unavailable")
       sample_context).

Definition with_rows : Context :=
  set_result_rows
    [[("borough", SStr "BRONX"); ("n", SInt 12)];
     [("borough", SStr "QUEENS"); ("n", SInt 7)]]
    (set_result_columns ["borough"; "n"] sample_context).

Inductive CallKind : Type := KSchema | KBackend (p : Purpose) | KQuery.

Definition kind_of (c : Call) : CallKind :=
  match c with
  | CallSchema => KSchema
  | CallBackend p _ => KBackend p
  | CallQuery _ => KQuery
  end.

(** The backend proposes [text] on every generation and repair call. *)
Definition always_proposes (backend : Backend) (text : string) : Prop :=
  forall p st,
    p <> ForAnswer ->
    exists r, call_deepseek_json backend p st = Ok r /\ r_sql r = Some text.

Definition drop_statement : string := "DROP TABLE nyc_311".

(** A backend whose statement passes the statement-form check and fails the
    keyword check, on every generation and repair call. *)
Definition smuggling_backend : Backend :=
  {| get_schema := Ok sample_schema;
     call_deepseek_json := fun p _ =>
       match p with
       | ForAnswer => Ok (reply_with_answer "answer")
       | _ => Ok (reply_with_sql "SELECT 1; DROP TABLE nyc_311")
       end;
     run_query := fun _ => Ok (["n"], [[("n", SInt 1)]]) |}.

(* ------------------------------------------------------------------ *)
(** ** Vocabulary for the statements about text *)

(** Every character of [s] satisfies [p]. *)
Fixpoint all_chars (p : ascii -> bool) (s : string) : bool :=
  match s with
  | EmptyString => true
  | String c s' => p c && all_chars p s'
  end.

Definition not_word (c : ascii) : bool := negb (is_word c).

(** No letter, digit or underscore in [s]. *)
Definition wordless (s : string) : bool := all_chars not_word s.

(** Spaces and semicolons only. *)
Definition space_or_semicolon (c : ascii) : bool :=
  is_space c || is_semicolon c.

(** The last character of [s] satisfies [p] (false on the empty string). *)
Fixpoint last_sat (p : ascii -> bool) (s : string) : bool :=
  match s with
  | EmptyString => false
  | String c EmptyString => p c
  | String _ s' => last_sat p s'
  end.

Definition first_sat (p : ascii -> bool) (s : string) : bool :=
  match s with
  | EmptyString => false
  | String c _ => p c
  end.

(** Whether the character before a position is a word character, after
    reading [pre] from a position where that was [wb]. *)
Fixpoint wb_after (wb : bool) (pre : string) : bool :=
  match pre with
  | EmptyString => wb
  | String c pre' => wb_after (is_word c) pre'
  end.

(** *** Vocabulary for the statements about matching *)

(** [t] can be appended to any text without changing how [r] and its
    suffixes match at the end of that text. *)
Fixpoint inert (t : string) (r : regex) : Prop :=
  match r with
  | [] => True
  | _ :: r' =>
      (forall wb, match_here r wb t = match_here r wb "") /\ inert t r'
  end.

(** At every position of [u], [r] matches the same with and without [t]
    appended. *)
Fixpoint stable_all (r : regex) (t : string) (wb : bool) (u : string)
  : Prop :=
  match u with
  | EmptyString => True
  | String c u' =>
      match_here r wb (u ++ t) = match_here r wb u
      /\ stable_all r t (is_word c) u'
  end.

(** The same, except at positions from which [u] alone has no match at
    all. *)
Fixpoint stable_or_dead (r : regex) (t : string) (wb : bool) (u : string)
  : Prop :=
  match u with
  | EmptyString => True
  | String c u' =>
      (match_here r wb (u ++ t) = match_here r wb u
       \/ (match_here r wb u = None
           /\ findall_from r (is_word c) O u' = []))
      /\ stable_or_dead r t (is_word c) u'
  end.

(** An atom that consumes at least one word character. *)
Definition wordy (a : atom) : bool :=
  match a with
  | Chr c => is_word c
  | Rep1 _ Word | Rep1 _ Digit => true
  | _ => false
  end.

Definition is_bnd (a : atom) : bool :=
  match a with Bnd => true | _ => false end.

(** Every suffix of [r] needs a word character or is made of boundaries. *)
Fixpoint good (r : regex) : bool :=
  match r with
  | [] => true
  | _ :: r' => (existsb wordy r || forallb is_bnd r) && good r'
  end.

(** [s] without the prefix [k], when it has it. *)
Fixpoint strip_prefix (k s : string) : option string :=
  match k with
  | EmptyString => Some s
  | String c k' =>
      match s with
      | EmptyString => None
      | String d s' => if Ascii.eqb c d then strip_prefix k' s' else None
      end
  end.

(** A match that started [k] characters earlier. *)
Definition shift (k : nat) (o : option (string * nat))
  : option (string * nat) :=
  match o with
  | Some (g, n) => Some (g, (k + n)%nat)
  | None => None
  end.

(** The text from position [wb] on ends with the word [k]: [k] is its last
    characters and the character before them is not a word character. *)
Fixpoint ends_with_word_from (wb : bool) (k s : string) : bool :=
  match s with
  | EmptyString => false
  | String c s' =>
      (negb wb && String.eqb s k) || ends_with_word_from (is_word c) k s'
  end.

Definition ends_with_word (k s : string) : bool :=
  ends_with_word_from false k s.

(** *** Vocabulary for the validator's checks *)

(** Modelled on the claim's words: the keyword occurs in the text as a
    whole word, in any letter case.  The occurrence is [mid]; the character
    before it and the character after it, when there is one, are not word
    characters. *)
Definition occurs_as_word (keyword text : string) : Prop :=
  exists pre mid post,
    text = pre ++ mid ++ post
    /\ upper mid = upper keyword
    /\ last_sat is_word pre = false
    /\ next_is_word post = false.

(** The first two checks of the validator pass: the query is not blank and
    starts with SELECT or WITH. *)
Definition passes_form_checks (sql : string) : bool :=
  negb (String.eqb sql "" || String.eqb (strip sql) "")
  && (startswith "SELECT" (strip (upper sql))
      || startswith "WITH" (strip (upper sql))).

(** What the proofs use about a keyword of the list. *)
Definition keyword_ok (k : string) : bool :=
  good (keyword_pattern k)
  && existsb wordy (lit k ++ [Bnd])%list
  && all_chars is_word k
  && negb (String.eqb k "")
  && String.eqb (upper k) k.

(** The validator from its LIMIT step on, from its table step on and from
    its keyword step on; [state] is the state with the previous verdict
    cleared. *)
Definition limit_stage (state : Context) (sql sql_upper : string)
  : Result Context :=
  let has_limit := found limit_pattern sql_upper in
  let state :=
    if has_limit then state
    else set_deepseek_sql
           (Some (strip (rstrip_by is_semicolon sql) ++ " LIMIT 1000"))
           state in
  let accept := Ok (set_validated_sql (deepseek_sql state) state) in
  match search limit_value_pattern sql_upper with
  | Some digits =>
      match int digits with
      | Raise e => Raise e
      | Ok limit_value =>
          if 1000 <? limit_value then
            Ok (set_sql_error (Some (msg_limit limit_value)) state)
          else accept
      end
  | None => accept
  end.

Definition table_stage (state : Context) (sql sql_upper : string)
  : Result Context :=
  let table_refs :=
    (findall from_pattern sql_upper ++ findall join_pattern sql_upper)%list in
  let valid_tables := (base_tables ++ findall with_pattern sql_upper)%list in
  match find (invalid_table_ref valid_tables) table_refs with
  | Some table_ref => Ok (set_sql_error (Some (msg_table table_ref)) state)
  | None => limit_stage state sql sql_upper
  end.

Definition keyword_stage (state : Context) (sql sql_upper : string)
  : Result Context :=
  match find (fun keyword => found (keyword_pattern keyword) sql_upper)
             forbidden_keywords with
  | Some keyword => Ok (set_sql_error (Some (msg_forbidden keyword)) state)
  | None => table_stage state sql sql_upper
  end.

Definition cleared (state : Context) : Context :=
  set_validated_sql None (set_sql_error None state).

(** The text appended by the validator when the query has no LIMIT. *)
Definition limit_suffix : string := " LIMIT 1000".

(** No keyword of the list is found, and every table reference is allowed:
    the third and fourth checks pass on the stripped, upper-cased text. *)
Definition passes_keyword_check (sql_upper : string) : bool :=
  match find (fun keyword => found (keyword_pattern keyword) sql_upper)
             forbidden_keywords with
  | Some _ => false
  | None => true
  end.

Definition passes_table_check (sql_upper : string) : bool :=
  match find (invalid_table_ref
                (base_tables ++ findall with_pattern sql_upper)%list)
             (findall from_pattern sql_upper
                ++ findall join_pattern sql_upper)%list with
  | Some _ => false
  | None => true
  end.

(** The query reaches the LIMIT step of the validator. *)
Definition reaches_limit_step (sql : string) : bool :=
  passes_form_checks sql
  && passes_keyword_check (strip (upper sql))
  && passes_table_check (strip (upper sql)).

(** The query without trailing semicolons and surrounding blanks: the text
    the validator appends the LIMIT to. *)
Definition query_core (sql : string) : string :=
  strip (rstrip_by is_semicolon sql).

(** The core of the query ends with the word FROM or JOIN. *)
Definition dangling_table_keyword (sql : string) : bool :=
  ends_with_word "FROM" (upper (query_core sql))
  || ends_with_word "JOIN" (upper (query_core sql)).

(** The pattern without its capturing groups. *)
Definition uncap (a : atom) : atom :=
  match a with
  | Rep1 _ cls => Rep1 false cls
  | _ => a
  end.

(** Modelled on the claim's words: the text has a [LIMIT n] clause, that
    is the word LIMIT in any letter case, not preceded by a word character,
    followed by blanks and a digit. *)
Definition has_limit_clause (text : string) : Prop :=
  exists pre kw ws d post,
    text = pre ++ kw ++ ws ++ String d post
    /\ upper kw = "LIMIT"
    /\ last_sat is_word pre = false
    /\ ws <> "" /\ all_chars is_space ws = true
    /\ is_digit d = true.

(** [digits] is the number of a [LIMIT n] clause of the text: all the
    digits that follow the blanks. *)
Definition limit_clause_number (text digits : string) : Prop :=
  exists pre kw ws post,
    text = pre ++ kw ++ ws ++ digits ++ post
    /\ upper kw = "LIMIT"
    /\ last_sat is_word pre = false
    /\ ws <> "" /\ all_chars is_space ws = true
    /\ digits <> "" /\ all_chars is_digit digits = true
    /\ first_sat is_digit post = false.

(** The verdict of one validation pass on [sql]: the error and the
    validated query it leaves. *)
Definition validation_of (sql : string) : option string * option string :=
  match sql_validation_node (set_deepseek_sql (Some sql) sample_context) with
  | Ok st => (sql_error st, validated_sql st)
  | Raise _ => (None, None)
  end.

Definition grouped_query : string :=
  "SELECT complaint_type, COUNT(*) FROM nyc_311 GROUP BY complaint_type".

Definition two_cte_query : string :=
  "WITH a AS (SELECT * FROM nyc_311), b AS (SELECT * FROM a) "
  ++ "SELECT * FROM b LIMIT 10".

Definition nested_limit_query : string :=
  "SELECT * FROM (SELECT * FROM nyc_311 LIMIT 5) LIMIT 5000".

(** An upper bound on the number of nodes still to run, from the repair
    attempts that remain. *)
Definition steps_left (n : Node) (st : Context) : nat :=
  let budget :=
    Z.to_nat (MAX_REPAIR_ATTEMPTS - get (repair_count st) 0) in
  match n with
  | input => 2 * budget + 6
  | generate_sql => 2 * budget + 5
  | validate_sql => 2 * budget + 4
  | repair_sql => 2 * budget + 3
  | execute_sql => 3
  | generate_answer => 2
  | output => 1
  | END => 0
  end.


(* ------------------------------------------------------------------ *)
(** ** Vocabulary for the statements about whole runs *)

(** The messages with which the validator rejects a query. *)
Definition validation_error (msg : string) : Prop :=
  msg = msg_empty
  \/ msg = msg_form
  \/ (exists k, In k forbidden_keywords /\ msg = msg_forbidden k)
  \/ (exists t, msg = msg_table t)
  \/ (exists n, 1000 < n /\ msg = msg_limit n).

(** Some validation pass left [q] as the validated query. *)
Definition accepted (q : string) : Prop :=
  exists st st', sql_validation_node st = Ok st' /\ validated_sql st' = Some q.

(** Text of ASCII characters: the domain on which the string methods and
    the character classes above are those of the interpreter. *)
Definition is_ascii (s : string) : bool :=
  all_chars (fun c => N.ltb (code c) 128) s.

(** The text starts with SELECT or WITH after surrounding blanks, in any
    letter case, holds no forbidden keyword as a whole word, and the
    validator's own search for LIMIT followed by blanks and digits finds in
    it a run of digits that [int] reads as a number at most 1000.  The last
    part is about the first such place of the text only, and about its
    digits only: in [LIMIT 1e9] the run of digits is [1]. *)
Definition checked_query (q : string) : Prop :=
  startswith "SELECT" (strip (upper q)) || startswith "WITH" (strip (upper q))
  = true
  /\ (forall k, In k forbidden_keywords -> ~ occurs_as_word k q)
  /\ exists digits n,
       search limit_value_pattern (strip (upper q)) = Some digits
       /\ int digits = Ok n /\ n <= 1000.

(** The backend proposes ASCII text as queries. *)
Definition proposes_ascii (backend : Backend) : Prop :=
  forall p st r text,
    call_deepseek_json backend p st = Ok r ->
    r_sql r = Some text ->
    is_ascii text = true.

Definition kinds (h : list Call) : list CallKind := map kind_of h.

(** The backend calls made before execution: one generation call, then one
    repair call for each attempt counted in the state. *)
Definition synthesis_calls (st : Context) : list CallKind :=
  KBackend ForGeneration
  :: repeat (KBackend ForRepair) (Z.to_nat (get (repair_count st) 0)).

Definition no_results (st : Context) : Prop :=
  result_rows st = [] /\ result_columns st = [].

(** The two fallback texts of [answer_generation_node]. *)
Definition fallback_answer (rows : list Row) (cols : list string) (e : exn)
  : string :=
  match rows with
  | _ :: _ =>
      "Query executed successfully and returned "
      ++ str_of_nat (List.length rows)
      ++ " rows. Columns: " ++ join ", " cols
  | [] =>
      "Query executed but returned no results. "
      ++ "Error generating answer: " ++ exn_str e
  end.

(** The three ways a run arrives at the Answerer, with the calls [h] made
    so far: the validator's last rejection with the repair budget used up,
    a query that failed in the row store, a query that returned. *)
Definition rejected_state (st : Context) (h : list Call) : Prop :=
  validated_sql st = None
  /\ (exists msg, sql_error st = Some msg /\ validation_error msg)
  /\ repair_count st = Some MAX_REPAIR_ATTEMPTS
  /\ no_results st
  /\ kinds h = synthesis_calls st.

Definition query_failed_state (backend : Backend) (st : Context)
           (h : list Call) : Prop :=
  exists v e h0,
    validated_sql st = Some v /\ accepted v
    /\ run_query backend v = Raise e
    /\ sql_error st = Some ("SQL execution failed: " ++ exn_str e)
    /\ no_results st
    /\ h = (h0 ++ [CallQuery v])%list /\ kinds h0 = synthesis_calls st.

Definition query_done_state (backend : Backend) (st : Context)
           (h : list Call) : Prop :=
  exists v h0,
    validated_sql st = Some v /\ accepted v
    /\ run_query backend v = Ok (result_columns st, result_rows st)
    /\ sql_error st = None
    /\ h = (h0 ++ [CallQuery v])%list /\ kinds h0 = synthesis_calls st.

(** The state the Answerer leaves. *)
Definition answered_state (backend : Backend) (st : Context)
           (h : list Call) : Prop :=
  ((rejected_state st h \/ query_failed_state backend st h)
   /\ exists msg,
        sql_error st = Some msg /\ final_answer st = Some ("Error: " ++ msg))
  \/ (exists h1,
        query_done_state backend st h1
        /\ h = (h1 ++ [CallBackend ForAnswer (set_final_answer None st)])%list
        /\ ((exists reply,
               call_deepseek_json backend ForAnswer (set_final_answer None st)
               = Ok reply
               /\ final_answer st
                  = Some (get (r_answer reply) "Unable to generate answer."))
            \/ (exists e,
                  call_deepseek_json backend ForAnswer
                                     (set_final_answer None st)
                  = Raise e
                  /\ final_answer st
                     = Some (fallback_answer (result_rows st)
                                             (result_columns st) e)))).

(** What holds of the calls [h] made so far and the state [st] given to
    node [n]. *)
Definition Stage (backend : Backend) (h : list Call) (n : Node)
           (st : Context) : Prop :=
  match n with
  | input | generate_sql =>
      h = [] /\ no_results st /\ repair_count st = Some 0
  | validate_sql | repair_sql =>
      no_results st /\ kinds h = synthesis_calls st
  | execute_sql =>
      no_results st /\ kinds h = synthesis_calls st
      /\ exists v, validated_sql st = Some v /\ accepted v
  | generate_answer =>
      rejected_state st h
      \/ query_failed_state backend st h
      \/ query_done_state backend st h
  | output | END => answered_state backend st h
  end.

Definition Hist (backend : Backend) (h : list Call) (n : Node)
           (st : Context) : Prop :=
  Inv backend n st /\ Stage backend h n st.

(** The dictionary [run_agent] returns when the graph run was stopped by
    the exception [e]. *)
Definition aborted_result (e : exn) (res : AgentResult) : Prop :=
  answer_text res = Some ("Agent execution failed: " ++ exn_str e)
  /\ sql res = None /\ res_columns res = [] /\ res_rows res = []
  /\ error res = Some (exn_str e).

(** The exceptions that stop a graph run: the candidate query is missing
    when a log line slices it, or the digits after LIMIT are too many for
    [int]. *)
Definition stops_a_run (e : exn) : Prop :=
  e = TypeError_None_subscript
  \/ exists n, (max_str_digits < n)%nat /\ e = int_too_long n.

(** A backend whose query is accepted, runs and is answered. *)
Definition helpful_backend : Backend :=
  {| get_schema := Ok sample_schema;
     call_deepseek_json := fun p _ =>
       match p with
       | ForAnswer => Ok (reply_with_answer "Mostly noise complaints.")
       | _ => Ok (reply_with_sql
                    "SELECT complaint_type FROM nyc_311 LIMIT 10")
       end;
     run_query := fun _ =>
       Ok (["complaint_type"], [[("complaint_type", SStr "Noise")]]) |}.

Definition helpful_result : AgentResult :=
  {| answer_text := Some "Mostly noise complaints.";
     sql := Some "SELECT complaint_type FROM nyc_311 LIMIT 10";
     res_columns := ["complaint_type"];
     res_rows := [[("complaint_type", SStr "Noise")]];
     error := None |}.

Definition failed_execution_result : AgentResult :=
  {| answer_text :=
       Some ("Error: SQL execution failed: "
             ++ "Binder Error: column borough not found");
     sql := Some "SELECT borough FROM nyc_311 LIMIT 10";
     res_columns := [];
     res_rows := [];
     error :=
       Some "SQL execution failed: Binder Error: column borough not found" |}.

Definition rejected_result : AgentResult :=
  {| answer_text := Some "Error: SQL must start with SELECT or WITH";
     sql := None;
     res_columns := [];
     res_rows := [];
     error := Some "SQL must start with SELECT or WITH" |}.

(** The fields a validation pass leaves alone. *)
Definition same_outside_verdict (st st' : Context) : Prop :=
  user_question st' = user_question st
  /\ schema st' = schema st
  /\ sql_explanation st' = sql_explanation st
  /\ sql_confidence st' = sql_confidence st
  /\ result_rows st' = result_rows st
  /\ result_columns st' = result_columns st
  /\ final_answer st' = final_answer st
  /\ repair_count st' = repair_count st.

(** A backend that proposes a forbidden statement and cannot be reached
    afterwards. *)
Definition unreachable_backend : Backend :=
  {| get_schema := Ok sample_schema;
     call_deepseek_json := fun p _ =>
       match p with
       | ForGeneration => Ok (reply_with_sql "SELECT 1; DROP TABLE nyc_311")
       | _ => Raise (Exception "ConnectTimeout" "timed out")
       end;
     run_query := fun _ => Ok ([], []) |}.

(** The state with that statement as candidate, before and after its
    first validation. *)
Definition candidate_with_drop : Context :=
  set_deepseek_sql (Some "SELECT 1; DROP TABLE nyc_311") sample_context.

Definition rejected_for_drop : Context :=
  set_sql_error (Some "Forbidden keyword found: DROP") candidate_with_drop.



(* ------------------------------------------------------------------ *)
(** ** The settings of [backend/config.py] *)

Module Config.

Record Settings := {
  db_path : string;
  table_name : string;
  deepseek_api_key : string;
  deepseek_base_url : string;
  deepseek_model : string
}.


End Config.

(* ------------------------------------------------------------------ *)
(** ** The backend client of [backend/deepseek_client.py]

    The HTTP client and [json.loads] are collaborators: the first answers a
    request with a response or raises, the second parses a text into the
    reply dictionary or raises.  Of the response the client reads
    [raise_for_status()] and the text at
    [result["choices"][0]["message"]["content"]]; a response whose body
    has no such text raises there. *)

Module DeepseekClient.
Import Config.

(** [s[n:]], [s[:n]] and, for [n > 0], [s[:-n]] *)
Fixpoint drop (n : nat) (s : string) : string :=
  match n, s with
  | O, _ => s
  | S _, EmptyString => EmptyString
  | S k, String _ s' => drop k s'
  end.

Fixpoint take (n : nat) (s : string) : string :=
  match n, s with
  | O, _ => EmptyString
  | S _, EmptyString => EmptyString
  | S k, String c s' => String c (take k s')
  end.

Definition drop_last (n : nat) (s : string) : string :=
  take (String.length s - n) s.

(** [s.endswith(p)] *)
Definition endswith (p s : string) : bool :=
  (String.length p <=? String.length s)%nat
  && String.eqb (drop (String.length s - String.length p) s) p.

Record Message := { role : string; content : string }.

(** The JSON body of the request; [response_format] is [None] when the key
    is absent. *)
Record Payload := {
  model : string;
  messages : list Message;
  temperature : Q;
  response_format : option (list (string * string))
}.

Record Response := {
  raise_for_status : Result unit;
  message_content : Result string
}.

Definition Http : Type :=
  string -> list (string * string) -> Payload -> Result Response.

(** The URL, the headers and the payload of the request.  A response
    format is added to the payload when it is given and not empty. *)
Definition request_of (settings : Settings) (messages : list Message)
           (response_format : option (list (string * string)))
           (temperature : Q)
  : string * list (string * string) * Payload :=
  let url := deepseek_base_url settings ++ "/chat/completions" in
  let headers :=
    [ ("Authorization", "Bearer " ++ deepseek_api_key settings);
      ("Content-Type", "application/json") ] in
  let payload :=
    {| model := deepseek_model settings;
       messages := messages;
       temperature := temperature;
       response_format :=
         match response_format with
         | Some (_ :: _) => response_format
         | _ => None
         end |} in
  (url, headers, payload).

(** The content of the assistant message without the markdown code fence
    it may be wrapped in: the text handed to [json.loads]. *)
Definition unfence (content : string) : string :=
  let content := strip content in
  let content :=
    if startswith "```json" content then drop 7 content else content in
  let content :=
    if startswith "```" content then drop 3 content else content in
  let content :=
    if endswith "```" content then drop_last 3 content else content in
  strip content.

Definition call_deepseek_json (settings : Settings) (post : Http)
           (json_loads : string -> Result Reply)
           (messages : list Message)
           (response_format : option (list (string * string)))
           (temperature : Q) : Result Reply :=
  let '(url, headers, payload) :=
    request_of settings messages response_format temperature in
  match post url headers payload with
  | Raise e => Raise e
  | Ok response =>
      match raise_for_status response with
      | Raise e => Raise e
      | Ok _ =>
          match message_content response with
          | Raise e => Raise e
          | Ok content => json_loads (unfence content)
          end
      end
  end.




End DeepseekClient.

(* ------------------------------------------------------------------ *)
(** ** The row store of [backend/db.py]

    The database engine is a collaborator.  What it answers may depend on
    every statement run on the connection so far, so each of its answers is
    a function of that history: whether a statement raises, the
    description of the result (the column names, [None] when there is
    none) and the rows [fetchall] returns.  Closing the connection is
    taken not to raise.  A dictionary is the list of its items in insertion
    order. *)

Module Db.

Section Rows.

(** The values of a fetched row, and the conversion applied to each:
    [value.item()] where the value has it, else [value.tolist()] where it
    has that, else the value itself. *)
Variable V : Type.
Variable native : V -> V.

(** [d[k] = v] *)
Fixpoint dict_set (k : string) (v : V) (d : list (string * V))
  : list (string * V) :=
  match d with
  | [] => [(k, v)]
  | (k', v') :: d' =>
      if String.eqb k k' then (k', v) :: d'
      else (k', v') :: dict_set k v d'
  end.

(** [d.get(k)] *)
Fixpoint dict_get (k : string) (d : list (string * V)) : option V :=
  match d with
  | [] => None
  | (k', v') :: d' => if String.eqb k k' then Some v' else dict_get k d'
  end.

Definition keys (d : list (string * V)) : list string := map fst d.

(** [for i, col in enumerate(columns): if i < len(row): ...], entered at
    index [i] with the dictionary built so far. *)
Fixpoint fill_row (i : nat) (columns : list string) (row : list V)
         (row_dict : list (string * V)) : list (string * V) :=
  match columns with
  | [] => row_dict
  | col :: rest =>
      fill_row (S i) rest row
        (match nth_error row i with
         | Some value => dict_set col (native value) row_dict
         | None => row_dict
         end)
  end.

Definition row_to_dict (columns : list string) (row : list V)
  : list (string * V) :=
  fill_row 0 columns row [].

Record Engine := {
  execute : list string -> string -> Result unit;
  description : list string -> option (list string);
  fetchall : list string -> Result (list (list V))
}.

Inductive Event : Type :=
| Execute (sql : string)
| Close.

(** [f"SELECT * FROM ({sql}) LIMIT 0"] *)
Definition wrapped_sql (sql : string) : string :=
  "SELECT * FROM (" ++ sql ++ ") LIMIT 0".

(** The column names of a description that is there and not empty. *)
Definition column_names (d : option (list string)) : option (list string) :=
  match d with
  | Some (c :: l) => Some (c :: l)
  | _ => None
  end.

Definition no_columns : exn :=
  Exception "ValueError" "Could not determine column names from query result".

(** The result, and what was done on the connection. *)
Definition run_query (get_conn : Result Engine) (sql : string)
  : Result (list string * list (list (string * V))) * list Event :=
  match get_conn with
  | Raise e => (Raise e, [])
  | Ok conn =>
      match execute conn [] sql with
      | Raise e => (Raise e, [Execute sql; Close])
      | Ok _ =>
          let '(columns, history) :=
            match column_names (description conn [sql]) with
            | Some columns => (Some columns, [sql])
            | None =>
                (* wrap the query to get the column info *)
                match execute conn [sql] (wrapped_sql sql) with
                | Ok _ =>
                    (column_names
                       (description conn [sql; wrapped_sql sql]),
                     [sql; wrapped_sql sql])
                | Raise _ => (None, [sql; wrapped_sql sql])
                end
            end in
          match columns with
          | None => (Raise no_columns, (map Execute history ++ [Close])%list)
          | Some columns =>
              match fetchall conn history with
              | Raise e => (Raise e, (map Execute history ++ [Close])%list)
              | Ok all_rows =>
                  (Ok (columns, map (row_to_dict columns) all_rows),
                   (map Execute history ++ [Close])%list)
              end
          end
      end
  end.

(** Modelled on the statement: the converted value of the last position
    of the row, among those that have a column, whose column is [k]. *)
Fixpoint last_value (k : string) (columns : list string) (row : list V)
  : option V :=
  match columns, row with
  | col :: columns', value :: row' =>
      match last_value k columns' row' with
      | Some v => Some v
      | None => if String.eqb k col then Some (native value) else None
      end
  | _, _ => None
  end.

End Rows.

Arguments dict_set {V}.
Arguments dict_get {V}.
Arguments keys {V}.
Arguments fill_row {V}.
Arguments row_to_dict {V}.
Arguments execute {V}.
Arguments description {V}.
Arguments fetchall {V}.
Arguments run_query {V}.
Arguments last_value {V}.

(** An engine that answers one query with a fixed description and rows. *)
Definition fixed_engine (columns : list string) (rows : list (list Scalar))
  : Engine Scalar :=
  {| execute := fun _ _ => Ok tt;
     description := fun _ => Some columns;
     fetchall := fun _ => Ok rows |}.

(** An engine whose results have no description and which rejects the
    wrapped query. *)
Definition silent_engine : Engine Scalar :=
  {| execute := fun history _ =>
       match history with
       | [] => Ok tt
       | _ => Raise (Exception "ParserException" "syntax error")
       end;
     description := fun _ => None;
     fetchall := fun _ => Ok [] |}.

End Db.

(* ------------------------------------------------------------------ *)
(** ** The schema cache of [backend/schema_cache.py]

    [_schema_cache] is passed along as a state; [_introspect_schema()] is a
    collaborator, given by what it would return at the time of the call. *)

Module SchemaCache.

Definition Cache : Type := option Schema.

(** The result, the cache afterwards, and whether the table was
    introspected. *)
Definition get_schema (introspect : Result Schema) (cache : Cache)
  : Result Schema * Cache * bool :=
  match cache with
  | None =>
      match introspect with
      | Ok s => (Ok s, Some s, true)
      | Raise e => (Raise e, None, true)
      end
  | Some s => (Ok s, Some s, false)
  end.

Definition clear_schema_cache (cache : Cache) : Cache := None.

(** A sequence of calls of [get_schema], each with what introspection
    would return at that time: the results, and the cache at the end. *)
Fixpoint get_schema_each (introspections : list (Result Schema))
         (cache : Cache) : list (Result Schema * bool) * Cache :=
  match introspections with
  | [] => ([], cache)
  | introspect :: rest =>
      let '(r, cache', looked) := get_schema introspect cache in
      let '(rs, final) := get_schema_each rest cache' in
      ((r, looked) :: rs, final)
  end.

End SchemaCache.

(* ------------------------------------------------------------------ *)
(** ** The column mapping of [backend/etl.py]

    The part of [load_and_transform_csv] that works on the header of the
    CSV file: the search for the date and location columns, the list of
    select expressions and the CREATE TABLE statement. *)

Module Etl.

Definition dq : string := String (ascii_of_nat 34) EmptyString.
Definition nl : string := String (ascii_of_nat 10) EmptyString.

(** [sub in s] *)
Fixpoint contains (sub s : string) : bool :=
  String.prefix sub s
  || match s with
     | EmptyString => false
     | String _ s' => contains sub s'
     end.

(** [s.replace(a, b)] for two characters *)
Definition replace_char (a b : ascii) (s : string) : string :=
  map_str (fun c => if Ascii.eqb c a then b else c) s.

(** [col.lower().replace(' ', '_').replace('-', '_')] *)
Definition col_lower (col : string) : string :=
  replace_char "-" "_" (replace_char " " "_" (lower col)).

Record Found := {
  created_date_col : option string;
  closed_date_col : option string;
  incident_zip_col : option string;
  latitude_col : option string;
  longitude_col : option string
}.

Definition nothing_found : Found :=
  {| created_date_col := None; closed_date_col := None;
     incident_zip_col := None; latitude_col := None;
     longitude_col := None |}.

Definition is_None (o : option string) : bool :=
  match o with None => true | Some _ => false end.

(** The body of [for col in raw_columns]. *)
Definition scan_column (f : Found) (col : string) : Found :=
  let col_lower := col_lower col in
  {| created_date_col :=
       if contains "created_date" col_lower
          || (is_None (created_date_col f)
              && contains "created" col_lower && contains "date" col_lower)
       then Some col else created_date_col f;
     closed_date_col :=
       if contains "closed_date" col_lower
          || (is_None (closed_date_col f)
              && contains "closed" col_lower && contains "date" col_lower)
       then Some col else closed_date_col f;
     incident_zip_col :=
       if contains "incident_zip" col_lower
          || (is_None (incident_zip_col f) && contains "zip" col_lower)
       then Some col else incident_zip_col f;
     latitude_col :=
       if contains "latitude" col_lower then Some col else latitude_col f;
     longitude_col :=
       if contains "longitude" col_lower then Some col
       else longitude_col f |}.

Definition find_columns (raw_columns : list string) : Found :=
  fold_left scan_column raw_columns nothing_found.

Definition quoted (col : string) : string :=
  dq ++ col ++ dq.

Definition created_ts_expr (created_date_col : string) : string :=
  "strptime(" ++ dq ++ created_date_col ++ dq ++ ", '%m/%d/%Y %I:%M:%S %p') AS created_ts".

Definition closed_ts_expr (closed_date_col : string) : string :=
  "strptime(" ++ dq ++ closed_date_col ++ dq ++ ", '%m/%d/%Y %I:%M:%S %p') AS closed_ts".

Definition time_to_close_expr (created_date_col closed_date_col : string)
  : string :=
  nl
  ++ "                CASE" ++ nl
  ++ "                    WHEN strptime(" ++ dq ++ created_date_col ++ dq ++ ", '%m/%d/%Y %I:%M:%S %p') IS NOT NULL " ++ nl
  ++ "                         AND strptime(" ++ dq ++ closed_date_col ++ dq ++ ", '%m/%d/%Y %I:%M:%S %p') IS NOT NULL" ++ nl
  ++ "                    THEN DATEDIFF('day', " ++ nl
  ++ "                                  strptime(" ++ dq ++ created_date_col ++ dq ++ ", '%m/%d/%Y %I:%M:%S %p')," ++ nl
  ++ "                                  strptime(" ++ dq ++ closed_date_col ++ dq ++ ", '%m/%d/%Y %I:%M:%S %p'))" ++ nl
  ++ "                    ELSE NULL" ++ nl
  ++ "                END AS time_to_close_days" ++ nl
  ++ "            ".

Definition geocoded_expr (lat_col lon_col : string) : string :=
  nl
  ++ "                (" ++ lat_col ++ " IS NOT NULL AND " ++ lon_col ++ " IS NOT NULL" ++ nl
  ++ "                 AND TRY_CAST(" ++ lat_col ++ " AS DOUBLE) <> 0 " ++ nl
  ++ "                 AND TRY_CAST(" ++ lon_col ++ " AS DOUBLE) <> 0) AS geocoded" ++ nl
  ++ "            ".

Definition zip_code_expr (incident_zip_col : string) : string :=
  nl
  ++ "                LPAD(CAST(" ++ dq ++ incident_zip_col ++ dq ++ " AS VARCHAR), 5, '0') AS zip_code" ++ nl
  ++ "            ".

Definition create_sql (table_name : string) (select_parts : list string)
  : string :=
  nl
  ++ "            CREATE TABLE " ++ table_name ++ " AS" ++ nl
  ++ "            SELECT " ++ join ", " select_parts ++ nl
  ++ "            FROM raw_nyc_311" ++ nl
  ++ "        ".

(** [o or 'NULL'] and the text of a truthy [o] *)
Definition or_NULL (o : option string) : string :=
  if truthy o then get o "" else "NULL".

Definition select_parts (raw_columns : list string) : list string :=
  let f := find_columns raw_columns in
  let created_date_col := created_date_col f in
  let closed_date_col := closed_date_col f in
  let incident_zip_col := incident_zip_col f in
  let latitude_col := latitude_col f in
  let longitude_col := longitude_col f in
  (* all original columns first *)
  (map quoted raw_columns
   (* transformed columns *)
   ++ (if truthy created_date_col
       then [created_ts_expr (get created_date_col "")] else [])
   ++ (if truthy closed_date_col
       then [closed_ts_expr (get closed_date_col "")] else [])
   ++ (if truthy created_date_col && truthy closed_date_col
       then [time_to_close_expr (get created_date_col "")
                                (get closed_date_col "")]
       else [])
   ++ (if truthy latitude_col && truthy longitude_col
       then [geocoded_expr (get latitude_col "") (get longitude_col "")]
       else if truthy latitude_col || truthy longitude_col
       then [geocoded_expr (or_NULL latitude_col) (or_NULL longitude_col)]
       else [])
   ++ (if truthy incident_zip_col
       then [zip_code_expr (get incident_zip_col "")] else []))%list.

Definition no_columns_error : exn :=
  Exception "ValueError" "No columns to select! Check column mapping logic.".

(** The CREATE TABLE statement for a header, or the error raised when
    there is nothing to select. *)
Definition create_table_statement (table_name : string)
           (raw_columns : list string) : Result string :=
  let select_parts := select_parts raw_columns in
  if (List.length select_parts =? 0)%nat then Raise no_columns_error
  else Ok (create_sql table_name select_parts).

(** Modelled on the statement: the last column that satisfies [strong],
    else the first that satisfies [weak]. *)
Definition last_or_first (strong weak : string -> bool)
           (raw_columns : list string) : option string :=
  match find strong (rev raw_columns) with
  | Some col => Some col
  | None => find weak raw_columns
  end.

Definition names (sub : string) (col : string) : bool :=
  contains sub (col_lower col).

(** No variable of the search holds a column without a name. *)
Definition found_nonempty (f : Found) : Prop :=
  created_date_col f <> Some ""
  /\ closed_date_col f <> Some ""
  /\ incident_zip_col f <> Some ""
  /\ latitude_col f <> Some ""
  /\ longitude_col f <> Some "".

Definition header_311 : list string :=
  [ "Unique Key"; "Created Date"; "Closed Date"; "Complaint Type";
    "Incident Zip"; "Latitude"; "Longitude" ].

End Etl.

(* ------------------------------------------------------------------ *)
(** ** Basic facts about strings *)

Lemma append_nonempty_r (a b : string) : b <> "" -> a ++ b <> "".
Proof.
  intros Hb; destruct a as [|c a]; simpl; [exact Hb | discriminate].
Qed.

Lemma eqb_empty_false (a : string) : a <> "" -> String.eqb a "" = false.
Proof.
  intros H; apply String.eqb_neq; exact H.
Qed.

(* ------------------------------------------------------------------ *)
(** ** What a validation pass leaves in the state *)

Lemma validation_frame (st st' : Context) :
  sql_validation_node st = Ok st' ->
  repair_count st' = repair_count st /\ schema st' = schema st
  /\ final_answer st' = final_answer st
  /\ result_rows st' = result_rows st
  /\ result_columns st' = result_columns st
  /\ deepseek_sql st' <> None.
Proof.
  unfold sql_validation_node.
  destruct (deepseek_sql st) as [q|] eqn:Eq; [|discriminate].
  repeat match goal with
         | |- context [if ?b then _ else _] => destruct b
         | |- context [match ?x with Some _ => _ | None => _ end] => destruct x
         | |- context [match int ?d with Ok _ => _ | Raise _ => _ end] =>
             destruct (int d)
         end;
    try discriminate;
    intros [= <-]; simpl; rewrite ?Eq; repeat split; congruence.
Qed.

Lemma validation_verdict (st st' : Context) :
  sql_validation_node st = Ok st' -> verdict st'.
Proof.
  unfold sql_validation_node, verdict.
  destruct (deepseek_sql st) as [q|] eqn:Eq; [|discriminate].
  destruct (String.eqb q "" || String.eqb (strip q) "") eqn:Eempty.
  { intros [= <-]; right; split; reflexivity. }
  apply orb_false_elim in Eempty. destruct Eempty as [Eq0 _].
  destruct (negb _).
  { intros [= <-]; right; split; reflexivity. }
  destruct (find _ forbidden_keywords).
  { intros [= <-]; right; split; reflexivity. }
  destruct (find _ _).
  { intros [= <-]; right; split; reflexivity. }
  destruct (found limit_pattern _);
    (destruct (search limit_value_pattern _) as [digits|];
     [ destruct (int digits) as [limit_value|e]; [|discriminate];
       destruct (1000 <? _);
       [ intros [= <-]; right; split; reflexivity |]
     | ]);
    intros [= <-]; left; simpl; rewrite ?Eq; simpl; rewrite ?Eq0;
      repeat split; try reflexivity;
      apply negb_true_iff, eqb_empty_false, append_nonempty_r; discriminate.
Qed.

(* ------------------------------------------------------------------ *)
(** ** Invariants of a walk through the graph *)

Lemma walk_S (backend : Backend) (limit : nat) (n : Node) (st : Context) :
  n <> END ->
  walk backend (S limit) n st =
  match run_node backend n st with
  | (Raise e, cs) => {| trace := []; calls := cs; outcome := Raise e |}
  | (Ok st', cs) =>
      match next_node n st' with
      | Raise e => {| trace := [(n, st')]; calls := cs; outcome := Raise e |}
      | Ok m =>
          let r := walk backend limit m st' in
          {| trace := (n, st') :: trace r;
             calls := (cs ++ calls r)%list;
             outcome := outcome r |}
      end
  end.
Proof.
  destruct n; intros H; try reflexivity. contradiction.
Qed.

Lemma walk_step (backend : Backend) (limit : nat) (n m : Node)
      (st st' : Context) (cs : list Call) :
  n <> END ->
  run_node backend n st = (Ok st', cs) ->
  next_node n st' = Ok m ->
  walk backend (S limit) n st
  = step_then n st' cs (walk backend limit m st').
Proof.
  intros Hn Hrun Hnext. rewrite walk_S by exact Hn.
  rewrite Hrun, Hnext. reflexivity.
Qed.

Lemma walk_END (backend : Backend) (limit : nat) (st : Context) :
  walk backend limit END st =
  {| trace := []; calls := []; outcome := Ok st |}.
Proof.
  destruct limit; reflexivity.
Qed.

Lemma walk_O (backend : Backend) (n : Node) (st : Context) :
  n <> END ->
  walk backend O n st =
  {| trace := []; calls := []; outcome := Raise GraphRecursionError |}.
Proof.
  destruct n; intros H; try reflexivity. contradiction.
Qed.

Lemma ainvoke_eq (backend : Backend) (c : Context) :
  ainvoke backend c = walk backend recursion_limit input c.
Proof. reflexivity. Qed.

Lemma Node_END_dec (n : Node) : {n = END} + {n <> END}.
Proof.
  destruct n; (left; reflexivity) || (right; discriminate).
Qed.

Section Walk.

Variable backend : Backend.

(** [P] holds of the node about to run and the state it receives. *)
Variable P : Node -> Context -> Prop.

Hypothesis P_step :
  forall n st st' cs m,
    P n st ->
    run_node backend n st = (Ok st', cs) ->
    next_node n st' = Ok m ->
    P m st'.

Lemma walk_outcome :
  forall limit n st final,
    P n st ->
    outcome (walk backend limit n st) = Ok final ->
    P END final.
Proof.
  induction limit as [|limit IH]; intros n st final HP;
    destruct (Node_END_dec n) as [->|Hn].
  - rewrite walk_END; simpl. intros [= <-]; exact HP.
  - rewrite walk_O by exact Hn. discriminate.
  - rewrite walk_END; simpl. intros [= <-]; exact HP.
  - rewrite walk_S by exact Hn.
    destruct (run_node backend n st) as [[st'|e] cs] eqn:Hrun;
      [|discriminate].
    destruct (next_node n st') as [m|e] eqn:Hnext; [|discriminate].
    simpl. apply IH. eapply P_step; eauto.
Qed.

(** Every entry of the trace is the result of running its node from a state
    where [P] held. *)
Lemma walk_trace :
  forall limit n st m st',
    P n st ->
    In (m, st') (trace (walk backend limit n st)) ->
    exists st0 cs, P m st0 /\ run_node backend m st0 = (Ok st', cs).
Proof.
  induction limit as [|limit IH]; intros n st m st' HP;
    destruct (Node_END_dec n) as [->|Hn].
  - rewrite walk_END; intros [].
  - rewrite walk_O by exact Hn. intros [].
  - rewrite walk_END; intros [].
  - rewrite walk_S by exact Hn.
    destruct (run_node backend n st) as [[st1|e] cs] eqn:Hrun;
      [|intros []].
    destruct (next_node n st1) as [m1|e] eqn:Hnext; simpl.
    + intros [[= <- <-]|Hin]; [eauto|].
      eapply IH; [|exact Hin]. eapply P_step; eauto.
    + intros [[= <- <-]|[]]; eauto.
Qed.

End Walk.

Lemma Inv_initial (backend : Backend) (q : string) (s : Schema) :
  Inv backend input (initial_context q s).
Proof.
  unfold Inv, MAX_REPAIR_ATTEMPTS; simpl. repeat split; try discriminate.
  exists 0; split; [reflexivity | lia].
Qed.

Lemma Inv_step (backend : Backend) :
  forall n st st' cs m,
    Inv backend n st ->
    run_node backend n st = (Ok st', cs) ->
    next_node n st' = Ok m ->
    Inv backend m st'.
Proof.
  unfold Inv, MAX_REPAIR_ATTEMPTS.
  intros n st st' cs m (Hrc & Hs & Hne & Hn) Hrun Hnext.
  destruct Hrc as (k & Hk & Hk2).
  destruct n; simpl in Hrun, Hnext.
  - (* input *)
    injection Hnext as <-.
    unfold input_node in Hrun.
    destruct (schema st) eqn:Es; [|congruence].
    rewrite Hk in Hrun. injection Hrun as <- <-.
    repeat split; try tauto; try congruence; eauto.
  - (* generate_sql *)
    injection Hnext as <-.
    unfold sql_generation_node in Hrun.
    destruct (call_deepseek_json backend ForGeneration st);
      injection Hrun as <- <-; simpl; repeat split;
      try tauto; try discriminate; eauto.
  - (* validate_sql *)
    injection Hrun as Hrun <-.
    destruct (validation_frame _ _ Hrun) as (Fr & Fs & Ff & _).
    pose proof (validation_verdict _ _ Hrun) as Hv.
    unfold should_repair, MAX_REPAIR_ATTEMPTS in Hnext.
    rewrite Fr, Hk in Hnext. simpl in Hnext.
    assert (Hrc' : exists k, repair_count st' = Some k /\ 0 <= k <= 2)
      by (exists k; rewrite Fr; auto).
    assert (Hf' : final_answer st' = None) by (rewrite Ff; tauto).
    assert (Hs' : schema st' <> None) by congruence.
    assert (Hne' : sql_error st' <> Some "").
    { destruct Hv as [(_ & He & _)|(_ & He)]; [congruence|].
      intros E; rewrite E in He; discriminate. }
    destruct Hv as [(Hv & He & _)|(Hv & He)].
    + rewrite Hv in Hnext. injection Hnext as <-.
      repeat split; auto.
    + rewrite Hv, He in Hnext. simpl in Hnext.
      destruct (k <? 2) eqn:Hlt; injection Hnext as <-.
      * apply Z.ltb_lt in Hlt.
        repeat split; auto.
        rewrite Fr, Hk; simpl; exact Hlt.
      * unfold answer_entry; repeat split; auto.
  - (* repair_sql *)
    injection Hnext as <-.
    destruct Hn as (Hv & He & Hlt & Hf).
    unfold sql_repair_node, MAX_REPAIR_ATTEMPTS in Hrun.
    destruct (deepseek_sql st); [|discriminate].
    rewrite Hk in Hrun, Hlt. simpl in Hrun, Hlt.
    destruct (2 <=? k) eqn:Hle; [apply Z.leb_le in Hle; lia|].
    destruct (call_deepseek_json backend ForRepair _);
      injection Hrun as <- <-; simpl; repeat split; auto;
      try discriminate;
      exists (k + 1); split; auto; lia.
  - (* execute_sql *)
    injection Hnext as <-.
    destruct Hn as (Hv & He & Hf).
    unfold sql_execution_node in Hrun.
    destruct (validated_sql st) as [v|] eqn:Ev; [|discriminate].
    simpl in Hv. apply negb_true_iff in Hv. rewrite Hv in Hrun.
    destruct (run_query backend v) as [[columns rows]|e] eqn:Hq;
      injection Hrun as <- <-; unfold answer_entry; simpl;
      repeat split; try discriminate; eauto.
    + right; left. rewrite Ev; simpl. rewrite Hv. auto.
    + right; right. exists v, e. simpl. repeat split; auto.
      intros ->; discriminate.
  - (* generate_answer *)
    injection Hnext as <-.
    destruct Hn as (Hentry & Hf).
    assert (Hframe : forall a,
               answer_entry backend (set_final_answer a st))
      by (intros a; exact Hentry).
    unfold answer_generation_node in Hrun.
    destruct (truthy (sql_error st)).
    + injection Hrun as <- <-. simpl; repeat split; eauto.
      eexists; split; [reflexivity|]. left; discriminate.
    + destruct (call_deepseek_json backend ForAnswer st) as [reply|e] eqn:Hc;
        injection Hrun as <- <-; simpl; repeat split; eauto.
      * eexists; split; [reflexivity|]. right. exists st, reply; auto.
      * eexists; split; [reflexivity|]. left.
        destruct (result_rows st); discriminate.
  - (* output *)
    injection Hnext as <-. injection Hrun as <- <-.
    unfold output_node; repeat split; eauto; tauto.
  - (* END *)
    injection Hnext as <-. injection Hrun as <- <-.
    repeat split; eauto; tauto.
Qed.

(** [next_node] never fails: every tag [should_repair] returns is a key of
    [conditional_edges]. *)
Lemma next_node_total (n : Node) (st : Context) :
  exists m, next_node n st = Ok m.
Proof.
  destruct n; simpl; eauto.
  unfold should_repair.
  destruct (truthy (validated_sql st)); simpl; eauto.
  destruct (truthy (sql_error st)); simpl; eauto.
  destruct (get (repair_count st) 0 <? MAX_REPAIR_ATTEMPTS); simpl; eauto.
Qed.

(** The states a run goes through: each entry of the trace satisfies the
    invariant of the node that follows it. *)
Lemma trace_Inv (backend : Backend) (q : string) (s : Schema)
      (n : Node) (st : Context) :
  In (n, st) (trace (ainvoke backend (initial_context q s))) ->
  exists st0 cs m,
    Inv backend n st0 /\ run_node backend n st0 = (Ok st, cs)
    /\ next_node n st = Ok m /\ Inv backend m st.
Proof.
  rewrite ainvoke_eq. intros Hin.
  destruct (walk_trace backend (Inv backend) (Inv_step backend)
              recursion_limit input (initial_context q s) n st
              (Inv_initial backend q s) Hin)
    as (st0 & cs & HI & Hrun).
  destruct (next_node_total n st) as [m Hm].
  exists st0, cs, m.
  split; [exact HI | split; [exact Hrun | split; [exact Hm |]]].
  eapply Inv_step; eauto.
Qed.

(* ------------------------------------------------------------------ *)
(** ** Routing after validation *)

(** C1. After a validation pass the next node is chosen in this priority
    order: a validated query goes to the Executor; otherwise an error with
    fewer than two repairs made goes to the Repairer; otherwise an error with
    no validated query (budget exhausted) goes straight to the Answerer,
    bypassing the Executor; otherwise the default is the Executor. *)
Theorem routing_priority (st : Context) :
  (truthy (validated_sql st) = true ->
   next_node validate_sql st = Ok execute_sql)
  /\ (truthy (validated_sql st) = false ->
      truthy (sql_error st) = true ->
      get (repair_count st) 0 < 2 ->
      next_node validate_sql st = Ok repair_sql)
  /\ (truthy (validated_sql st) = false ->
      truthy (sql_error st) = true ->
      2 <= get (repair_count st) 0 ->
      next_node validate_sql st = Ok generate_answer
      /\ next_node generate_answer st = Ok output)
  /\ (truthy (validated_sql st) = false ->
      truthy (sql_error st) = false ->
      next_node validate_sql st = Ok execute_sql).
Proof.
  unfold next_node, should_repair, MAX_REPAIR_ATTEMPTS.
  split; [|split; [|split]].
  - intros Hv. rewrite Hv. reflexivity.
  - intros Hv He Hc. apply Z.ltb_lt in Hc. rewrite Hv, He, Hc. reflexivity.
  - intros Hv He Hc. apply Z.ltb_ge in Hc. rewrite Hv, He, Hc.
    split; reflexivity.
  - intros Hv He. rewrite Hv, He. reflexivity.
Qed.

Lemma routing_priority_witness :
  next_node validate_sql
    (set_validated_sql (Some "SELECT 1 LIMIT 1000") sample_context)
  = Ok execute_sql
  /\ next_node validate_sql
       (set_sql_error (Some msg_form) sample_context)
     = Ok repair_sql
  /\ next_node validate_sql
       (set_repair_count (Some 2)
          (set_sql_error (Some msg_form) sample_context))
     = Ok generate_answer
  /\ next_node validate_sql sample_context = Ok execute_sql.
Proof.
  split; [|split; [|split]].
  - apply (proj1 (routing_priority _)). reflexivity.
  - apply (proj1 (proj2 (routing_priority _))); [reflexivity | reflexivity |].
    simpl. lia.
  - apply (proj1 (proj2 (proj2 (routing_priority _))));
      [reflexivity | reflexivity |]. simpl. lia.
  - apply (proj2 (proj2 (proj2 (routing_priority _)))); reflexivity.
Defined.

(* ------------------------------------------------------------------ *)
(** ** The repair budget *)

Lemma other_nodes_keep_repair_count (backend : Backend) :
  forall n st st' cs,
    n <> repair_sql ->
    run_node backend n st = (Ok st', cs) ->
    get (repair_count st') 0 = get (repair_count st) 0.
Proof.
  intros n st st' cs Hn Hrun.
  destruct n; simpl in Hrun; try contradiction.
  - unfold input_node in Hrun.
    destruct (schema st); [|destruct (get_schema backend)];
      destruct (repair_count st) eqn:Hk; simpl in Hrun; rewrite ?Hk in Hrun;
      try discriminate; injection Hrun as <- <-; simpl; rewrite ?Hk;
      reflexivity.
  - unfold sql_generation_node in Hrun.
    destruct (call_deepseek_json backend ForGeneration st);
      injection Hrun as <- <-; reflexivity.
  - injection Hrun as Hrun _.
    apply validation_frame in Hrun. destruct Hrun as (-> & _). reflexivity.
  - unfold sql_execution_node in Hrun.
    destruct (validated_sql st) as [v|];
      [destruct (String.eqb v "");
       [|destruct (run_query backend v) as [[? ?]|]]|];
      injection Hrun as <- <-; reflexivity.
  - unfold answer_generation_node in Hrun.
    destruct (truthy (sql_error st));
      [|destruct (call_deepseek_json backend ForAnswer st)];
      injection Hrun as <- <-; reflexivity.
  - injection Hrun as <- _; reflexivity.
  - injection Hrun as <- _; reflexivity.
Qed.

Lemma repair_consumes_attempt (backend : Backend) :
  forall st st' cs,
    run_node backend repair_sql st = (Ok st', cs) ->
    get (repair_count st) 0 < MAX_REPAIR_ATTEMPTS ->
    repair_count st' = Some (get (repair_count st) 0 + 1)
    /\ cs = [CallBackend ForRepair
               (set_repair_count (Some (get (repair_count st) 0 + 1)) st)].
Proof.
  intros st st' cs Hrun Hlt. simpl in Hrun.
  unfold sql_repair_node in Hrun.
  destruct (deepseek_sql st); [|discriminate].
  apply Z.leb_gt in Hlt. rewrite Hlt in Hrun.
  destruct (call_deepseek_json backend ForRepair _);
    injection Hrun as <- <-; split; reflexivity.
Qed.

(** C2. The repair count starts at 0; no node other than the Repairer
    changes it; the Repairer, when fewer than two repairs have been made,
    adds one before its backend call (the call is made with the incremented
    count, and the count is kept whatever the call returns); and it is at
    most 2 in the final state of every run that reaches the end of the
    graph. *)
Theorem repair_count_budget (backend : Backend) (q : string) (s : Schema) :
  repair_count (initial_context q s) = Some 0
  /\ (forall n st st' cs,
         n <> repair_sql ->
         run_node backend n st = (Ok st', cs) ->
         get (repair_count st') 0 = get (repair_count st) 0)
  /\ (forall st st' cs,
         run_node backend repair_sql st = (Ok st', cs) ->
         get (repair_count st) 0 < 2 ->
         repair_count st' = Some (get (repair_count st) 0 + 1)
         /\ cs = [CallBackend ForRepair
                    (set_repair_count
                       (Some (get (repair_count st) 0 + 1)) st)])
  /\ (forall final,
         outcome (ainvoke backend (initial_context q s)) = Ok final ->
         exists k, repair_count final = Some k /\ 0 <= k <= 2).
Proof.
  split; [reflexivity|].
  split; [apply other_nodes_keep_repair_count|].
  split; [apply repair_consumes_attempt|].
  intros final Hfinal. rewrite ainvoke_eq in Hfinal.
  pose proof (walk_outcome backend (Inv backend) (Inv_step backend)
                recursion_limit input (initial_context q s) final
                (Inv_initial backend q s) Hfinal) as HI.
  destruct HI as (Hk & _). exact Hk.
Qed.

Lemma repair_count_budget_witness :
  (exists k, repair_count stubborn_final = Some k /\ 0 <= k <= 2)
  /\ repair_count repaired_once = Some 1
  /\ get (repair_count rejected_once) 0 = 0.
Proof.
  pose proof (repair_count_budget stubborn_backend "How many?" sample_schema)
    as (_ & Hother & Hrepair & Hfinal).
  split; [|split].
  - apply Hfinal. vm_compute. reflexivity.
  - refine (proj1 (Hrepair rejected_once repaired_once _ _ _)).
    + vm_compute. reflexivity.
    + vm_compute. reflexivity.
  - refine (Hother validate_sql
              (set_deepseek_sql (Some "DROP TABLE nyc_311") sample_context)
              rejected_once _ _ _).
    + discriminate.
    + vm_compute. reflexivity.
Defined.

(* ------------------------------------------------------------------ *)
(** ** Validated query and error *)

Lemma entry_both_set (backend : Backend) (st : Context) :
  answer_entry backend st -> both_set st -> exec_failed backend st.
Proof.
  intros [(Hv & _)|[(_ & He)|H]] (Bv & Be); auto.
  - rewrite Hv in Bv; discriminate.
  - rewrite He in Be; discriminate.
Qed.

(** The trace lists the nodes that ran; [END] is not one of them. *)
Lemma END_not_in_trace (backend : Backend) :
  forall limit n st st',
    ~ In (END, st') (trace (walk backend limit n st)).
Proof.
  induction limit as [|limit IH]; intros n st st';
    destruct (Node_END_dec n) as [->|Hn].
  - rewrite walk_END; intros [].
  - rewrite walk_O by exact Hn; intros [].
  - rewrite walk_END; intros [].
  - rewrite walk_S by exact Hn.
    destruct (run_node backend n st) as [[c1|e] cs1]; [|intros []].
    destruct (next_node n c1) as [m1|e]; simpl.
    + intros [[= -> _]|Hin]; [contradiction | eapply IH; eauto].
    + intros [[= -> _]|[]]; contradiction.
Qed.

(** C4, as the code has it.  In every state a run goes through, a validated
    query and an error are present together only after the Executor has
    failed on that query: never in the state left by the input, generation,
    validation or repair node, and in a later state only with the error of
    the failed execution. *)
Theorem validated_xor_error_until_execution
        (backend : Backend) (q : string) (s : Schema)
        (n : Node) (st : Context) :
  In (n, st) (trace (ainvoke backend (initial_context q s))) ->
  (n = input \/ n = generate_sql \/ n = validate_sql \/ n = repair_sql ->
   ~ both_set st)
  /\ (both_set st ->
      (n = execute_sql \/ n = generate_answer \/ n = output)
      /\ exec_failed backend st).
Proof.
  intros Hin.
  destruct (trace_Inv _ _ _ _ _ Hin) as (st0 & cs & m & HI0 & Hrun & Hm & HI).
  assert (Hearly :
            n = input \/ n = generate_sql \/ n = validate_sql
            \/ n = repair_sql -> ~ both_set st).
  { intros Hn (Bv & Be).
    destruct Hn as [ -> | [ -> | [ -> | -> ]]]; simpl in Hm, Hrun.
    - injection Hm as <-. destruct HI as (_ & _ & _ & Hv & _).
      rewrite Hv in Bv; discriminate.
    - injection Hm as <-. destruct HI as (_ & _ & _ & Hv & _).
      rewrite Hv in Bv; discriminate.
    - injection Hrun as Hrun _.
      destruct (validation_verdict _ _ Hrun) as [(_ & He & _)|(Hv & _)].
      + rewrite He in Be; discriminate.
      + rewrite Hv in Bv; discriminate.
    - injection Hm as <-. destruct HI as (_ & _ & _ & Hv & _).
      rewrite Hv in Bv; discriminate. }
  split; [exact Hearly|].
  intros HB.
  destruct n; try (exfalso; apply Hearly; tauto);
    simpl in Hm; injection Hm as <-.
  - split; [tauto|]. destruct HI as (_ & _ & _ & He & _).
    apply entry_both_set; assumption.
  - split; [tauto|]. destruct HI as (_ & _ & _ & He & _).
    apply entry_both_set; assumption.
  - split; [tauto|]. destruct HI as (_ & _ & _ & He & _).
    apply entry_both_set; assumption.
  - exfalso. rewrite ainvoke_eq in Hin.
    exact (END_not_in_trace _ _ _ _ _ Hin).
Qed.

Lemma after_failed_execution_in_trace :
  In (execute_sql, after_failed_execution)
     (trace (ainvoke failing_query_backend
               (initial_context "How many?" sample_schema))).
Proof.
  vm_compute. right; right; right; left. reflexivity.
Defined.

(** C4 as stated fails: after the Executor fails, the state holds the
    validated query together with the execution error. *)
Lemma validated_and_error_after_failed_execution :
  In (execute_sql, after_failed_execution)
     (trace (ainvoke failing_query_backend
               (initial_context "How many?" sample_schema)))
  /\ validated_sql after_failed_execution
     = Some "SELECT borough FROM nyc_311 LIMIT 10"
  /\ sql_error after_failed_execution
     = Some "SQL execution failed: Binder Error: column borough not found"
  /\ both_set after_failed_execution.
Proof.
  split; [exact after_failed_execution_in_trace|].
  split; [reflexivity|]. split; [reflexivity|].
  split; reflexivity.
Qed.

Lemma validated_xor_error_until_execution_witness :
  exec_failed failing_query_backend after_failed_execution
  /\ ~ both_set after_first_rejection.
Proof.
  split.
  - apply (proj2 (validated_xor_error_until_execution
                    failing_query_backend "How many?" sample_schema
                    execute_sql after_failed_execution
                    after_failed_execution_in_trace)).
    split; reflexivity.
  - refine (proj1 (validated_xor_error_until_execution
                     stubborn_backend "How many?" sample_schema
                     validate_sql after_first_rejection _) _).
    + vm_compute. right; right; left. reflexivity.
    + right; right; left; reflexivity.
Defined.

(* ------------------------------------------------------------------ *)
(** ** The Orchestrator's boundary *)

(** The one failure that leaves [run_agent] is the failure to obtain the
    schema, raised before the state is built and before any node runs. *)
Lemma schema_failure_is_raised (backend : Backend) (q : string) (e : exn) :
  get_schema backend = Raise e ->
  run_agent backend q = (Raise e, [CallSchema]).
Proof.
  unfold run_agent. intros ->. reflexivity.
Qed.

(** C5 fails on the code.  With a backend that fails every call, the
    generation node records the failure as the error and leaves no
    candidate query; the validation node then raises on the log line that
    slices the candidate.  The run stops after two nodes: it does not reach
    the end of the graph, the Answerer does not run, and no state of the
    run holds a final answer.  The answer of the response is the text of
    the exception handler of [run_agent], about the TypeError. *)
Theorem failed_generation_is_not_answered :
  get_schema failing_answer_backend = Ok sample_schema
  /\ trace (ainvoke failing_answer_backend sample_context)
     = [(input, sample_context); (generate_sql, after_failed_generation)]
  /\ sql_error after_failed_generation
     = Some "SQL generation failed: 503 Service Unavailable"
  /\ final_answer sample_context = None
  /\ final_answer after_failed_generation = None
  /\ outcome (ainvoke failing_answer_backend sample_context)
     = Raise TypeError_None_subscript
  /\ run_agent failing_answer_backend "How many?"
     = (Ok {| answer_text :=
                Some "Agent execution failed: 'NoneType' object is not subscriptable";
              sql := None;
              res_columns := [];
              res_rows := [];
              error := Some "'NoneType' object is not subscriptable" |},
        [CallSchema; CallBackend ForGeneration sample_context]).
Proof.
  repeat split; vm_compute; reflexivity.
Qed.

(* ------------------------------------------------------------------ *)
(** ** Execution failure and the Answerer *)

(** C9. When the row store fails on the validated query, the Executor
    records the failure as the error and empties the result columns and
    rows; from there the run goes through the Answerer and the output node
    only, the only call made is the query itself (no backend call), and the
    final answer is the error prefix followed by the failure detail. *)
Theorem execution_failure_is_terminal
        (backend : Backend) (st : Context) (v : string) (e : exn)
        (limit : nat) :
  validated_sql st = Some v ->
  v <> "" ->
  run_query backend v = Raise e ->
  exists st1 st2,
    walk backend (3 + limit) execute_sql st
    = {| trace := [(execute_sql, st1); (generate_answer, st2); (output, st2)];
         calls := [CallQuery v];
         outcome := Ok st2 |}
    /\ sql_error st1 = Some ("SQL execution failed: " ++ exn_str e)
    /\ result_columns st1 = [] /\ result_rows st1 = []
    /\ final_answer st2
       = Some ("Error: SQL execution failed: " ++ exn_str e).
Proof.
  intros Hv Hne Hq.
  eexists; eexists.
  change (3 + limit)%nat with (S (S (S limit))).
  erewrite walk_step;
    [ | discriminate
      | simpl; unfold sql_execution_node;
        rewrite Hv, (eqb_empty_false _ Hne), Hq; reflexivity
      | reflexivity ].
  erewrite walk_step; [ | discriminate | reflexivity | reflexivity ].
  erewrite walk_step; [ | discriminate | reflexivity | reflexivity ].
  rewrite walk_END. simpl.
  split; [reflexivity|]. repeat split.
Qed.

Lemma execution_failure_is_terminal_witness :
  exists st1 st2,
    walk failing_query_backend 3 execute_sql
      (set_validated_sql (Some "SELECT borough FROM nyc_311 LIMIT 10")
         sample_context)
    = {| trace := [(execute_sql, st1); (generate_answer, st2); (output, st2)];
         calls := [CallQuery "SELECT borough FROM nyc_311 LIMIT 10"];
         outcome := Ok st2 |}
    /\ sql_error st1
       = Some ("SQL execution failed: "
               ++ "Binder Error: column borough not found")
    /\ result_columns st1 = [] /\ result_rows st1 = []
    /\ final_answer st2
       = Some ("Error: SQL execution failed: "
               ++ "Binder Error: column borough not found").
Proof.
  apply (execution_failure_is_terminal failing_query_backend
           (set_validated_sql (Some "SELECT borough FROM nyc_311 LIMIT 10")
              sample_context)
           "SELECT borough FROM nyc_311 LIMIT 10"
           (Exception "BinderException"
              "Binder Error: column borough not found") 0).
  - reflexivity.
  - discriminate.
  - reflexivity.
Defined.

(** C10. The Answerer makes no backend call when an error is present and
    answers with the error prefix followed by the error.  Otherwise, when
    its backend call fails, the answer is the row count and column list if
    there are rows, and the no-results message with the failure detail if
    there are none.  The node never raises and always leaves an answer. *)
Theorem answerer_fallback (backend : Backend) (st : Context) :
  (forall err,
      sql_error st = Some err -> err <> "" ->
      answer_generation_node backend st
      = (Ok (set_final_answer (Some ("Error: " ++ err)) st), []))
  /\ (forall e,
         truthy (sql_error st) = false ->
         call_deepseek_json backend ForAnswer st = Raise e ->
         result_rows st <> [] ->
         answer_generation_node backend st
         = (Ok (set_final_answer
                  (Some ("Query executed successfully and returned "
                         ++ str_of_nat (List.length (result_rows st))
                         ++ " rows. Columns: "
                         ++ join ", " (result_columns st))) st),
            [CallBackend ForAnswer st]))
  /\ (forall e,
         truthy (sql_error st) = false ->
         call_deepseek_json backend ForAnswer st = Raise e ->
         result_rows st = [] ->
         answer_generation_node backend st
         = (Ok (set_final_answer
                  (Some ("Query executed but returned no results. "
                         ++ "Error generating answer: " ++ exn_str e)) st),
            [CallBackend ForAnswer st]))
  /\ (exists st' cs a,
         answer_generation_node backend st = (Ok st', cs)
         /\ final_answer st' = Some a).
Proof.
  unfold answer_generation_node.
  split; [|split; [|split]].
  - intros err He Hne. rewrite He. simpl.
    rewrite (eqb_empty_false _ Hne). reflexivity.
  - intros e Ht Hc Hrows. rewrite Ht, Hc.
    destruct (result_rows st); [contradiction | reflexivity].
  - intros e Ht Hc Hrows. rewrite Ht, Hc, Hrows. reflexivity.
  - destruct (truthy (sql_error st));
      [|destruct (call_deepseek_json backend ForAnswer st)];
      eexists; eexists; eexists; split; reflexivity.
Qed.

Lemma answerer_fallback_witness :
  answer_generation_node failing_answer_backend
    (set_sql_error (Some msg_form) sample_context)
  = (Ok (set_final_answer
           (Some "Error: SQL must start with SELECT or WITH")
           (set_sql_error (Some msg_form) sample_context)), [])
  /\ fst (answer_generation_node failing_answer_backend with_rows)
     = Ok (set_final_answer
             (Some "Query executed successfully and returned 2 rows. Columns: borough, n")
             with_rows)
  /\ fst (answer_generation_node failing_answer_backend sample_context)
     = Ok (set_final_answer
             (Some "Query executed but returned no results. Error generating answer: 503 Service Unavailable")
             sample_context).
Proof.
  split; [|split].
  - apply (proj1 (answerer_fallback failing_answer_backend _) msg_form).
    + reflexivity.
    + discriminate.
  - rewrite (proj1 (proj2 (answerer_fallback failing_answer_backend with_rows))
               (Exception "HTTPStatusError" "503 Service Unavailable")).
    + reflexivity.
    + reflexivity.
    + reflexivity.
    + discriminate.
  - rewrite (proj1 (proj2 (proj2
               (answerer_fallback failing_answer_backend sample_context)))
               (Exception "HTTPStatusError" "503 Service Unavailable")).
    + reflexivity.
    + reflexivity.
    + reflexivity.
    + reflexivity.
Defined.

(* ------------------------------------------------------------------ *)
(** ** A query that is never repaired *)

Lemma generation_node_ok (backend : Backend) (st : Context) (r : Reply)
      (text : string) :
  call_deepseek_json backend ForGeneration st = Ok r ->
  r_sql r = Some text ->
  run_node backend generate_sql st
  = (Ok (set_sql_confidence (Some (get (r_confidence r) 0%Q))
           (set_sql_explanation (Some (get (r_explanation r) ""))
              (set_deepseek_sql (Some text) st))),
     [CallBackend ForGeneration st]).
Proof.
  intros Hc Hs. simpl. unfold sql_generation_node. rewrite Hc, Hs.
  reflexivity.
Qed.

Lemma repair_node_ok (backend : Backend) (st : Context) (prev : string)
      (k : Z) (r : Reply) (text : string) :
  deepseek_sql st = Some prev ->
  repair_count st = Some k ->
  k < MAX_REPAIR_ATTEMPTS ->
  call_deepseek_json backend ForRepair (set_repair_count (Some (k + 1)) st)
  = Ok r ->
  r_sql r = Some text ->
  run_node backend repair_sql st
  = (Ok (set_sql_error None
           (set_sql_explanation (Some (get (r_explanation r) ""))
              (set_deepseek_sql (Some text)
                 (set_repair_count (Some (k + 1)) st)))),
     [CallBackend ForRepair (set_repair_count (Some (k + 1)) st)]).
Proof.
  intros Hp Hk Hlt Hc Hs. simpl. unfold sql_repair_node.
  rewrite Hp, Hk. simpl get.
  apply Z.leb_gt in Hlt. rewrite Hlt, Hc, Hs. reflexivity.
Qed.

Lemma validation_rejects_drop (st : Context) :
  deepseek_sql st = Some drop_statement ->
  sql_validation_node st
  = Ok (set_sql_error (Some msg_form)
          (set_validated_sql None (set_sql_error None st))).
Proof.
  intros H. unfold sql_validation_node. rewrite H. reflexivity.
Qed.

(** C3, as the code has it.  When the backend proposes the statement
    [DROP TABLE nyc_311] on every generation and repair call, the run makes
    two repair attempts, the third validation pass routes straight to the
    Answerer, and the final answer is the error prefix followed by the
    error of the statement-form check, which precedes the keyword check. *)
Theorem unrepaired_drop_statement
        (backend : Backend) (q : string) (s : Schema) :
  always_proposes backend drop_statement ->
  exists final,
    outcome (ainvoke backend (initial_context q s)) = Ok final
    /\ map fst (trace (ainvoke backend (initial_context q s)))
       = [input; generate_sql; validate_sql; repair_sql; validate_sql;
          repair_sql; validate_sql; generate_answer; output]
    /\ map kind_of (calls (ainvoke backend (initial_context q s)))
       = [KBackend ForGeneration; KBackend ForRepair; KBackend ForRepair]
    /\ repair_count final = Some 2
    /\ validated_sql final = None
    /\ sql_error final = Some "SQL must start with SELECT or WITH"
    /\ final_answer final = Some "Error: SQL must start with SELECT or WITH".
Proof.
  intros Hp.
  assert (Hgen : ForGeneration <> ForAnswer) by discriminate.
  assert (Hrep : ForRepair <> ForAnswer) by discriminate.
  rewrite ainvoke_eq. unfold recursion_limit.
  (* input *)
  erewrite walk_step; [ | discriminate | reflexivity | reflexivity ].
  (* generate_sql *)
  destruct (Hp ForGeneration (initial_context q s) Hgen) as (r0 & C0 & S0).
  erewrite walk_step;
    [ | discriminate | exact (generation_node_ok _ _ _ _ C0 S0)
      | reflexivity ].
  (* validate_sql, repair_sql *)
  erewrite walk_step;
    [ | discriminate
      | simpl run_node; rewrite validation_rejects_drop by reflexivity;
        reflexivity
      | reflexivity ].
  match goal with
  | |- context [walk backend _ repair_sql ?T] =>
      destruct (Hp ForRepair (set_repair_count (Some (0 + 1)) T) Hrep)
        as (r1 & C1 & S1);
      erewrite (walk_step backend _ repair_sql);
      [ | discriminate
        | apply (repair_node_ok backend T drop_statement 0 r1 drop_statement);
          [ reflexivity | reflexivity | reflexivity | exact C1 | exact S1 ]
        | reflexivity ]
  end.
  (* validate_sql, repair_sql *)
  erewrite walk_step;
    [ | discriminate
      | simpl run_node; rewrite validation_rejects_drop by reflexivity;
        reflexivity
      | reflexivity ].
  match goal with
  | |- context [walk backend _ repair_sql ?T] =>
      destruct (Hp ForRepair (set_repair_count (Some (1 + 1)) T) Hrep)
        as (r2 & C2 & S2);
      erewrite (walk_step backend _ repair_sql);
      [ | discriminate
        | apply (repair_node_ok backend T drop_statement 1 r2 drop_statement);
          [ reflexivity | reflexivity | reflexivity | exact C2 | exact S2 ]
        | reflexivity ]
  end.
  (* validate_sql, generate_answer, output *)
  erewrite walk_step;
    [ | discriminate
      | simpl run_node; rewrite validation_rejects_drop by reflexivity;
        reflexivity
      | reflexivity ].
  erewrite walk_step; [ | discriminate | reflexivity | reflexivity ].
  erewrite walk_step; [ | discriminate | reflexivity | reflexivity ].
  rewrite walk_END.
  eexists. split; [reflexivity|]. repeat split.
Qed.

Lemma stubborn_always_proposes :
  always_proposes stubborn_backend drop_statement.
Proof.
  intros p st Hp. destruct p.
  - eexists; split; reflexivity.
  - eexists; split; reflexivity.
  - contradiction.
Defined.

Lemma unrepaired_drop_statement_witness :
  exists final,
    outcome (ainvoke stubborn_backend
               (initial_context "How many?" sample_schema)) = Ok final
    /\ map fst (trace (ainvoke stubborn_backend
                         (initial_context "How many?" sample_schema)))
       = [input; generate_sql; validate_sql; repair_sql; validate_sql;
          repair_sql; validate_sql; generate_answer; output]
    /\ map kind_of (calls (ainvoke stubborn_backend
                             (initial_context "How many?" sample_schema)))
       = [KBackend ForGeneration; KBackend ForRepair; KBackend ForRepair]
    /\ repair_count final = Some 2
    /\ validated_sql final = None
    /\ sql_error final = Some "SQL must start with SELECT or WITH"
    /\ final_answer final = Some "Error: SQL must start with SELECT or WITH".
Proof.
  exact (unrepaired_drop_statement stubborn_backend "How many?" sample_schema
           stubborn_always_proposes).
Defined.

(** C3 as stated fails: with [DROP TABLE nyc_311] proposed on every call,
    the final answer is not the message of the claim. *)
Lemma drop_statement_answer_is_not_budget_message :
  always_proposes stubborn_backend drop_statement
  /\ fst (run_agent stubborn_backend "How many?")
     = Ok {| answer_text := Some "Error: SQL must start with SELECT or WITH";
             sql := None;
             res_columns := [];
             res_rows := [];
             error := Some "SQL must start with SELECT or WITH" |}
  /\ answer_text
       {| answer_text := Some "Error: SQL must start with SELECT or WITH";
          sql := None;
          res_columns := [];
          res_rows := [];
          error := Some "SQL must start with SELECT or WITH" |}
     <> Some ("Error: Maximum repair attempts (2) reached. "
              ++ "Last error: Forbidden keyword found: DROP").
Proof.
  split; [exact stubborn_always_proposes|].
  split; [vm_compute; reflexivity | discriminate].
Qed.

(** A statement that does reach the keyword check: the error names the
    keyword, and after two repairs the final answer is again the error
    prefix followed by the last error. *)
Lemma forbidden_keyword_run_answer :
  fst (run_agent smuggling_backend "How many?")
  = Ok {| answer_text := Some "Error: Forbidden keyword found: DROP";
          sql := None;
          res_columns := [];
          res_rows := [];
          error := Some "Forbidden keyword found: DROP" |}
  /\ map kind_of (snd (run_agent smuggling_backend "How many?"))
     = [KSchema; KBackend ForGeneration; KBackend ForRepair;
        KBackend ForRepair].
Proof.
  split; vm_compute; reflexivity.
Qed.


(* ------------------------------------------------------------------ *)
(** ** Facts about the string methods *)

Lemma append_assoc (a b c : string) : (a ++ b) ++ c = a ++ (b ++ c).
Proof.
  induction a as [|x a IH]; simpl; [reflexivity | rewrite IH; reflexivity].
Qed.

Lemma append_empty_r (a : string) : a ++ "" = a.
Proof.
  induction a as [|x a IH]; simpl; [reflexivity | rewrite IH; reflexivity].
Qed.

Lemma append_eq_empty (a b : string) : a ++ b = "" -> a = "" /\ b = "".
Proof.
  destruct a; simpl; [auto | discriminate].
Qed.

Lemma map_str_app (f : ascii -> ascii) (a b : string) :
  map_str f (a ++ b) = map_str f a ++ map_str f b.
Proof.
  induction a as [|x a IH]; simpl; [reflexivity | rewrite IH; reflexivity].
Qed.

(** A split of [map_str f s] comes from a split of [s]. *)
Lemma map_str_split (f : ascii -> ascii) (s a b : string) :
  map_str f s = a ++ b ->
  exists s1 s2, s = s1 ++ s2 /\ map_str f s1 = a /\ map_str f s2 = b.
Proof.
  revert s. induction a as [|x a IH]; intros s H.
  - exists "", s. auto.
  - destruct s as [|c s]; [discriminate|].
    simpl in H. injection H as Hc Hs.
    destruct (IH _ Hs) as (s1 & s2 & -> & H1 & H2).
    exists (String c s1), s2. simpl. rewrite Hc, H1. auto.
Qed.

Lemma all_chars_app (p : ascii -> bool) (a b : string) :
  all_chars p (a ++ b) = all_chars p a && all_chars p b.
Proof.
  induction a as [|x a IH]; simpl; [reflexivity|].
  rewrite IH, andb_assoc. reflexivity.
Qed.

Lemma all_chars_impl (p q : ascii -> bool) (s : string) :
  (forall c, p c = true -> q c = true) ->
  all_chars p s = true -> all_chars q s = true.
Proof.
  intros Hpq. induction s as [|c s IH]; simpl; [auto|].
  intros H. apply andb_prop in H. destruct H as [H1 H2].
  rewrite (Hpq _ H1), (IH H2). reflexivity.
Qed.

Lemma all_chars_map (p : ascii -> bool) (f : ascii -> ascii) (s : string) :
  (forall c, p (f c) = p c) ->
  all_chars p (map_str f s) = all_chars p s.
Proof.
  intros H. induction s as [|c s IH]; simpl; [reflexivity|].
  rewrite H, IH. reflexivity.
Qed.

Lemma last_sat_app (p : ascii -> bool) (a b : string) :
  b <> "" -> last_sat p (a ++ b) = last_sat p b.
Proof.
  intros Hb. induction a as [|x a IH]; [reflexivity|].
  simpl. destruct (a ++ b) eqn:E.
  - apply append_eq_empty in E. destruct E; contradiction.
  - exact IH.
Qed.

Lemma last_sat_cons (p : ascii -> bool) (c : ascii) (s : string) :
  s <> "" -> last_sat p (String c s) = last_sat p s.
Proof.
  destruct s; [contradiction | reflexivity].
Qed.

Lemma last_sat_map (p : ascii -> bool) (f : ascii -> ascii) (s : string) :
  (forall c, p (f c) = p c) ->
  last_sat p (map_str f s) = last_sat p s.
Proof.
  intros H. induction s as [|c s IH]; [reflexivity|].
  destruct s as [|d s]; simpl; [apply H | exact IH].
Qed.

Lemma wb_after_app (wb : bool) (a b : string) :
  wb_after wb (a ++ b) = wb_after (wb_after wb a) b.
Proof.
  revert wb. induction a as [|x a IH]; intros wb; simpl; auto.
Qed.

Lemma wb_after_last (wb : bool) (s : string) :
  s <> "" -> wb_after wb s = last_sat is_word s.
Proof.
  revert wb. induction s as [|c s IH]; intros wb H; [contradiction|].
  destruct s as [|d s]; [reflexivity|].
  change (wb_after (is_word c) (String d s) = last_sat is_word (String d s)).
  apply IH. discriminate.
Qed.

(** *** Stripping *)

Lemma lstrip_decomp (p : ascii -> bool) (s : string) :
  exists w, s = w ++ lstrip_by p s /\ all_chars p w = true.
Proof.
  induction s as [|c s (w & Hs & Hw)]; simpl.
  - exists "". auto.
  - destruct (p c) eqn:Hc.
    + exists (String c w). simpl. rewrite Hc, Hw, <- Hs. auto.
    + exists "". auto.
Qed.


Lemma rstrip_decomp (p : ascii -> bool) (s : string) :
  exists x, s = rstrip_by p s ++ x /\ all_chars p x = true.
Proof.
  induction s as [|c s (x & Hs & Hx)]; simpl.
  - exists "". auto.
  - destruct (rstrip_by p s) as [|d t] eqn:E.
    + simpl in Hs. subst x. destruct (p c) eqn:Hc.
      * exists (String c s). simpl. rewrite Hc, Hx. auto.
      * exists s. auto.
    + exists x. simpl in *. rewrite <- Hs. auto.
Qed.

Lemma rstrip_last (p : ascii -> bool) (s : string) :
  last_sat p (rstrip_by p s) = false.
Proof.
  induction s as [|c s IH]; simpl; [reflexivity|].
  destruct (rstrip_by p s) as [|d t] eqn:E.
  - destruct (p c) eqn:Hc; simpl; auto.
  - exact IH.
Qed.

Lemma rstrip_fixed (p : ascii -> bool) (s : string) :
  last_sat p s = false -> rstrip_by p s = s.
Proof.
  induction s as [|c s IH]; [reflexivity|].
  destruct s as [|d s].
  - simpl. intros ->. reflexivity.
  - intros H. change (last_sat p (String d s) = false) in H.
    specialize (IH H).
    change (rstrip_by p (String c (String d s)))
      with (match rstrip_by p (String d s) with
            | "" => if p c then "" else String c ""
            | t => String c t
            end).
    rewrite IH. reflexivity.
Qed.

Lemma lstrip_fixed (p : ascii -> bool) (s : string) :
  first_sat p s = false -> lstrip_by p s = s.
Proof.
  destruct s as [|c s]; simpl; [reflexivity|]. intros ->. reflexivity.
Qed.

Lemma lstrip_rstrip_comm (p q : ascii -> bool) (s : string) :
  lstrip_by p (rstrip_by q s) = rstrip_by q (lstrip_by p s).
Proof.
  induction s as [|c s IH]; [reflexivity|].
  simpl lstrip_by at 2. simpl rstrip_by at 1.
  destruct (rstrip_by q s) as [|d t] eqn:E.
  - destruct (q c) eqn:Hq, (p c) eqn:Hp; simpl; rewrite ?Hp, ?Hq, ?E;
      try rewrite <- IH; reflexivity.
  - destruct (p c) eqn:Hp.
    + simpl. rewrite Hp. exact IH.
    + simpl. rewrite Hp, E. reflexivity.
Qed.

Lemma lstrip_map (p : ascii -> bool) (f : ascii -> ascii) (s : string) :
  (forall c, p (f c) = p c) ->
  lstrip_by p (map_str f s) = map_str f (lstrip_by p s).
Proof.
  intros H. induction s as [|c s IH]; simpl; [reflexivity|].
  rewrite H. destruct (p c); [exact IH | reflexivity].
Qed.

Lemma rstrip_map (p : ascii -> bool) (f : ascii -> ascii) (s : string) :
  (forall c, p (f c) = p c) ->
  rstrip_by p (map_str f s) = map_str f (rstrip_by p s).
Proof.
  intros H. induction s as [|c s IH]; simpl; [reflexivity|].
  rewrite IH, H. destruct (rstrip_by p s); simpl; [|reflexivity].
  destruct (p c); reflexivity.
Qed.

(** *** Case conversion keeps the character classes *)

Lemma upper_char_space (c : ascii) : is_space (upper_char c) = is_space c.
Proof. destruct c as [[] [] [] [] [] [] [] []]; reflexivity. Qed.

Lemma upper_char_semicolon (c : ascii) :
  is_semicolon (upper_char c) = is_semicolon c.
Proof. destruct c as [[] [] [] [] [] [] [] []]; reflexivity. Qed.

Lemma upper_char_word (c : ascii) : is_word (upper_char c) = is_word c.
Proof. destruct c as [[] [] [] [] [] [] [] []]; reflexivity. Qed.

Lemma upper_char_idem (c : ascii) : upper_char (upper_char c) = upper_char c.
Proof. destruct c as [[] [] [] [] [] [] [] []]; reflexivity. Qed.

Lemma space_not_word (c : ascii) : is_space c = true -> is_word c = false.
Proof. destruct c as [[] [] [] [] [] [] [] []]; simpl; auto; discriminate. Qed.

Lemma semicolon_not_word (c : ascii) :
  is_semicolon c = true -> is_word c = false.
Proof. destruct c as [[] [] [] [] [] [] [] []]; simpl; auto; discriminate. Qed.

Lemma digit_is_word (c : ascii) : is_digit c = true -> is_word c = true.
Proof. destruct c as [[] [] [] [] [] [] [] []]; simpl; auto; discriminate. Qed.

Lemma upper_app (a b : string) : upper (a ++ b) = upper a ++ upper b.
Proof. apply map_str_app. Qed.

Lemma strip_upper (s : string) : strip (upper s) = upper (strip s).
Proof.
  unfold strip, upper.
  rewrite (lstrip_map _ _ _ upper_char_space).
  apply (rstrip_map _ _ _ upper_char_space).
Qed.

(* ------------------------------------------------------------------ *)
(** ** Facts about the matcher *)

Lemma match_here_Bnd (r : regex) (wb : bool) (s : string) :
  match_here (Bnd :: r) wb s
  = if at_boundary wb s then match_here r wb s else None.
Proof. reflexivity. Qed.

Lemma match_here_Chr (c : ascii) (r : regex) (wb : bool) (s : string) :
  match_here (Chr c :: r) wb s
  = match s with
    | EmptyString => None
    | String d s' =>
        if Ascii.eqb c d then shift 1 (match_here r (is_word d) s') else None
    end.
Proof.
  destruct s as [|d s']; [reflexivity|]. simpl.
  destruct (Ascii.eqb c d); [|reflexivity].
  destruct (match_here r (is_word d) s') as [[g n]|]; reflexivity.
Qed.

Lemma match_here_Rep1_nil (cap : bool) (cls : cclass) (r : regex)
      (wb : bool) :
  match_here (Rep1 cap cls :: r) wb "" = None.
Proof. reflexivity. Qed.

Lemma match_here_Rep1_cons (cap : bool) (cls : cclass) (r : regex)
      (wb : bool) (c : ascii) (s : string) :
  match_here (Rep1 cap cls :: r) wb (String c s)
  = if in_class cls c then
      match match_here (Rep1 cap cls :: r) wb s with
      | Some (g, n) => Some (if cap then String c g else g, S n)
      | None =>
          match match_here r (is_word c) s with
          | Some (g, n) => Some (if cap then String c "" else g, S n)
          | None => None
          end
      end
    else None.
Proof. reflexivity. Qed.

(** The characters consumed by a match are characters of the text. *)
Lemma match_here_consumed (r : regex) :
  forall wb s g n,
    match_here r wb s = Some (g, n) -> (n <= String.length s)%nat.
Proof.
  induction r as [|a r IH]; intros wb s g n.
  - simpl. intros [= _ <-]. lia.
  - destruct a as [|c|cap cls].
    + rewrite match_here_Bnd. destruct (at_boundary wb s); [|discriminate].
      apply IH.
    + rewrite match_here_Chr. destruct s as [|d s]; [discriminate|].
      destruct (Ascii.eqb c d); [|discriminate].
      destruct (match_here r (is_word d) s) as [[g' n']|] eqn:E;
        [|discriminate].
      simpl. intros [= _ <-]. apply IH in E. lia.
    + revert g n. induction s as [|c s IHs]; intros g n.
      * rewrite match_here_Rep1_nil. discriminate.
      * rewrite match_here_Rep1_cons.
        destruct (in_class cls c); [|discriminate].
        destruct (match_here (Rep1 cap cls :: r) wb s) as [[g' n']|] eqn:E.
        -- intros [= _ <-]. specialize (IHs _ _ eq_refl). simpl. lia.
        -- destruct (match_here r (is_word c) s) as [[g' n']|] eqn:E';
             [|discriminate].
           intros [= _ <-]. apply IH in E'. simpl. lia.
Qed.

(** *** Appending an inert tail *)

Lemma match_here_app_inert (t : string) (r : regex) :
  inert t r ->
  forall u wb, match_here r wb (u ++ t) = match_here r wb u.
Proof.
  induction r as [|a r IH]; intros Hin u wb; [reflexivity|].
  destruct Hin as [Hend Hr]. specialize (IH Hr).
  destruct a as [|c|cap cls].
  - destruct u as [|d u]; [exact (Hend wb)|].
    rewrite !match_here_Bnd. simpl append.
    change (at_boundary wb (String d (u ++ t)))
      with (at_boundary wb (String d u)).
    destruct (at_boundary wb (String d u)); [|reflexivity].
    exact (IH (String d u) wb).
  - destruct u as [|d u]; [exact (Hend wb)|].
    simpl append. rewrite !match_here_Chr. rewrite IH. reflexivity.
  - induction u as [|d u IHu]; [exact (Hend wb)|].
    simpl append. rewrite !match_here_Rep1_cons.
    rewrite IHu, IH. reflexivity.
Qed.

Lemma inert_stable_all (t : string) (r : regex) :
  inert t r -> forall u wb, stable_all r t wb u.
Proof.
  intros Hin. induction u as [|c u IH]; intros wb; simpl; [exact I|].
  split; [|apply IH].
  exact (match_here_app_inert t r Hin (String c u) wb).
Qed.

(** *** [search] and [findall] on a text with a tail *)

Lemma search_from_app (r : regex) (t : string) :
  (forall wb, match_here r wb "" = None) ->
  forall u wb,
    stable_all r t wb u ->
    search_from r wb (u ++ t)
    = match search_from r wb u with
      | Some g => Some g
      | None => search_from r (wb_after wb u) t
      end.
Proof.
  intros Hnil. induction u as [|c u IH]; intros wb Hst.
  - simpl append. simpl search_from at 2. rewrite Hnil. reflexivity.
  - destruct Hst as [H1 H2].
    simpl append in *. simpl search_from. rewrite H1.
    destruct (match_here r wb (String c u)) as [[g n]|]; [reflexivity|].
    exact (IH _ H2).
Qed.

Lemma findall_from_nil (r : regex) (wb : bool) (skip : nat) :
  (forall wb, match_here r wb "" = None) ->
  findall_from r wb skip "" = [].
Proof.
  intros Hnil. destruct skip; simpl; [|reflexivity].
  rewrite Hnil. reflexivity.
Qed.

Lemma findall_from_app (r : regex) (t : string) :
  (forall wb, match_here r wb "" = None) ->
  forall u wb skip,
    (skip <= String.length u)%nat ->
    stable_all r t wb u ->
    findall_from r wb skip (u ++ t)
    = (findall_from r wb skip u ++ findall_from r (wb_after wb u) O t)%list.
Proof.
  intros Hnil. induction u as [|c u IH]; intros wb skip Hskip Hst.
  - simpl in Hskip. assert (skip = O) by lia. subst skip.
    rewrite (findall_from_nil _ _ _ Hnil). reflexivity.
  - destruct Hst as [H1 H2]. simpl append in *.
    destruct skip as [|k].
    + simpl findall_from. rewrite H1.
      destruct (match_here r wb (String c u)) as [[g n]|] eqn:E.
      * apply match_here_consumed in E. simpl in E.
        rewrite IH by (assumption || lia). reflexivity.
      * apply IH; [simpl; lia | assumption].
    + simpl findall_from. simpl in Hskip.
      apply IH; [lia | assumption].
Qed.

Lemma findall_from_app_ext (r : regex) (t : string) :
  (forall wb, match_here r wb "" = None) ->
  forall u wb skip,
    (skip <= String.length u)%nat ->
    stable_or_dead r t wb u ->
    exists extra,
      findall_from r wb skip (u ++ t)
      = (findall_from r wb skip u ++ extra)%list.
Proof.
  intros Hnil. induction u as [|c u IH]; intros wb skip Hskip Hst.
  - rewrite (findall_from_nil _ _ _ Hnil). simpl. eauto.
  - destruct Hst as [H1 H2]. simpl append in *.
    destruct skip as [|k].
    + simpl findall_from.
      destruct H1 as [H1|[H1 Hdead]].
      * rewrite H1.
        destruct (match_here r wb (String c u)) as [[g n]|] eqn:E.
        -- apply match_here_consumed in E. simpl in E.
           destruct (IH (is_word c) (Nat.pred n)) as [extra He];
             [lia | assumption |].
           rewrite He. exists extra. reflexivity.
        -- apply IH; [simpl; lia | assumption].
      * rewrite H1, Hdead. simpl. eauto.
    + simpl findall_from. simpl in Hskip.
      apply IH; [lia | assumption].
Qed.

(** *** Tails without word characters *)

Lemma wordless_cons (c : ascii) (x : string) :
  wordless (String c x) = true -> is_word c = false /\ wordless x = true.
Proof.
  unfold wordless, not_word. simpl. intros H.
  apply andb_prop in H. destruct H as [H1 H2].
  apply negb_true_iff in H1. auto.
Qed.

Lemma in_class_word (cls : cclass) (c : ascii) :
  wordy (Rep1 false cls) = true -> in_class cls c = true -> is_word c = true.
Proof.
  destruct cls; simpl; try discriminate; auto using digit_is_word.
Qed.

(** A pattern that needs a word character does not match where there is
    none. *)
Lemma wordy_none (r : regex) :
  existsb wordy r = true ->
  forall x wb, wordless x = true -> match_here r wb x = None.
Proof.
  induction r as [|a r IH]; [discriminate|].
  intros Hw x wb Hx. simpl in Hw.
  destruct a as [|c|cap cls].
  - rewrite match_here_Bnd. simpl in Hw.
    destruct (at_boundary wb x); [apply IH; assumption | reflexivity].
  - rewrite match_here_Chr. destruct x as [|d x]; [reflexivity|].
    destruct (Ascii.eqb_spec c d) as [->|]; [|reflexivity].
    apply wordless_cons in Hx. destruct Hx as [Hd Hx].
    simpl in Hw. rewrite Hd in Hw. simpl in Hw.
    rewrite (IH Hw); [reflexivity | assumption].
  - induction x as [|d x IHx]; [reflexivity|].
    apply wordless_cons in Hx. destruct Hx as [Hd Hx].
    rewrite match_here_Rep1_cons.
    destruct (in_class cls d) eqn:Hc; [|reflexivity].
    rewrite (IHx Hx).
    destruct (wordy (Rep1 cap cls)) eqn:Hwa.
    + assert (is_word d = true)
        by (apply (in_class_word cls); [destruct cls; auto | exact Hc]).
      congruence.
    + simpl in Hw. rewrite (IH Hw); [reflexivity | assumption].
Qed.

Lemma bnd_only_wordless (r : regex) :
  forallb is_bnd r = true ->
  forall x wb, wordless x = true -> match_here r wb x = match_here r wb "".
Proof.
  induction r as [|a r IH]; [reflexivity|].
  intros Hb x wb Hx. simpl in Hb. apply andb_prop in Hb.
  destruct Hb as [Ha Hb]. destruct a; try discriminate.
  rewrite !match_here_Bnd.
  assert (next_is_word x = false).
  { destruct x as [|d x]; [reflexivity|].
    apply wordless_cons in Hx. simpl. tauto. }
  unfold at_boundary. rewrite H. simpl next_is_word.
  destruct (xorb wb false); [apply IH; assumption | reflexivity].
Qed.

Lemma good_inert (r : regex) (x : string) :
  good r = true -> wordless x = true -> inert x r.
Proof.
  intros Hg Hx. induction r as [|a r IH]; [exact I|].
  change (good (a :: r))
    with ((existsb wordy (a :: r) || forallb is_bnd (a :: r)) && good r)
    in Hg.
  apply andb_prop in Hg. destruct Hg as [Ha Hg].
  split; [|apply IH; exact Hg].
  intros wb. apply orb_prop in Ha. destruct Ha as [Ha|Ha].
  - rewrite (wordy_none _ Ha x wb Hx).
    rewrite (wordy_none _ Ha "" wb eq_refl). reflexivity.
  - apply bnd_only_wordless; assumption.
Qed.

Lemma search_wordless_none (r : regex) :
  existsb wordy r = true ->
  forall x wb, wordless x = true -> search_from r wb x = None.
Proof.
  intros Hw. induction x as [|d x IH]; intros wb Hx.
  - simpl. rewrite (wordy_none _ Hw "" wb eq_refl). reflexivity.
  - simpl. rewrite (wordy_none _ Hw _ wb Hx).
    apply wordless_cons in Hx. apply IH. tauto.
Qed.

Lemma findall_wordless_nil (r : regex) :
  existsb wordy r = true ->
  forall x wb skip, wordless x = true -> findall_from r wb skip x = [].
Proof.
  intros Hw. induction x as [|d x IH]; intros wb skip Hx.
  - apply findall_from_nil. intros wb'. apply (wordy_none _ Hw). reflexivity.
  - destruct skip as [|k]; simpl.
    + rewrite (wordy_none _ Hw _ wb Hx).
      apply wordless_cons in Hx. apply IH. tauto.
    + apply wordless_cons in Hx. apply IH. tauto.
Qed.

(** Appending characters that are not word characters changes neither
    [search] nor [findall]. *)
Lemma search_from_app_wordless (r : regex) (x : string) :
  good r = true -> existsb wordy r = true -> wordless x = true ->
  forall u wb, search_from r wb (u ++ x) = search_from r wb u.
Proof.
  intros Hg Hw Hx u wb.
  rewrite search_from_app.
  - rewrite (search_wordless_none _ Hw x _ Hx).
    destruct (search_from r wb u); reflexivity.
  - intros wb'. apply (wordy_none _ Hw). reflexivity.
  - apply inert_stable_all, good_inert; assumption.
Qed.

Lemma findall_from_app_wordless (r : regex) (x : string) :
  good r = true -> existsb wordy r = true -> wordless x = true ->
  forall u wb, findall_from r wb O (u ++ x) = findall_from r wb O u.
Proof.
  intros Hg Hw Hx u wb.
  rewrite findall_from_app.
  - rewrite (findall_wordless_nil _ Hw x _ _ Hx). apply app_nil_r.
  - intros wb'. apply (wordy_none _ Hw). reflexivity.
  - lia.
  - apply inert_stable_all, good_inert; assumption.
Qed.

(** Leading characters that are not word characters are skipped by a
    pattern that starts at a word boundary with a word character. *)
Lemma search_from_skip_wordless (r : regex) (w : string) :
  existsb wordy r = true ->
  wordless w = true ->
  forall t, search_from (Bnd :: r) false (w ++ t)
            = search_from (Bnd :: r) false t.
Proof.
  intros Hw. induction w as [|c w IH]; intros Hx t; [reflexivity|].
  apply wordless_cons in Hx. destruct Hx as [Hc Hx].
  simpl append. simpl search_from. unfold at_boundary. simpl next_is_word.
  rewrite Hc. simpl. apply IH. exact Hx.
Qed.

(** *** Literal text in a pattern *)

Lemma shift_shift (a b : nat) (o : option (string * nat)) :
  shift a (shift b o) = shift (a + b) o.
Proof.
  destruct o as [[g n]|]; simpl; [|reflexivity].
  rewrite Nat.add_assoc. reflexivity.
Qed.

Lemma shift_0 (o : option (string * nat)) : shift 0 o = o.
Proof. destruct o as [[g n]|]; reflexivity. Qed.

Lemma match_here_lit (k : string) (r : regex) :
  forall wb s,
    match_here (lit k ++ r)%list wb s
    = match strip_prefix k s with
      | Some rest =>
          shift (String.length k) (match_here r (wb_after wb k) rest)
      | None => None
      end.
Proof.
  induction k as [|c k IH]; intros wb s.
  - simpl. rewrite shift_0. reflexivity.
  - simpl lit. simpl app. rewrite match_here_Chr.
    destruct s as [|d s]; [reflexivity|]. simpl strip_prefix.
    destruct (Ascii.eqb_spec c d) as [->|]; [|reflexivity].
    rewrite IH. destruct (strip_prefix k s); [|reflexivity].
    rewrite shift_shift. reflexivity.
Qed.

Lemma strip_prefix_spec (k s rest : string) :
  strip_prefix k s = Some rest <-> s = k ++ rest.
Proof.
  revert s. induction k as [|c k IH]; intros s; simpl.
  - split; [intros [= ->]; reflexivity | intros ->; reflexivity].
  - destruct s as [|d s]; [split; discriminate|].
    destruct (Ascii.eqb_spec c d) as [->|Hne].
    + rewrite IH. split; [intros ->; reflexivity | intros [= ->]; reflexivity].
    + split; [discriminate | intros [= -> _]; contradiction].
Qed.

Lemma strip_prefix_app_tail (k t : string) :
  next_is_word t = false ->
  all_chars is_word k = true ->
  forall suf,
    strip_prefix k (suf ++ t)
    = match strip_prefix k suf with
      | Some rest => Some (rest ++ t)
      | None => None
      end.
Proof.
  intros Ht. induction k as [|c k IH]; intros Hk suf; [reflexivity|].
  simpl in Hk. apply andb_prop in Hk. destruct Hk as [Hc Hk].
  destruct suf as [|d suf].
  - simpl. destruct t as [|d t]; [reflexivity|].
    destruct (Ascii.eqb_spec c d) as [->|]; [|reflexivity].
    simpl in Ht. congruence.
  - simpl. destruct (Ascii.eqb c d); [apply IH; exact Hk | reflexivity].
Qed.

Lemma prefix_strip_prefix (k s : string) :
  String.prefix k s = true <-> exists rest, strip_prefix k s = Some rest.
Proof.
  revert s. induction k as [|c k IH]; intros s.
  - split; [intros _; simpl; eauto | intros _; destruct s; reflexivity].
  - destruct s as [|d s]; simpl;
      [split; [discriminate | intros [? [=]]]|].
    destruct (ascii_dec c d) as [->|Hne].
    + rewrite Ascii.eqb_refl. destruct (ascii_dec d d); [|contradiction].
      apply IH.
    + destruct (Ascii.eqb_spec c d); [contradiction|].
      split; [discriminate | intros [? [=]]].
Qed.

(** *** Inert tails, built up along a pattern *)

Lemma inert_head (t : string) (r : regex) :
  inert t r -> forall wb, match_here r wb t = match_here r wb "".
Proof.
  destruct r; [reflexivity | intros [H _]; exact H].
Qed.

Lemma inert_Bnd (t : string) (r : regex) :
  next_is_word t = false -> inert t r -> inert t (Bnd :: r).
Proof.
  intros Ht Hr. split; [|exact Hr].
  intros wb. rewrite !match_here_Bnd. unfold at_boundary. rewrite Ht.
  simpl next_is_word. rewrite (inert_head _ _ Hr). reflexivity.
Qed.

Lemma inert_lit (t k : string) (r : regex) :
  next_is_word t = false ->
  all_chars is_word k = true ->
  inert t r -> inert t (lit k ++ r)%list.
Proof.
  intros Ht Hk Hr. induction k as [|c k IH]; [exact Hr|].
  simpl in Hk. apply andb_prop in Hk. destruct Hk as [Hc Hk].
  split; [|apply IH; exact Hk].
  intros wb. simpl lit. simpl app. rewrite !match_here_Chr.
  destruct t as [|d t]; [reflexivity|].
  destruct (Ascii.eqb_spec c d) as [->|]; [|reflexivity].
  simpl in Ht. congruence.
Qed.

(** *** Patterns of the form [\bKEYWORD\s+...] *)

Lemma rep_space_stable (cap : bool) (r : regex) (t : string) :
  inert t r ->
  forall rest wb,
    rest <> "" ->
    last_sat is_space rest = false ->
    match_here (Rep1 cap Space :: r) wb (rest ++ t)
    = match_here (Rep1 cap Space :: r) wb rest.
Proof.
  intros Hr. induction rest as [|c rest IH]; intros wb Hne Hlast;
    [contradiction|].
  simpl append. rewrite !match_here_Rep1_cons.
  destruct (in_class Space c) eqn:Hc; [|reflexivity].
  destruct rest as [|d rest].
  - simpl in Hlast, Hc. congruence.
  - rewrite (IH wb) by (discriminate || exact Hlast).
    rewrite (match_here_app_inert _ _ Hr). reflexivity.
Qed.

Lemma next_is_word_lit (k s : string) :
  k <> "" -> all_chars is_word k = true -> next_is_word (k ++ s) = true.
Proof.
  destruct k as [|c k]; [contradiction|]. simpl. intros _ H.
  apply andb_prop in H. tauto.
Qed.

Lemma keyword_space_stable (k : string) (cap : bool) (r : regex)
      (t : string) :
  k <> "" -> all_chars is_word k = true ->
  next_is_word t = false -> inert t r ->
  forall suf wb,
    suf <> "" ->
    last_sat is_space suf = false ->
    (suf = k -> wb = true) ->
    match_here (Bnd :: lit k ++ Rep1 cap Space :: r)%list wb (suf ++ t)
    = match_here (Bnd :: lit k ++ Rep1 cap Space :: r)%list wb suf.
Proof.
  intros Hk Hkw Ht Hr suf wb Hne Hlast Hdang.
  rewrite !match_here_Bnd.
  assert (Hb : at_boundary wb (suf ++ t) = at_boundary wb suf)
    by (destruct suf; [contradiction | reflexivity]).
  rewrite Hb. destruct (at_boundary wb suf) eqn:Hbd; [|reflexivity].
  rewrite !match_here_lit, (strip_prefix_app_tail _ _ Ht Hkw).
  destruct (strip_prefix k suf) as [rest|] eqn:E; [|reflexivity].
  apply strip_prefix_spec in E. subst suf.
  destruct rest as [|c rest].
  - rewrite append_empty_r in Hdang, Hbd. rewrite (Hdang eq_refl) in Hbd.
    unfold at_boundary in Hbd.
    rewrite <- (append_empty_r k), (next_is_word_lit _ _ Hk Hkw) in Hbd.
    discriminate.
  - rewrite rep_space_stable; [reflexivity | exact Hr | discriminate |].
    rewrite last_sat_app in Hlast by discriminate. exact Hlast.
Qed.

Lemma ends_with_word_from_cons (wb : bool) (k : string) (c : ascii)
      (s : string) :
  ends_with_word_from wb k (String c s)
  = (negb wb && String.eqb (String c s) k)
    || ends_with_word_from (is_word c) k s.
Proof. reflexivity. Qed.

Lemma keyword_space_stable_all (k : string) (cap : bool) (r : regex)
      (t : string) :
  k <> "" -> all_chars is_word k = true ->
  next_is_word t = false -> inert t r ->
  forall u wb,
    last_sat is_space u = false ->
    ends_with_word_from wb k u = false ->
    stable_all (Bnd :: lit k ++ Rep1 cap Space :: r)%list t wb u.
Proof.
  intros Hk Hkw Ht Hr. induction u as [|c u IH]; intros wb Hlast Hend;
    [exact I|].
  rewrite ends_with_word_from_cons in Hend.
  apply orb_false_elim in Hend. destruct Hend as [He1 He2].
  split.
  - apply keyword_space_stable; auto; [discriminate|].
    intros E. rewrite <- E, String.eqb_refl, andb_true_r in He1.
    apply negb_false_iff in He1. exact He1.
  - destruct u as [|d u]; [exact I|].
    apply IH; [exact Hlast | exact He2].
Qed.

Lemma keyword_space_stable_or_dead (k : string) (cap : bool) (r : regex)
      (t : string) :
  k <> "" -> all_chars is_word k = true ->
  next_is_word t = false -> inert t r ->
  (forall c k', k = String c k' ->
     match_here (Bnd :: lit k ++ Rep1 cap Space :: r)%list false k = None
     /\ findall_from (Bnd :: lit k ++ Rep1 cap Space :: r)%list
          (is_word c) O k' = []) ->
  forall u wb,
    last_sat is_space u = false ->
    stable_or_dead (Bnd :: lit k ++ Rep1 cap Space :: r)%list t wb u.
Proof.
  intros Hk Hkw Ht Hr Hdead. induction u as [|c u IH]; intros wb Hlast;
    [exact I|].
  split.
  - destruct (String.eqb_spec (String c u) k) as [E|E].
    + destruct wb.
      * left. apply keyword_space_stable; auto; discriminate.
      * right. rewrite E. apply (Hdead c u). symmetry; exact E.
    + left. apply keyword_space_stable; auto; try discriminate.
  - destruct u as [|d u]; [exact I|].
    apply IH. exact Hlast.
Qed.

(* ------------------------------------------------------------------ *)
(** ** What [search] finds *)

Lemma search_from_Some (r : regex) :
  forall s wb g,
    search_from r wb s = Some g ->
    exists pre post n,
      s = pre ++ post /\ match_here r (wb_after wb pre) post = Some (g, n).
Proof.
  induction s as [|c s IH]; intros wb g; simpl.
  - destruct (match_here r wb "") as [[g' n]|] eqn:E; [|discriminate].
    intros [= <-]. exists "", "", n. auto.
  - destruct (match_here r wb (String c s)) as [[g' n]|] eqn:E.
    + intros [= <-]. exists "", (String c s), n. auto.
    + intros H. destruct (IH _ _ H) as (pre & post & n & -> & Hm).
      exists (String c pre), post, n. auto.
Qed.

Lemma search_from_found (r : regex) :
  forall pre post wb g n,
    match_here r (wb_after wb pre) post = Some (g, n) ->
    exists g', search_from r wb (pre ++ post) = Some g'.
Proof.
  induction pre as [|c pre IH]; intros post wb g n Hm.
  - simpl in *. destruct post; simpl; rewrite Hm; eauto.
  - simpl append. simpl search_from.
    destruct (match_here r wb (String c (pre ++ post))) as [[g' n']|];
      [eauto|].
    eapply IH. exact Hm.
Qed.

Lemma wb_after_word (k : string) (wb : bool) :
  k <> "" -> all_chars is_word k = true -> wb_after wb k = true.
Proof.
  revert wb. induction k as [|c k IH]; intros wb Hne Hk; [contradiction|].
  simpl in Hk. apply andb_prop in Hk. destruct Hk as [Hc Hk].
  destruct k as [|d k]; [exact Hc|].
  change (wb_after (is_word c) (String d k) = true).
  apply IH; [discriminate | exact Hk].
Qed.

Lemma wb_after_false_last (pre : string) :
  wb_after false pre = last_sat is_word pre.
Proof.
  destruct pre as [|c pre]; [reflexivity|].
  apply wb_after_last. discriminate.
Qed.

(** A keyword pattern matches at a position exactly when the keyword is
    there, with no word character before or after it. *)
Lemma match_keyword_spec (k : string) (wb : bool) (s : string) :
  k <> "" -> all_chars is_word k = true ->
  (exists g n, match_here (keyword_pattern k) wb s = Some (g, n))
  <-> wb = false
      /\ exists rest, s = k ++ rest /\ next_is_word rest = false.
Proof.
  intros Hne Hk. unfold keyword_pattern.
  rewrite match_here_Bnd, match_here_lit.
  split.
  - intros (g & n & H).
    destruct (at_boundary wb s) eqn:Hb; [|discriminate].
    destruct (strip_prefix k s) as [rest|] eqn:E; [|discriminate].
    apply strip_prefix_spec in E. subst s.
    unfold at_boundary in Hb.
    rewrite (next_is_word_lit _ _ Hne Hk) in Hb.
    rewrite match_here_Bnd, (wb_after_word k wb Hne Hk) in H.
    unfold at_boundary in H.
    destruct (next_is_word rest) eqn:Hr; [discriminate|].
    destruct wb; [discriminate|]. eauto.
  - intros (-> & rest & -> & Hr).
    unfold at_boundary. rewrite (next_is_word_lit _ _ Hne Hk). simpl xorb.
    assert (E : strip_prefix k (k ++ rest) = Some rest)
      by (apply strip_prefix_spec; reflexivity).
    rewrite E, match_here_Bnd, (wb_after_word k false Hne Hk).
    unfold at_boundary. rewrite Hr. simpl. eauto.
Qed.

Lemma found_keyword_spec (k s : string) :
  k <> "" -> all_chars is_word k = true ->
  found (keyword_pattern k) s = true
  <-> exists pre rest,
        s = pre ++ k ++ rest
        /\ last_sat is_word pre = false /\ next_is_word rest = false.
Proof.
  intros Hne Hk. unfold found, search. split.
  - destruct (search_from (keyword_pattern k) false s) as [g|] eqn:E;
      [|discriminate].
    intros _. destruct (search_from_Some _ _ _ _ E)
      as (pre & post & n & -> & Hm).
    destruct (proj1 (match_keyword_spec k (wb_after false pre) post Hne Hk))
      as (Hwb & rest & -> & Hr); [eauto|].
    exists pre, rest. rewrite <- wb_after_false_last. auto.
  - intros (pre & rest & -> & Hp & Hr).
    destruct (proj2 (match_keyword_spec k (wb_after false pre) (k ++ rest)
                       Hne Hk)) as (g & n & Hm).
    { rewrite wb_after_false_last. eauto. }
    destruct (search_from_found _ _ _ _ _ _ Hm) as [g' ->]. reflexivity.
Qed.

Lemma all_space_wordless (w : string) :
  all_chars is_space w = true -> wordless w = true.
Proof.
  apply all_chars_impl. intros c Hc. unfold not_word.
  rewrite (space_not_word _ Hc). reflexivity.
Qed.

Lemma strip_decomp (s : string) :
  exists w x,
    s = w ++ strip s ++ x
    /\ all_chars is_space w = true /\ all_chars is_space x = true.
Proof.
  destruct (lstrip_decomp is_space s) as (w & Hs & Hw).
  destruct (rstrip_decomp is_space (lstrip_by is_space s)) as (x & Hl & Hx).
  exists w, x. unfold strip. rewrite <- Hl. auto.
Qed.

(** Stripping the text does not change what a boundary-anchored pattern
    finds. *)
Lemma search_strip (r : regex) (s : string) :
  good (Bnd :: r) = true -> existsb wordy r = true ->
  search (Bnd :: r) (strip s) = search (Bnd :: r) s.
Proof.
  intros Hg Hw. destruct (strip_decomp s) as (w & x & Hs & Hw' & Hx).
  unfold search. rewrite Hs at 2.
  rewrite (search_from_skip_wordless _ _ Hw (all_space_wordless _ Hw')).
  rewrite search_from_app_wordless;
    auto using all_space_wordless.
Qed.

Lemma next_is_word_upper (s : string) :
  next_is_word (upper s) = next_is_word s.
Proof.
  destruct s as [|c s]; [reflexivity | apply upper_char_word].
Qed.

(** The keyword scan on the stripped, upper-cased text finds a keyword
    exactly when it occurs in the query as a whole word in any case. *)
Lemma found_keyword_occurs (k sql : string) :
  keyword_ok k = true ->
  found (keyword_pattern k) (strip (upper sql)) = true
  <-> occurs_as_word k sql.
Proof.
  unfold keyword_ok. intros Hok.
  apply andb_prop in Hok; destruct Hok as [Hok Hu].
  apply andb_prop in Hok; destruct Hok as [Hok Hn].
  apply andb_prop in Hok; destruct Hok as [Hok Hk].
  apply andb_prop in Hok; destruct Hok as [Hg Hw].
  assert (Hne : k <> "").
  { intros ->. discriminate. }
  assert (Hup : upper k = k) by (apply String.eqb_eq; assumption).
  unfold found. unfold keyword_pattern at 1.
  rewrite search_strip by assumption.
  change (found (keyword_pattern k) (upper sql) = true
          <-> occurs_as_word k sql).
  rewrite found_keyword_spec by assumption.
  unfold occurs_as_word. rewrite Hup. split.
  - intros (pre' & rest' & Hs & Hp & Hr).
    destruct (map_str_split _ _ _ _ Hs) as (pre & tl & -> & <- & Htl).
    destruct (map_str_split _ _ _ _ Htl) as (mid & post & -> & Hm & <-).
    exists pre, mid, post. repeat split; auto.
    + rewrite <- Hp. symmetry.
      apply (last_sat_map _ _ _ upper_char_word).
    + rewrite <- Hr. symmetry. apply next_is_word_upper.
  - intros (pre & mid & post & -> & Hm & Hp & Hr).
    exists (upper pre), (upper post).
    rewrite !upper_app, Hm. repeat split.
    + rewrite <- Hp. apply (last_sat_map _ _ _ upper_char_word).
    + rewrite <- Hr. apply next_is_word_upper.
Qed.

Lemma forbidden_keywords_ok (k : string) :
  In k forbidden_keywords -> keyword_ok k = true.
Proof.
  assert (H : forallb keyword_ok forbidden_keywords = true)
    by (vm_compute; reflexivity).
  rewrite forallb_forall in H. apply H.
Qed.

Lemma find_first {A : Type} (f : A -> bool) (l : list A) (x : A) :
  find f l = Some x ->
  exists l1 l2,
    l = (l1 ++ x :: l2)%list /\ f x = true
    /\ forall y, In y l1 -> f y = false.
Proof.
  induction l as [|a l IH]; [discriminate|]. simpl.
  destruct (f a) eqn:Ha.
  - intros [= ->]. exists [], l. repeat split; auto. intros y [].
  - intros H. destruct (IH H) as (l1 & l2 & -> & Hx & Hl1).
    exists (a :: l1), l2. repeat split; auto.
    intros y [<-|Hy]; auto.
Qed.

(* ------------------------------------------------------------------ *)
(** ** The validator, check by check *)

Lemma validation_stages (st : Context) (sql : string) :
  deepseek_sql st = Some sql ->
  sql_validation_node st
  = if String.eqb sql "" || String.eqb (strip sql) "" then
      Ok (set_sql_error (Some msg_empty) (cleared st))
    else if negb (startswith "SELECT" (strip (upper sql))
                  || startswith "WITH" (strip (upper sql))) then
      Ok (set_sql_error (Some msg_form) (cleared st))
    else keyword_stage (cleared st) sql (strip (upper sql)).
Proof.
  intros H. unfold sql_validation_node. rewrite H. reflexivity.
Qed.

Lemma validation_passes_form (st : Context) (sql : string) :
  deepseek_sql st = Some sql ->
  passes_form_checks sql = true ->
  sql_validation_node st = keyword_stage (cleared st) sql (strip (upper sql)).
Proof.
  intros H Hp. rewrite (validation_stages _ _ H).
  unfold passes_form_checks in Hp. apply andb_prop in Hp.
  destruct Hp as [H1 H2]. apply negb_true_iff in H1.
  rewrite H1, H2. reflexivity.
Qed.

Lemma limit_stage_error (state : Context) (sql su : string) (st' : Context) :
  sql_error state = None ->
  limit_stage state sql su = Ok st' ->
  sql_error st' = None
  \/ exists n, sql_error st' = Some (msg_limit n).
Proof.
  intros He. unfold limit_stage.
  destruct (found limit_pattern su);
    (destruct (search limit_value_pattern su) as [digits|];
     [destruct (int digits) as [limit_value|e]; [|discriminate];
      destruct (1000 <? limit_value)|]);
    intros [= <-]; simpl; eauto.
Qed.

Lemma table_stage_error (state : Context) (sql su : string) (st' : Context) :
  sql_error state = None ->
  table_stage state sql su = Ok st' ->
  sql_error st' = None
  \/ (exists n, sql_error st' = Some (msg_limit n))
  \/ (exists t, sql_error st' = Some (msg_table t)).
Proof.
  intros He. unfold table_stage.
  destruct (find _ _) as [t|].
  - intros [= <-]. simpl. eauto.
  - intros H. destruct (limit_stage_error _ _ _ _ He H); auto.
Qed.

Lemma int_cases (digits : string) :
  ((String.length digits <= max_str_digits)%nat
   /\ int digits = Ok (int_value digits))
  \/ ((max_str_digits < String.length digits)%nat
      /\ int digits = Raise (int_too_long (String.length digits))).
Proof.
  unfold int.
  destruct (max_str_digits <? String.length digits)%nat eqn:E.
  - right. apply Nat.ltb_lt in E. auto.
  - left. apply Nat.ltb_ge in E. auto.
Qed.

(** From its table step on the validator returns, unless [int] raises on
    the digits after LIMIT. *)
Lemma table_stage_returns (state : Context) (sql su : string) :
  (exists st', table_stage state sql su = Ok st')
  \/ exists digits,
       search limit_value_pattern su = Some digits
       /\ (max_str_digits < String.length digits)%nat
       /\ table_stage state sql su
          = Raise (int_too_long (String.length digits)).
Proof.
  unfold table_stage, limit_stage.
  destruct (find _ _); [eauto|].
  destruct (search limit_value_pattern su) as [digits|]; [|eauto].
  destruct (int_cases digits) as [[_ ->]|[Hlong ->]].
  - destruct (1000 <? int_value digits); eauto.
  - right. exists digits. auto.
Qed.

(** C6, as the code has it.  For a query of ASCII text that passes the
    first two checks (not blank, starting with SELECT or WITH), the
    validator rejects with a forbidden-keyword error exactly when some
    keyword of the list occurs in the query as a whole word in any letter
    case; the error names the first keyword of the list that occurs, and
    no validated query is set. *)
Theorem forbidden_keyword_policy (st : Context) (sql : string) :
  deepseek_sql st = Some sql ->
  is_ascii sql = true ->
  passes_form_checks sql = true ->
  ((exists kw, In kw forbidden_keywords /\ occurs_as_word kw sql)
   <-> (exists st' kw,
          sql_validation_node st = Ok st'
          /\ In kw forbidden_keywords
          /\ sql_error st' = Some (msg_forbidden kw)))
  /\ (forall st' kw,
         sql_validation_node st = Ok st' ->
         sql_error st' = Some (msg_forbidden kw) ->
         validated_sql st' = None
         /\ occurs_as_word kw sql
         /\ exists l1 l2,
             forbidden_keywords = (l1 ++ kw :: l2)%list
             /\ forall k, In k l1 -> ~ occurs_as_word k sql).
Proof.
  intros Hsql _ Hform. rewrite (validation_passes_form _ _ Hsql Hform).
  unfold keyword_stage.
  destruct (find _ forbidden_keywords) as [k|] eqn:Hfind.
  - destruct (find_first _ _ _ Hfind) as (l1 & l2 & Hl & Hk & Hl1).
    assert (Hin : In k forbidden_keywords)
      by (rewrite Hl; apply in_or_app; right; left; reflexivity).
    assert (Hocc : occurs_as_word k sql)
      by (apply found_keyword_occurs;
          [apply forbidden_keywords_ok; exact Hin | exact Hk]).
    split.
    + split.
      * intros _. eexists; exists k.
        split; [reflexivity|]. split; [exact Hin | reflexivity].
      * intros _. exists k. auto.
    + intros st' kw [= <-]. simpl. intros [= E]. subst kw.
      split; [reflexivity|]. split; [exact Hocc|].
      exists l1, l2. split; [exact Hl|].
      intros k' Hk' Ho.
      assert (Hin' : In k' forbidden_keywords)
        by (rewrite Hl; apply in_or_app; left; exact Hk').
      apply (found_keyword_occurs _ _ (forbidden_keywords_ok _ Hin')) in Ho.
      rewrite (Hl1 _ Hk') in Ho. discriminate.
  - assert (Hnot : forall st' kw,
               table_stage (cleared st) sql (strip (upper sql)) = Ok st' ->
               sql_error st' <> Some (msg_forbidden kw)).
    { intros st' kw Hst' E.
      destruct (table_stage_error (cleared st) _ _ _ eq_refl Hst')
        as [H|[[n H]|[t H]]]; rewrite H in E; discriminate. }
    split.
    + split.
      * intros (kw & Hin & Hocc).
        apply (found_keyword_occurs _ _ (forbidden_keywords_ok _ Hin))
          in Hocc.
        rewrite (find_none _ _ Hfind _ Hin) in Hocc. discriminate.
      * intros (st' & kw & Hst' & _ & E). destruct (Hnot _ _ Hst' E).
    + intros st' kw Hst' E. destruct (Hnot _ _ Hst' E).
Qed.

(* ------------------------------------------------------------------ *)
(** ** The LIMIT step *)

(** Whether a pattern matches does not depend on its groups. *)
Lemma match_here_uncap (r : regex) :
  forall wb s,
    option_map snd (match_here (map uncap r) wb s)
    = option_map snd (match_here r wb s).
Proof.
  induction r as [|a r IH]; intros wb s; [reflexivity|].
  destruct a as [|c|cap cls]; simpl map.
  - rewrite !match_here_Bnd. destruct (at_boundary wb s); [apply IH|].
    reflexivity.
  - rewrite !match_here_Chr. destruct s as [|d s]; [reflexivity|].
    destruct (Ascii.eqb c d); [|reflexivity].
    specialize (IH (is_word d) s).
    destruct (match_here (map uncap r) (is_word d) s) as [[g n]|],
             (match_here r (is_word d) s) as [[g' n']|];
      simpl in *; congruence.
  - induction s as [|c s IHs]; [reflexivity|].
    rewrite !match_here_Rep1_cons.
    destruct (in_class cls c); [|reflexivity].
    specialize (IH (is_word c) s).
    destruct (match_here (Rep1 false cls :: map uncap r) wb s) as [[g n]|],
             (match_here (Rep1 cap cls :: r) wb s) as [[g' n']|];
      simpl in IHs; simpl; try congruence.
    destruct (match_here (map uncap r) (is_word c) s) as [[g1 n1]|],
             (match_here r (is_word c) s) as [[g2 n2]|];
      simpl in *; congruence.
Qed.

Lemma search_from_uncap (r : regex) :
  forall s wb,
    search_from (map uncap r) wb s = None <-> search_from r wb s = None.
Proof.
  induction s as [|c s IH]; intros wb; simpl;
    pose proof (match_here_uncap r wb) as H.
  - specialize (H "").
    destruct (match_here (map uncap r) wb "") as [[g n]|],
             (match_here r wb "") as [[g' n']|];
      simpl in H; try discriminate; split; auto; discriminate.
  - specialize (H (String c s)).
    destruct (match_here (map uncap r) wb (String c s)) as [[g n]|],
             (match_here r wb (String c s)) as [[g' n']|];
      simpl in H; try discriminate; [split; discriminate|].
    apply IH.
Qed.

(** [has_limit] and [limit_match] agree on whether there is a LIMIT. *)
Lemma has_limit_iff (s : string) :
  found limit_pattern s = false <-> search limit_value_pattern s = None.
Proof.
  unfold found, search.
  change limit_pattern with (map uncap limit_value_pattern).
  rewrite <- search_from_uncap.
  destruct (search_from (map uncap limit_value_pattern) false s);
    split; auto; discriminate.
Qed.

Lemma validation_reaches_limit (st : Context) (sql : string) :
  deepseek_sql st = Some sql ->
  reaches_limit_step sql = true ->
  sql_validation_node st
  = limit_stage (cleared st) sql (strip (upper sql)).
Proof.
  intros H Hr. unfold reaches_limit_step in Hr.
  apply andb_prop in Hr. destruct Hr as [Hr Ht].
  apply andb_prop in Hr. destruct Hr as [Hf Hk].
  rewrite (validation_passes_form _ _ H Hf).
  unfold keyword_stage, table_stage.
  unfold passes_keyword_check in Hk. unfold passes_table_check in Ht.
  destruct (find _ forbidden_keywords); [discriminate|].
  destruct (find _ _); [discriminate|]. reflexivity.
Qed.

(** *** The stripped text and the core of the query *)

Lemma last_sat_all (p q : ascii -> bool) (x : string) :
  (forall c, p c = true -> q c = false) ->
  all_chars p x = true -> last_sat q x = false.
Proof.
  intros Hpq. induction x as [|c x IH]; [reflexivity|]. simpl.
  intros H. apply andb_prop in H. destruct H as [Hc Hx].
  destruct x; [apply Hpq; exact Hc | apply IH; exact Hx].
Qed.

Lemma semicolon_not_space (c : ascii) :
  is_semicolon c = true -> is_space c = false.
Proof. destruct c as [[] [] [] [] [] [] [] []]; simpl; auto; discriminate. Qed.

Lemma strip_semicolon_decomp (s : string) :
  exists x,
    strip s = strip (rstrip_by is_semicolon s) ++ x
    /\ all_chars space_or_semicolon x = true.
Proof.
  unfold strip. rewrite lstrip_rstrip_comm.
  set (t := lstrip_by is_space s).
  destruct (rstrip_decomp is_semicolon t) as (x1 & Ht & Hx1).
  set (a := rstrip_by is_semicolon t) in *.
  destruct (rstrip_decomp is_space a) as (x2 & Ha & Hx2).
  destruct x1 as [|c x1].
  - exists "". rewrite append_empty_r in Ht. rewrite Ht.
    rewrite append_empty_r. auto.
  - exists (x2 ++ String c x1). split.
    + rewrite rstrip_fixed.
      * rewrite <- append_assoc, <- Ha. exact Ht.
      * rewrite Ht, last_sat_app by discriminate.
        apply (last_sat_all is_semicolon); [|exact Hx1].
        apply semicolon_not_space.
    + rewrite all_chars_app. apply andb_true_intro. split.
      * revert Hx2. apply all_chars_impl. unfold space_or_semicolon.
        intros c' ->. reflexivity.
      * revert Hx1. apply all_chars_impl. unfold space_or_semicolon.
        intros c' ->. apply orb_true_r.
Qed.

Lemma upper_query_core (sql : string) :
  upper (query_core sql) = strip (rstrip_by is_semicolon (upper sql)).
Proof.
  unfold query_core. rewrite <- strip_upper. unfold upper.
  rewrite (rstrip_map _ _ _ upper_char_semicolon). reflexivity.
Qed.

(** The stripped, upper-cased query is the upper-cased core followed by
    blanks and semicolons. *)
Lemma sql_upper_decomp (sql : string) :
  exists x,
    strip (upper sql) = upper (query_core sql) ++ x
    /\ wordless x = true.
Proof.
  destruct (strip_semicolon_decomp (upper sql)) as (x & Hs & Hx).
  exists x. rewrite upper_query_core. split; [exact Hs|].
  revert Hx. apply all_chars_impl. unfold space_or_semicolon, not_word.
  intros c H. apply orb_prop in H. destruct H as [H|H].
  - rewrite (space_not_word _ H). reflexivity.
  - rewrite (semicolon_not_word _ H). reflexivity.
Qed.

Lemma wordless_next (x : string) :
  wordless x = true -> next_is_word x = false.
Proof.
  destruct x as [|c x]; [reflexivity|]. intros H.
  apply wordless_cons in H. simpl. tauto.
Qed.

Lemma prefix_drop_wordless (k u x : string) :
  all_chars is_word k = true -> wordless x = true ->
  String.prefix k (u ++ x) = true -> String.prefix k u = true.
Proof.
  intros Hk Hx H. apply prefix_strip_prefix in H. destruct H as [rest H].
  rewrite (strip_prefix_app_tail _ _ (wordless_next _ Hx) Hk) in H.
  apply prefix_strip_prefix.
  destruct (strip_prefix k u); [eauto | discriminate].
Qed.

Lemma prefix_app (k u t : string) :
  String.prefix k u = true -> String.prefix k (u ++ t) = true.
Proof.
  intros H. apply prefix_strip_prefix in H. destruct H as [rest H].
  apply strip_prefix_spec in H. subst u.
  apply prefix_strip_prefix. exists (rest ++ t).
  apply strip_prefix_spec. apply append_assoc.
Qed.

(* ------------------------------------------------------------------ *)
(** ** Validating a query that already carries the appended LIMIT *)

Lemma find_none_intro {A : Type} (f : A -> bool) (l : list A) :
  (forall x, In x l -> f x = false) -> find f l = None.
Proof.
  induction l as [|a l IH]; intros H; [reflexivity|]. simpl.
  rewrite (H a (or_introl eq_refl)). apply IH.
  intros x Hx. apply H. right. exact Hx.
Qed.

Lemma found_false_iff (r : regex) (s : string) :
  found r s = false <-> search r s = None.
Proof.
  unfold found. destruct (search r s); split; auto; discriminate.
Qed.

Lemma inert_suffix_keyword (k : string) :
  all_chars is_word k = true -> inert limit_suffix (keyword_pattern k).
Proof.
  intros Hk. unfold keyword_pattern.
  apply inert_Bnd; [reflexivity|].
  apply inert_lit; [reflexivity | exact Hk |].
  apply inert_Bnd; [reflexivity | exact I].
Qed.

Lemma inert_suffix_limit (cap : bool) :
  inert limit_suffix
        (Bnd :: lit "LIMIT" ++ [Rep1 false Space; Rep1 cap Digit])%list.
Proof.
  apply inert_Bnd; [reflexivity|].
  apply inert_lit; [reflexivity | reflexivity |].
  split; [intros wb; reflexivity|].
  split; [intros wb; reflexivity | exact I].
Qed.

Lemma inert_suffix_word_bnd :
  inert limit_suffix [Rep1 true Word; Bnd].
Proof.
  split; [intros wb; reflexivity|].
  split; [intros wb; reflexivity | exact I].
Qed.

Lemma inert_suffix_word : inert limit_suffix [Rep1 true Word].
Proof.
  split; [intros wb; reflexivity | exact I].
Qed.

Lemma keyword_search_suffix (k : string) (wb : bool) :
  In k forbidden_keywords ->
  search_from (keyword_pattern k) wb limit_suffix = None.
Proof.
  intros Hk. simpl in Hk.
  repeat (destruct Hk as [<-|Hk]; [destruct wb; reflexivity|]).
  contradiction.
Qed.

(** The appended LIMIT brings no forbidden keyword. *)
Lemma keyword_found_suffixed (k u : string) :
  In k forbidden_keywords ->
  found (keyword_pattern k) (u ++ limit_suffix)
  = found (keyword_pattern k) u.
Proof.
  intros Hin. pose proof (forbidden_keywords_ok _ Hin) as Hok.
  unfold keyword_ok in Hok.
  apply andb_prop in Hok; destruct Hok as [Hok Hu].
  apply andb_prop in Hok; destruct Hok as [Hok Hn].
  apply andb_prop in Hok; destruct Hok as [Hok Hk].
  apply andb_prop in Hok; destruct Hok as [Hg Hw].
  unfold found, search. rewrite search_from_app.
  - rewrite (keyword_search_suffix _ _ Hin).
    destruct (search_from (keyword_pattern k) false u); reflexivity.
  - intros wb. apply wordy_none; [exact Hw | reflexivity].
  - apply inert_stable_all, inert_suffix_keyword. exact Hk.
Qed.

(** It brings no table reference when the text does not end with the
    word FROM, respectively JOIN. *)
Lemma findall_from_suffixed (u : string) :
  last_sat is_space u = false ->
  ends_with_word "FROM" u = false ->
  findall from_pattern (u ++ limit_suffix) = findall from_pattern u.
Proof.
  intros Hl He. unfold findall. rewrite findall_from_app.
  - destruct (wb_after false u); apply app_nil_r.
  - intros []; reflexivity.
  - lia.
  - apply (keyword_space_stable_all "FROM" false [Rep1 true Word; Bnd]);
      auto using inert_suffix_word_bnd. discriminate.
Qed.

Lemma findall_join_suffixed (u : string) :
  last_sat is_space u = false ->
  ends_with_word "JOIN" u = false ->
  findall join_pattern (u ++ limit_suffix) = findall join_pattern u.
Proof.
  intros Hl He. unfold findall. rewrite findall_from_app.
  - destruct (wb_after false u); apply app_nil_r.
  - intros []; reflexivity.
  - lia.
  - apply (keyword_space_stable_all "JOIN" false [Rep1 true Word; Bnd]);
      auto using inert_suffix_word_bnd. discriminate.
Qed.

(** It can only add to the names that follow WITH. *)
Lemma findall_with_suffixed (u : string) :
  last_sat is_space u = false ->
  exists extra,
    findall with_pattern (u ++ limit_suffix)
    = (findall with_pattern u ++ extra)%list.
Proof.
  intros Hl. unfold findall. apply findall_from_app_ext.
  - intros []; reflexivity.
  - lia.
  - apply (keyword_space_stable_or_dead "WITH" false [Rep1 true Word]);
      auto using inert_suffix_word; try discriminate.
    intros c k' [= <- <-]. split; reflexivity.
Qed.

(** And it is the LIMIT the validator then finds. *)
Lemma limit_value_suffixed (u : string) :
  search limit_value_pattern u = None ->
  search limit_value_pattern (u ++ limit_suffix) = Some "1000".
Proof.
  unfold search. intros Hu. rewrite search_from_app.
  - rewrite Hu. destruct (wb_after false u); reflexivity.
  - intros []; reflexivity.
  - apply inert_stable_all. exact (inert_suffix_limit true).
Qed.

Lemma invalid_table_ref_mono (valid extra : list string) (ref : string) :
  invalid_table_ref (valid ++ extra)%list ref = true ->
  invalid_table_ref valid ref = true.
Proof.
  unfold invalid_table_ref. rewrite existsb_app.
  destruct (negb (lower ref =? "nyc_311")%string); simpl; [|auto].
  destruct (existsb (String.eqb ref) valid); simpl; auto.
Qed.

Lemma table_check_mono (valid extra refs : list string) :
  find (invalid_table_ref valid) refs = None ->
  find (invalid_table_ref (valid ++ extra)%list) refs = None.
Proof.
  intros H. apply find_none_intro. intros x Hx.
  pose proof (find_none _ _ H x Hx) as Hv.
  destruct (invalid_table_ref (valid ++ extra)%list x) eqn:E;
    [|reflexivity].
  apply invalid_table_ref_mono in E. congruence.
Qed.

Lemma first_sat_word_not_space (u : string) :
  first_sat is_word u = true -> first_sat is_space u = false.
Proof.
  destruct u as [|c u]; [discriminate|]. simpl. intros H.
  destruct (is_space c) eqn:E; [|reflexivity].
  apply space_not_word in E. congruence.
Qed.

Lemma prefix_first_word (k u : string) :
  k <> "" -> all_chars is_word k = true ->
  String.prefix k u = true ->
  u <> "" /\ first_sat is_word u = true.
Proof.
  intros Hne Hk H. apply prefix_strip_prefix in H. destruct H as [rest H].
  apply strip_prefix_spec in H. subst u.
  destruct k as [|c k]; [contradiction|].
  simpl in Hk. apply andb_prop in Hk. simpl. split; [discriminate | tauto].
Qed.

Lemma last_sat_query_core (sql : string) :
  last_sat is_space (upper (query_core sql)) = false.
Proof.
  unfold upper. rewrite (last_sat_map _ _ _ upper_char_space).
  unfold query_core, strip. apply rstrip_last.
Qed.

(** What the second pass sees of a query to which the first pass appended
    the LIMIT. *)
Lemma normalized_upper (sql : string) :
  passes_form_checks sql = true ->
  let u := upper (query_core sql) in
  strip (upper (query_core sql ++ limit_suffix)) = u ++ limit_suffix
  /\ (startswith "SELECT" (u ++ limit_suffix)
      || startswith "WITH" (u ++ limit_suffix)) = true.
Proof.
  intros Hform u.
  destruct (sql_upper_decomp sql) as (x & HSU & Hx). fold u in HSU.
  unfold passes_form_checks in Hform. apply andb_prop in Hform.
  destruct Hform as [_ Hform]. rewrite HSU in Hform. unfold startswith in *.
  assert (Hpre : String.prefix "SELECT" u = true
                 \/ String.prefix "WITH" u = true).
  { apply orb_prop in Hform. destruct Hform as [H|H]; [left|right];
      revert H; apply prefix_drop_wordless; auto. }
  assert (Hu : u <> "" /\ first_sat is_word u = true).
  { destruct Hpre as [H|H]; revert H; apply prefix_first_word;
      try discriminate; reflexivity. }
  destruct Hu as [Hne Hfirst]. split.
  - rewrite upper_app. change (upper limit_suffix) with limit_suffix.
    fold u. unfold strip. rewrite lstrip_fixed.
    + apply rstrip_fixed. rewrite last_sat_app by discriminate. reflexivity.
    + destruct u as [|c u']; [contradiction|].
      apply (first_sat_word_not_space (String c u')). exact Hfirst.
  - destruct Hpre as [H|H]; rewrite (prefix_app _ _ _ H);
      [reflexivity | apply orb_true_r].
Qed.

Lemma revalidate_normalized (st : Context) (sql : string) :
  reaches_limit_step sql = true ->
  found limit_pattern (strip (upper sql)) = false ->
  dangling_table_keyword sql = false ->
  deepseek_sql st = Some (query_core sql ++ limit_suffix) ->
  sql_validation_node st
  = Ok (set_validated_sql (Some (query_core sql ++ limit_suffix))
          (cleared st)).
Proof.
  intros Hr Hnolimit Hdang Hq.
  unfold reaches_limit_step in Hr.
  apply andb_prop in Hr. destruct Hr as [Hr Ht].
  apply andb_prop in Hr. destruct Hr as [Hform Hk].
  destruct (normalized_upper sql Hform) as [Hup Hstart].
  destruct (sql_upper_decomp sql) as (x & HSU & Hx).
  set (u := upper (query_core sql)) in *.
  pose proof (last_sat_query_core sql) as Hlast. fold u in Hlast.
  unfold dangling_table_keyword in Hdang. fold u in Hdang.
  apply orb_false_elim in Hdang. destruct Hdang as [Hfrom Hjoin].
  rewrite (validation_stages _ _ Hq).
  (* not blank *)
  assert (Hne : (query_core sql ++ limit_suffix =? "")%string
                || (strip (query_core sql ++ limit_suffix) =? "")%string
                = false).
  { apply orb_false_intro.
    - apply eqb_empty_false, append_nonempty_r. discriminate.
    - apply eqb_empty_false. intros E.
      rewrite strip_upper, E in Hup. simpl in Hup.
      symmetry in Hup. apply append_eq_empty in Hup.
      destruct Hup; discriminate. }
  rewrite Hne, Hup, Hstart. simpl negb. cbv iota.
  (* no forbidden keyword *)
  unfold keyword_stage.
  unfold passes_keyword_check in Hk.
  destruct (find _ forbidden_keywords) eqn:Hfind in Hk; [discriminate|].
  rewrite find_none_intro.
  2:{ intros k Hin. rewrite (keyword_found_suffixed _ _ Hin).
      pose proof (find_none _ _ Hfind k Hin) as Hf. simpl in Hf.
      rewrite HSU in Hf. unfold found, search in *.
      pose proof (forbidden_keywords_ok _ Hin) as Hok.
      unfold keyword_ok in Hok.
      apply andb_prop in Hok; destruct Hok as [Hok _].
      apply andb_prop in Hok; destruct Hok as [Hok _].
      apply andb_prop in Hok; destruct Hok as [Hok _].
      apply andb_prop in Hok; destruct Hok as [Hg Hw].
      rewrite search_from_app_wordless in Hf; auto. }
  (* table references *)
  unfold table_stage.
  unfold passes_table_check in Ht. rewrite HSU in Ht.
  unfold findall in Ht.
  rewrite !findall_from_app_wordless in Ht by (auto; reflexivity).
  destruct (find _ _) eqn:Htab in Ht; [discriminate|].
  rewrite (findall_from_suffixed _ Hlast Hfrom).
  rewrite (findall_join_suffixed _ Hlast Hjoin).
  destruct (findall_with_suffixed _ Hlast) as [extra ->].
  rewrite app_assoc. unfold findall.
  rewrite (table_check_mono _ extra _ Htab).
  (* the appended LIMIT *)
  unfold limit_stage.
  assert (Hval : search limit_value_pattern u = None).
  { apply has_limit_iff in Hnolimit. rewrite HSU in Hnolimit.
    unfold search in *.
    rewrite search_from_app_wordless in Hnolimit; auto. }
  rewrite (limit_value_suffixed _ Hval).
  assert (Hhas : found limit_pattern (u ++ limit_suffix) = true).
  { destruct (found limit_pattern (u ++ limit_suffix)) eqn:E;
      [reflexivity|].
    apply has_limit_iff in E. rewrite (limit_value_suffixed _ Hval) in E.
    discriminate. }
  rewrite Hhas. simpl. rewrite Hq. reflexivity.
Qed.

(* ------------------------------------------------------------------ *)
(** ** What the LIMIT patterns match *)

Lemma rep1_None_first (cap : bool) (cls : cclass) (wb : bool) (s : string) :
  match_here [Rep1 cap cls] wb s = None ->
  first_sat (in_class cls) s = false.
Proof.
  destruct s as [|c s]; [reflexivity|].
  rewrite match_here_Rep1_cons. simpl first_sat.
  destruct (in_class cls c); [|reflexivity].
  destruct (match_here [Rep1 cap cls] wb s) as [[g n]|]; discriminate.
Qed.

Lemma rep1_last_spec (cap : bool) (cls : cclass) :
  forall s wb g n,
    match_here [Rep1 cap cls] wb s = Some (g, n) ->
    exists run post,
      s = run ++ post /\ run <> ""
      /\ all_chars (in_class cls) run = true
      /\ first_sat (in_class cls) post = false
      /\ g = (if cap then run else "").
Proof.
  induction s as [|c s IH]; intros wb g n; [discriminate|].
  rewrite match_here_Rep1_cons.
  destruct (in_class cls c) eqn:Hc; [|discriminate].
  destruct (match_here [Rep1 cap cls] wb s) as [[g' n']|] eqn:E.
  - intros [= <- <-].
    destruct (IH _ _ _ E) as (run & post & -> & Hne & Hall & Hpost & ->).
    exists (String c run), post. simpl. rewrite Hc, Hall.
    repeat split; auto; [discriminate | destruct cap; reflexivity].
  - simpl. intros [= <- <-].
    exists (String c ""), s. simpl. rewrite Hc.
    repeat split; auto; [discriminate|].
    eapply rep1_None_first; exact E.
Qed.

Lemma rep1_space_spec (r : regex) :
  forall s wb g n,
    match_here (Rep1 false Space :: r) wb s = Some (g, n) ->
    exists ws rest n',
      s = ws ++ rest /\ ws <> "" /\ all_chars is_space ws = true
      /\ match_here r (wb_after wb ws) rest = Some (g, n').
Proof.
  induction s as [|c s IH]; intros wb g n; [discriminate|].
  rewrite match_here_Rep1_cons.
  destruct (in_class Space c) eqn:Hc; [|discriminate].
  destruct (match_here (Rep1 false Space :: r) wb s) as [[g' n']|] eqn:E.
  - intros [= <- <-].
    destruct (IH _ _ _ E) as (ws & rest & n0 & -> & Hne & Hall & Hm).
    exists (String c ws), rest, n0. simpl in Hc. simpl. rewrite Hc, Hall.
    repeat split; auto; [discriminate|].
    rewrite (wb_after_last _ _ Hne) in Hm.
    rewrite (wb_after_last _ _ Hne). exact Hm.
  - destruct (match_here r (is_word c) s) as [[g' n']|] eqn:E';
      [|discriminate].
    intros [= <- <-].
    exists (String c ""), s, n'. simpl in Hc. simpl. rewrite Hc.
    repeat split; auto. discriminate.
Qed.

Lemma rep1_digit_intro (cap : bool) (wb : bool) (d : ascii) (post : string) :
  is_digit d = true ->
  exists g n, match_here [Rep1 cap Digit] wb (String d post) = Some (g, n).
Proof.
  intros Hd. rewrite match_here_Rep1_cons. simpl in_class. rewrite Hd.
  destruct (match_here [Rep1 cap Digit] wb post) as [[g n]|]; simpl; eauto.
Qed.

Lemma rep1_space_intro (r : regex) :
  (forall wb wb' s, match_here r wb s = match_here r wb' s) ->
  forall ws rest wb g n,
    ws <> "" -> all_chars is_space ws = true ->
    match_here r wb rest = Some (g, n) ->
    exists g' n',
      match_here (Rep1 false Space :: r) wb (ws ++ rest) = Some (g', n').
Proof.
  intros Hind. induction ws as [|c ws IH]; intros rest wb g n Hne Hall Hm;
    [contradiction|].
  simpl in Hall. apply andb_prop in Hall. destruct Hall as [Hc Hall].
  simpl append. rewrite match_here_Rep1_cons. simpl in_class. rewrite Hc.
  destruct (match_here (Rep1 false Space :: r) wb (ws ++ rest))
    as [[g' n']|] eqn:E; [eauto|].
  destruct ws as [|c' ws].
  - simpl append. rewrite (Hind _ wb), Hm. eauto.
  - destruct (IH rest wb g n) as (g' & n' & E'); auto; [discriminate|].
    simpl append in E, E'. congruence.
Qed.

Lemma limit_tail_wb (cap : bool) (wb wb' : bool) (s : string) :
  match_here [Rep1 cap Digit] wb s = match_here [Rep1 cap Digit] wb' s.
Proof. reflexivity. Qed.

(** The LIMIT pattern matches at a position exactly when the word LIMIT,
    blanks and a digit are there. *)
Lemma match_limit_spec (cap : bool) (wb : bool) (s : string) :
  (exists g n,
      match_here (Bnd :: lit "LIMIT" ++ [Rep1 false Space; Rep1 cap Digit])
                 wb s = Some (g, n))
  <-> wb = false
      /\ exists ws d post,
          s = "LIMIT" ++ ws ++ String d post
          /\ ws <> "" /\ all_chars is_space ws = true /\ is_digit d = true.
Proof.
  rewrite match_here_Bnd, match_here_lit. split.
  - intros (g & n & H).
    destruct (at_boundary wb s) eqn:Hb; [|discriminate].
    destruct (strip_prefix "LIMIT" s) as [rest|] eqn:E; [|discriminate].
    apply strip_prefix_spec in E. subst s.
    destruct wb; [discriminate|]. split; [reflexivity|].
    destruct (match_here [Rep1 false Space; Rep1 cap Digit] _ rest)
      as [[g' n']|] eqn:Hm; [|discriminate].
    destruct (rep1_space_spec _ _ _ _ _ Hm)
      as (ws & rest' & n0 & -> & Hne & Hall & Hd).
    destruct (rep1_last_spec _ _ _ _ _ _ Hd)
      as (run & post & -> & Hrne & Hrall & _ & _).
    destruct run as [|d run]; [contradiction|].
    simpl in Hrall. apply andb_prop in Hrall.
    exists ws, d, (run ++ post). repeat split; tauto.
  - intros (-> & ws & d & post & -> & Hne & Hall & Hd).
    change (at_boundary false ("LIMIT" ++ ws ++ String d post)) with true.
    cbv iota.
    assert (E : strip_prefix "LIMIT" ("LIMIT" ++ ws ++ String d post)
                = Some (ws ++ String d post))
      by (apply strip_prefix_spec; reflexivity).
    rewrite E.
    destruct (rep1_digit_intro cap (wb_after false "LIMIT") d post Hd)
      as (g & n & Hm).
    destruct (rep1_space_intro [Rep1 cap Digit] (limit_tail_wb cap)
                ws (String d post) (wb_after false "LIMIT") g n Hne Hall Hm)
      as (g' & n' & Hm').
    rewrite Hm'. simpl. eauto.
Qed.

Lemma upper_char_digit (c : ascii) : is_digit (upper_char c) = is_digit c.
Proof. destruct c as [[] [] [] [] [] [] [] []]; reflexivity. Qed.

Lemma map_str_nonempty (f : ascii -> ascii) (s : string) :
  map_str f s <> "" <-> s <> "".
Proof.
  destruct s; simpl; split; intros H; try discriminate; contradiction.
Qed.

Lemma first_sat_map (p : ascii -> bool) (f : ascii -> ascii) (s : string) :
  (forall c, p (f c) = p c) ->
  first_sat p (map_str f s) = first_sat p s.
Proof.
  intros H. destruct s; simpl; auto.
Qed.

(** [has_limit] is true exactly when the query has a LIMIT clause. *)
Lemma has_limit_spec (sql : string) :
  found limit_pattern (strip (upper sql)) = true <-> has_limit_clause sql.
Proof.
  unfold found. unfold limit_pattern at 1.
  rewrite search_strip by reflexivity.
  change (match search limit_pattern (upper sql) with
          | Some _ => true
          | None => false
          end = true <-> has_limit_clause sql).
  unfold search. split.
  - destruct (search_from limit_pattern false (upper sql)) as [g|] eqn:E;
      [|discriminate].
    intros _.
    destruct (search_from_Some _ _ _ _ E) as (pre' & p & n & Hs & Hm).
    destruct (proj1 (match_limit_spec false (wb_after false pre') p))
      as (Hwb & ws' & d' & post' & -> & Hne & Hall & Hd); [eauto|].
    destruct (map_str_split _ _ _ _ Hs) as (pre & t1 & -> & <- & H1).
    destruct (map_str_split _ _ _ _ H1) as (kw & t2 & -> & Hkw & H2).
    destruct (map_str_split _ _ _ _ H2) as (ws & t3 & -> & <- & H3).
    destruct t3 as [|d post]; [discriminate|].
    simpl in H3. injection H3 as <- _.
    exists pre, kw, ws, d, post.
    rewrite upper_char_digit in Hd.
    rewrite (all_chars_map _ _ _ upper_char_space) in Hall.
    rewrite wb_after_false_last in Hwb.
    unfold upper in Hwb.
    rewrite (last_sat_map _ _ _ upper_char_word) in Hwb.
    apply map_str_nonempty in Hne.
    repeat split; auto.
  - intros (pre & kw & ws & d & post & -> & Hkw & Hp & Hne & Hall & Hd).
    destruct (proj2 (match_limit_spec false
                       (wb_after false (upper pre))
                       ("LIMIT" ++ upper ws
                          ++ String (upper_char d) (upper post))))
      as (g & n & Hm).
    { rewrite wb_after_false_last. unfold upper.
      rewrite (last_sat_map _ _ _ upper_char_word).
      split; [exact Hp|].
      exists (map_str upper_char ws), (upper_char d),
             (map_str upper_char post).
      rewrite upper_char_digit, (all_chars_map _ _ _ upper_char_space).
      repeat split; auto. apply map_str_nonempty. exact Hne. }
    rewrite !upper_app, Hkw.
    change (upper (String d post))
      with (String (upper_char d) (upper post)).
    unfold limit_pattern.
    destruct (search_from_found _ _ _ _ _ _ Hm) as [g' ->]. reflexivity.
Qed.

Lemma upper_char_digit_fixed (c : ascii) :
  is_digit c = true -> upper_char c = c.
Proof. destruct c as [[] [] [] [] [] [] [] []]; simpl; auto; discriminate. Qed.

Lemma upper_digits_fixed (ds : string) :
  all_chars is_digit ds = true -> map_str upper_char ds = ds.
Proof.
  induction ds as [|c ds IH]; [reflexivity|]. simpl. intros H.
  apply andb_prop in H. destruct H as [Hc Hds].
  rewrite (upper_char_digit_fixed _ Hc), (IH Hds). reflexivity.
Qed.

(** The digits [limit_match] captures are the number of a LIMIT clause of
    the query. *)
Lemma limit_value_spec (sql digits : string) :
  search limit_value_pattern (strip (upper sql)) = Some digits ->
  limit_clause_number sql digits.
Proof.
  unfold limit_value_pattern.
  rewrite search_strip by reflexivity.
  unfold search. intros E.
  destruct (search_from_Some _ _ _ _ E) as (pre' & p & n & Hs & Hm).
  rewrite match_here_Bnd, match_here_lit in Hm.
  destruct (at_boundary (wb_after false pre') p) eqn:Hb; [|discriminate].
  destruct (strip_prefix "LIMIT" p) as [rest|] eqn:Ep; [|discriminate].
  apply strip_prefix_spec in Ep. subst p.
  destruct (wb_after false pre') eqn:Hwb; [discriminate|].
  destruct (match_here [Rep1 false Space; Rep1 true Digit] _ rest)
    as [[g' n']|] eqn:Hm'; [|discriminate].
  simpl in Hm. injection Hm as -> _.
  destruct (rep1_space_spec _ _ _ _ _ Hm')
    as (ws' & rest' & n0 & -> & Hne & Hall & Hd).
  destruct (rep1_last_spec _ _ _ _ _ _ Hd)
    as (run & post' & -> & Hrne & Hrall & Hpost & ->).
  destruct (map_str_split _ _ _ _ Hs) as (pre & t1 & -> & <- & H1).
  destruct (map_str_split _ _ _ _ H1) as (kw & t2 & -> & Hkw & H2).
  destruct (map_str_split _ _ _ _ H2) as (ws & t3 & -> & <- & H3).
  destruct (map_str_split _ _ _ _ H3) as (ds & post & -> & <- & <-).
  exists pre, kw, ws, post.
  rewrite wb_after_false_last in Hwb. unfold upper in Hwb.
  rewrite (last_sat_map _ _ _ upper_char_word) in Hwb.
  rewrite (all_chars_map _ _ _ upper_char_space) in Hall.
  apply map_str_nonempty in Hne. apply map_str_nonempty in Hrne.
  simpl in_class in Hrall, Hpost.
  rewrite (all_chars_map _ _ _ upper_char_digit) in Hrall.
  rewrite (first_sat_map _ _ _ upper_char_digit) in Hpost.
  rewrite (upper_digits_fixed _ Hrall).
  repeat split; auto.
Qed.


(* ------------------------------------------------------------------ *)
(** ** The validator on particular queries *)

Lemma forbidden_keyword_policy_witness :
  ((exists kw, In kw forbidden_keywords
               /\ occurs_as_word kw "SELECT 1; drop table t")
   <-> (exists st' kw,
           sql_validation_node
             (set_deepseek_sql (Some "SELECT 1; drop table t") sample_context)
           = Ok st'
           /\ In kw forbidden_keywords
           /\ sql_error st' = Some (msg_forbidden kw)))
  /\ (forall st' kw,
         sql_validation_node
           (set_deepseek_sql (Some "SELECT 1; drop table t") sample_context)
         = Ok st' ->
         sql_error st' = Some (msg_forbidden kw) ->
         validated_sql st' = None
         /\ occurs_as_word kw "SELECT 1; drop table t"
         /\ exists l1 l2,
             forbidden_keywords = (l1 ++ kw :: l2)%list
             /\ forall k, In k l1
                          -> ~ occurs_as_word k "SELECT 1; drop table t").
Proof.
  apply (forbidden_keyword_policy
           (set_deepseek_sql (Some "SELECT 1; drop table t") sample_context)
           "SELECT 1; drop table t").
  - reflexivity.
  - vm_compute. reflexivity.
  - vm_compute. reflexivity.
Defined.

(** The keyword check on the examples of the specification: a forbidden
    statement after a SELECT is rejected for its keyword, in any letter
    case; [dropdown] is not. *)
Lemma forbidden_keyword_examples :
  validation_of "SELECT 1; DROP TABLE t"
  = (Some "Forbidden keyword found: DROP", None)
  /\ validation_of "select 1; drop table t"
     = (Some "Forbidden keyword found: DROP", None)
  /\ validation_of "SELECT dropdown FROM nyc_311"
     = (None, Some "SELECT dropdown FROM nyc_311 LIMIT 1000").
Proof.
  split; [|split]; vm_compute; reflexivity.
Qed.

(** C6 as stated fails: DROP occurs in [DROP TABLE t] as a whole word, and
    the validator rejects the statement, but with the error of the
    statement-form check. *)
Lemma drop_statement_rejected_for_its_form :
  In "DROP" forbidden_keywords
  /\ occurs_as_word "DROP" "DROP TABLE t"
  /\ validation_of "DROP TABLE t"
     = (Some "SQL must start with SELECT or WITH", None)
  /\ Some "SQL must start with SELECT or WITH"
     <> Some (msg_forbidden "DROP").
Proof.
  split; [simpl; tauto|]. split.
  - exists "", "DROP", " TABLE t". repeat split.
  - split; [vm_compute; reflexivity | discriminate].
Qed.

(** The LIMIT step on the examples of the specification.  Semicolons are
    removed where they end the text, before the blanks are: a semicolon
    followed by a blank stays. *)
Lemma limit_examples :
  validation_of grouped_query
  = (None,
     Some "SELECT complaint_type, COUNT(*) FROM nyc_311 GROUP BY complaint_type LIMIT 1000")
  /\ validation_of
       "SELECT complaint_type, COUNT(*) FROM nyc_311 GROUP BY complaint_type LIMIT 1000"
     = (None,
        Some "SELECT complaint_type, COUNT(*) FROM nyc_311 GROUP BY complaint_type LIMIT 1000")
  /\ validation_of "SELECT * FROM nyc_311 LIMIT 5000"
     = (Some "LIMIT value 5000 exceeds maximum of 1000", None)
  /\ validation_of "SELECT borough FROM nyc_311 ;;"
     = (None, Some "SELECT borough FROM nyc_311 LIMIT 1000")
  /\ validation_of "SELECT borough FROM nyc_311; "
     = (None, Some "SELECT borough FROM nyc_311; LIMIT 1000").
Proof.
  split; [|split; [|split; [|split]]]; vm_compute; reflexivity.
Qed.

(** C7 fails on the code.  The validator compares with 1000 only the
    leftmost LIMIT clause of the text.  A query whose inner LIMIT is within
    the bound and whose outer LIMIT is 5000 is accepted unchanged, with no
    error, although it has a LIMIT clause above 1000. *)
Theorem outer_limit_is_not_checked (st : Context) :
  limit_clause_number nested_limit_query "5000"
  /\ 1000 < int_value "5000"
  /\ search limit_value_pattern (strip (upper nested_limit_query)) = Some "5"
  /\ sql_validation_node (set_deepseek_sql (Some nested_limit_query) st)
     = Ok (set_validated_sql (Some nested_limit_query)
             (cleared (set_deepseek_sql (Some nested_limit_query) st))).
Proof.
  split.
  { exists "SELECT * FROM (SELECT * FROM nyc_311 LIMIT 5) ", "LIMIT", " ", "".
    repeat split; discriminate. }
  split; [reflexivity|].
  split; [vm_compute; reflexivity|].
  rewrite (validation_stages _ nested_limit_query) by reflexivity.
  vm_compute. reflexivity.
Qed.

(** Two more cases the LIMIT step misses.  A query that ends with the word
    FROM is accepted with the LIMIT appended, and validating the result
    again rejects it; a semicolon followed by a blank is kept before the
    appended LIMIT. *)
Lemma limit_step_misses :
  validation_of "SELECT 1 FROM" = (None, Some "SELECT 1 FROM LIMIT 1000")
  /\ validation_of "SELECT 1 FROM LIMIT 1000"
     = (Some "Invalid table reference: LIMIT. Only 'nyc_311' and CTEs are allowed.",
        None)
  /\ validation_of "SELECT borough FROM nyc_311; "
     = (None, Some "SELECT borough FROM nyc_311; LIMIT 1000").
Proof.
  split; [|split]; vm_compute; reflexivity.
Qed.

(** C8 fails on the code: a query with two CTEs whose last SELECT reads the
    second one is rejected, because only the name that directly follows
    WITH is taken as a CTE name. *)
Theorem second_cte_reference_rejected (st : Context) :
  findall with_pattern (strip (upper two_cte_query)) = ["A"]
  /\ (findall from_pattern (strip (upper two_cte_query))
        ++ findall join_pattern (strip (upper two_cte_query)))%list
     = ["NYC_311"; "A"; "B"]
  /\ sql_validation_node (set_deepseek_sql (Some two_cte_query) st)
     = Ok (set_sql_error
             (Some "Invalid table reference: B. Only 'nyc_311' and CTEs are allowed.")
             (cleared (set_deepseek_sql (Some two_cte_query) st))).
Proof.
  split; [vm_compute; reflexivity|].
  split; [vm_compute; reflexivity|].
  rewrite (validation_stages _ two_cte_query) by reflexivity.
  vm_compute. reflexivity.
Qed.

(* ------------------------------------------------------------------ *)
(** ** How a run of the graph ends *)

Lemma walk_raise (backend : Backend) (limit : nat) (n : Node)
      (st : Context) (e : exn) (cs : list Call) :
  n <> END ->
  run_node backend n st = (Raise e, cs) ->
  outcome (walk backend (S limit) n st) = Raise e.
Proof.
  intros Hn Hrun. rewrite walk_S by exact Hn. rewrite Hrun. reflexivity.
Qed.

(** A validation pass returns, unless [int] raises on the digits after
    LIMIT. *)
Lemma validation_returns (st : Context) (sql : string) :
  deepseek_sql st = Some sql ->
  (exists st', sql_validation_node st = Ok st')
  \/ exists digits,
       search limit_value_pattern (strip (upper sql)) = Some digits
       /\ (max_str_digits < String.length digits)%nat
       /\ sql_validation_node st
          = Raise (int_too_long (String.length digits)).
Proof.
  intros E. rewrite (validation_stages _ _ E).
  destruct (_ || _); [eauto|]. destruct (negb _); [eauto|].
  unfold keyword_stage.
  destruct (find (fun keyword => _) forbidden_keywords); [eauto|].
  apply table_stage_returns.
Qed.

(** The exceptions a node raises in a run: the one of reading a missing
    candidate query, in the validator and in the repair node, and the one
    of [int] on too many digits after LIMIT, in the validator.  No call is
    made by a node that raises. *)
Lemma run_node_raise (backend : Backend) (n : Node) (st : Context)
      (e : exn) (cs : list Call) :
  Inv backend n st ->
  run_node backend n st = (Raise e, cs) ->
  cs = []
  /\ ((e = TypeError_None_subscript /\ deepseek_sql st = None
       /\ (n = validate_sql \/ n = repair_sql))
      \/ (n = validate_sql
          /\ exists sql digits,
               deepseek_sql st = Some sql
               /\ search limit_value_pattern (strip (upper sql))
                  = Some digits
               /\ (max_str_digits < String.length digits)%nat
               /\ e = int_too_long (String.length digits))).
Proof.
  intros (_ & Hs & _) Hrun. destruct n; simpl in Hrun.
  - unfold input_node in Hrun.
    destruct (schema st); [discriminate | contradiction].
  - unfold sql_generation_node in Hrun.
    destruct (call_deepseek_json backend ForGeneration st); discriminate.
  - injection Hrun as Hrun <-. split; [reflexivity|].
    destruct (deepseek_sql st) as [sql|] eqn:E.
    + destruct (validation_returns _ _ E)
        as [[st' Hok]|(digits & Hd & Hlong & Hr)]; [congruence|].
      right. split; [reflexivity|]. exists sql, digits.
      split; [reflexivity|]. split; [exact Hd|]. split; [exact Hlong|].
      congruence.
    + unfold sql_validation_node in Hrun. rewrite E in Hrun.
      injection Hrun as <-. left. auto.
  - unfold sql_repair_node in Hrun.
    destruct (deepseek_sql st) as [sql|].
    + destruct (MAX_REPAIR_ATTEMPTS <=? _); [discriminate|].
      destruct (call_deepseek_json backend ForRepair _); discriminate.
    + injection Hrun as <- <-. split; [reflexivity|]. left. auto.
  - unfold sql_execution_node in Hrun.
    destruct (validated_sql st) as [v|]; [|discriminate].
    destruct (String.eqb v ""); [discriminate|].
    destruct (run_query backend v) as [[? ?]|]; discriminate.
  - unfold answer_generation_node in Hrun.
    destruct (truthy (sql_error st)); [discriminate|].
    destruct (call_deepseek_json backend ForAnswer st); discriminate.
  - discriminate.
  - discriminate.
Qed.

Lemma run_node_raise_stops (backend : Backend) (n : Node) (st : Context)
      (e : exn) (cs : list Call) :
  Inv backend n st ->
  run_node backend n st = (Raise e, cs) ->
  stops_a_run e.
Proof.
  intros HI Hrun.
  destruct (run_node_raise _ _ _ _ _ HI Hrun)
    as (_ & [(-> & _)|(_ & sql & digits & _ & _ & Hlong & ->)]).
  - left. reflexivity.
  - right. exists (String.length digits). auto.
Qed.

Lemma steps_decrease (backend : Backend) :
  forall n st st' cs m,
    n <> END ->
    Inv backend n st ->
    run_node backend n st = (Ok st', cs) ->
    next_node n st' = Ok m ->
    (steps_left m st' < steps_left n st)%nat.
Proof.
  intros n st st' cs m HnE HI Hrun Hnext.
  assert (Hkeep : n <> repair_sql ->
                  get (repair_count st') 0 = get (repair_count st) 0)
    by (intros Hn; eapply other_nodes_keep_repair_count; eauto).
  destruct HI as ((k & Hk & Hk2) & _ & _ & Hn).
  unfold MAX_REPAIR_ATTEMPTS in *.
  destruct n; simpl in Hnext; try contradiction.
  - injection Hnext as <-. unfold steps_left.
    rewrite Hkeep by discriminate. lia.
  - injection Hnext as <-. unfold steps_left.
    rewrite Hkeep by discriminate. lia.
  - unfold should_repair in Hnext.
    destruct (truthy (validated_sql st'));
      [|destruct (truthy (sql_error st') && _);
        [|destruct (truthy (sql_error st') && _)]];
      injection Hnext as <-; unfold steps_left;
      rewrite ?Hkeep by discriminate; lia.
  - injection Hnext as <-.
    destruct Hn as (_ & _ & Hlt & _).
    destruct (repair_consumes_attempt _ _ _ _ Hrun Hlt) as [Hrc _].
    unfold steps_left, MAX_REPAIR_ATTEMPTS in *. rewrite Hrc. simpl get.
    lia.
  - injection Hnext as <-. unfold steps_left. lia.
  - injection Hnext as <-. unfold steps_left. lia.
  - injection Hnext as <-. unfold steps_left. lia.
Qed.

Lemma outcome_step_then (n : Node) (st' : Context) (cs : list Call)
      (r : Run) :
  outcome (step_then n st' cs r) = outcome r.
Proof. reflexivity. Qed.

(** A run from a state of the invariant ends within [steps_left] steps:
    at the end of the graph, or by one of the two exceptions a node
    raises; the step limit is not reached. *)
Lemma walk_ends (backend : Backend) :
  forall limit n st,
    Inv backend n st ->
    (steps_left n st <= limit)%nat ->
    (exists final, outcome (walk backend limit n st) = Ok final)
    \/ exists e,
         stops_a_run e /\ outcome (walk backend limit n st) = Raise e.
Proof.
  induction limit as [|limit IH]; intros n st HI Hsteps;
    destruct (Node_END_dec n) as [->|Hn];
    try (rewrite walk_END; simpl; eauto; fail).
  - exfalso. destruct n; simpl in Hsteps; try lia. contradiction.
  - destruct (run_node backend n st) as [[st'|e] cs] eqn:Hrun.
    + destruct (next_node_total n st') as [m Hm].
      rewrite (walk_step _ _ _ _ _ _ _ Hn Hrun Hm), outcome_step_then.
      apply IH; [eapply Inv_step; eauto|].
      pose proof (steps_decrease _ _ _ _ _ _ Hn HI Hrun Hm). lia.
    + right. rewrite (walk_raise _ _ _ _ _ _ Hn Hrun).
      exists e. split; [|reflexivity].
      exact (run_node_raise_stops _ _ _ _ _ HI Hrun).
Qed.


(** The graph run ends at the end of the graph or with one of the two
    exceptions a node raises: the step limit plays no part. *)
Lemma ainvoke_ends (backend : Backend) (q : string) (s : Schema) :
  (exists final, outcome (ainvoke backend (initial_context q s)) = Ok final)
  \/ exists e,
       stops_a_run e
       /\ outcome (ainvoke backend (initial_context q s)) = Raise e.
Proof.
  rewrite ainvoke_eq. apply walk_ends; [apply Inv_initial|].
  unfold recursion_limit. simpl. lia.
Qed.


(** X12. When the generation call fails, the candidate query is missing,
    the validation node raises on its log line, and [run_agent] answers
    with the text of that exception: the response does not carry the
    failure of the generation call. *)
Lemma generation_failure_aborts_graph
      (backend : Backend) (q : string) (s : Schema) (e : exn) :
  get_schema backend = Ok s ->
  call_deepseek_json backend ForGeneration (initial_context q s) = Raise e ->
  outcome (ainvoke backend (initial_context q s))
  = Raise TypeError_None_subscript
  /\ fst (run_agent backend q)
     = Ok {| answer_text :=
               Some "Agent execution failed: 'NoneType' object is not subscriptable";
             sql := None;
             res_columns := [];
             res_rows := [];
             error := Some "'NoneType' object is not subscriptable" |}.
Proof.
  intros Hs Hc.
  assert (Hout : outcome (ainvoke backend (initial_context q s))
                 = Raise TypeError_None_subscript).
  { rewrite ainvoke_eq. unfold recursion_limit.
    erewrite walk_step; [ | discriminate | reflexivity | reflexivity ].
    erewrite walk_step;
      [ | discriminate
        | simpl; unfold sql_generation_node; rewrite Hc; reflexivity
        | reflexivity ].
    rewrite !outcome_step_then.
    erewrite walk_raise; [reflexivity | discriminate | reflexivity]. }
  split; [exact Hout|].
  unfold run_agent. rewrite Hs, Hout. reflexivity.
Qed.

(** No state of a run holds an empty error message: an error is set exactly
    when it is true as a Python value. *)
Lemma error_never_empty (backend : Backend) (q : string) (s : Schema)
      (n : Node) (st : Context) :
  In (n, st) (trace (ainvoke backend (initial_context q s))) ->
  sql_error st <> Some "".
Proof.
  intros Hin.
  destruct (trace_Inv _ _ _ _ _ Hin) as (_ & _ & m & _ & _ & _ & HI).
  destruct HI as (_ & _ & Hne & _). exact Hne.
Qed.

(* ------------------------------------------------------------------ *)
(** ** What the validator leaves behind *)

Lemma limit_stage_forms (state : Context) (sql su : string) (st' : Context) :
  sql_error state = None ->
  validated_sql state = None ->
  deepseek_sql state = Some sql ->
  limit_stage state sql su = Ok st' ->
  (validated_sql st' = None /\ deepseek_sql st' = Some sql
   /\ exists n, 1000 < n /\ sql_error st' = Some (msg_limit n))
  \/ (sql_error st' = None
      /\ validated_sql st' = deepseek_sql st'
      /\ ((found limit_pattern su = true /\ deepseek_sql st' = Some sql
           /\ exists digits,
                search limit_value_pattern su = Some digits
                /\ (String.length digits <= max_str_digits)%nat
                /\ int_value digits <= 1000)
          \/ (found limit_pattern su = false
              /\ deepseek_sql st' = Some (query_core sql ++ limit_suffix)))).
Proof.
  intros He Hv Hq. unfold limit_stage.
  destruct (found limit_pattern su) eqn:Hl.
  - destruct (search limit_value_pattern su) as [digits|] eqn:Hs.
    + destruct (int_cases digits) as [[Hlen ->]|[_ ->]]; [|discriminate].
      destruct (1000 <? int_value digits) eqn:Hn; intros [= <-]; simpl.
      * left. split; [exact Hv|]. split; [exact Hq|].
        exists (int_value digits).
        split; [apply Z.ltb_lt; exact Hn | reflexivity].
      * right. split; [exact He|]. split; [reflexivity|]. left.
        split; [reflexivity|]. split; [exact Hq|].
        exists digits. split; [reflexivity|]. split; [exact Hlen|].
        apply Z.ltb_ge. exact Hn.
    + apply has_limit_iff in Hs. congruence.
  - pose proof (proj1 (has_limit_iff su) Hl) as Hs. rewrite Hs.
    intros [= <-]; simpl. right. split; [exact He|].
    split; [reflexivity|]. right. split; reflexivity.
Qed.

(** One validation pass either rejects the candidate, leaving it as it
    was, or accepts it, as it was or with the LIMIT appended. *)
Lemma validation_cases (st st' : Context) (sql : string) :
  deepseek_sql st = Some sql ->
  sql_validation_node st = Ok st' ->
  (validated_sql st' = None /\ deepseek_sql st' = Some sql
   /\ exists msg, sql_error st' = Some msg /\ validation_error msg)
  \/ (reaches_limit_step sql = true
      /\ sql_error st' = None
      /\ validated_sql st' = deepseek_sql st'
      /\ ((found limit_pattern (strip (upper sql)) = true
           /\ deepseek_sql st' = Some sql
           /\ exists digits,
                search limit_value_pattern (strip (upper sql)) = Some digits
                /\ (String.length digits <= max_str_digits)%nat
                /\ int_value digits <= 1000)
          \/ (found limit_pattern (strip (upper sql)) = false
              /\ deepseek_sql st' = Some (query_core sql ++ limit_suffix)))).
Proof.
  intros Hq. rewrite (validation_stages _ _ Hq).
  destruct (_ || _) eqn:Hblank.
  { intros [= <-]. left. simpl. split; [reflexivity|]. split; [exact Hq|].
    exists msg_empty. split; [reflexivity|]. left. reflexivity. }
  destruct (negb _) eqn:Hform.
  { intros [= <-]. left. simpl. split; [reflexivity|]. split; [exact Hq|].
    exists msg_form. split; [reflexivity|]. right; left. reflexivity. }
  unfold keyword_stage.
  destruct (find (fun keyword => _) forbidden_keywords) as [k|] eqn:Hk.
  { intros [= <-]. left. simpl. split; [reflexivity|]. split; [exact Hq|].
    exists (msg_forbidden k). split; [reflexivity|]. right; right; left.
    exists k. split; [|reflexivity]. apply find_some in Hk. tauto. }
  unfold table_stage.
  destruct (find (invalid_table_ref _) _) as [t|] eqn:Ht.
  { intros [= <-]. left. simpl. split; [reflexivity|]. split; [exact Hq|].
    exists (msg_table t). split; [reflexivity|].
    right; right; right; left. exists t. reflexivity. }
  intros Hl.
  apply limit_stage_forms with (sql := sql) in Hl;
    [ | reflexivity | reflexivity | exact Hq ].
  destruct Hl as [(Hv & Hc & n & Hn & He)|Hacc].
  - left. split; [exact Hv|]. split; [exact Hc|].
    exists (msg_limit n). split; [exact He|].
    right; right; right; right. exists n. split; [exact Hn | reflexivity].
  - right. split; [|exact Hacc].
    unfold reaches_limit_step, passes_form_checks, passes_keyword_check,
      passes_table_check.
    apply negb_false_iff in Hform.
    rewrite Hblank, Hform, Hk, Ht. reflexivity.
Qed.

Lemma keyword_absent (k sql : string) :
  In k forbidden_keywords ->
  found (keyword_pattern k) (strip (upper sql)) = false ->
  ~ occurs_as_word k sql.
Proof.
  intros Hin Hf Hocc.
  apply (found_keyword_occurs k sql (forbidden_keywords_ok _ Hin)) in Hocc.
  congruence.
Qed.

(** What an accepted query satisfies, from the checks it went through. *)
Lemma accepted_checked (q : string) : accepted q -> checked_query q.
Proof.
  intros (st & st' & Hval & Hq).
  destruct (deepseek_sql st) as [sql|] eqn:Esql.
  2:{ unfold sql_validation_node in Hval. rewrite Esql in Hval.
      discriminate. }
  destruct (validation_cases _ _ _ Esql Hval)
    as [(Hv & _)|(Hr & _ & Hvq & Hcase)]; [congruence|].
  rewrite Hq in Hvq. symmetry in Hvq.
  unfold reaches_limit_step in Hr.
  apply andb_prop in Hr. destruct Hr as [Hr Ht].
  apply andb_prop in Hr. destruct Hr as [Hform Hk].
  unfold passes_keyword_check in Hk.
  destruct (find _ forbidden_keywords) eqn:Hfind in Hk; [discriminate|].
  destruct Hcase as [(Hl & Hc & digits & Hs & Hlen & Hle)|(Hl & Hc)];
    rewrite Hc in Hvq; injection Hvq as <-.
  - (* the query as it was *)
    split; [|split].
    + unfold passes_form_checks in Hform.
      apply andb_prop in Hform. tauto.
    + intros k Hin. apply keyword_absent; [exact Hin|].
      exact (find_none _ _ Hfind k Hin).
    + exists digits, (int_value digits). split; [exact Hs|].
      split; [|exact Hle].
      destruct (int_cases digits) as [[_ Hi]|[Hlong _]]; [exact Hi | lia].
  - (* the query with the LIMIT appended *)
    destruct (normalized_upper sql Hform) as [Hup Hstart].
    destruct (sql_upper_decomp sql) as (x & HSU & Hx).
    set (u := upper (query_core sql)) in *.
    split; [|split].
    + rewrite Hup. exact Hstart.
    + intros k Hin. apply keyword_absent; [exact Hin|].
      rewrite Hup, (keyword_found_suffixed _ _ Hin).
      pose proof (find_none _ _ Hfind k Hin) as Hf. simpl in Hf.
      rewrite HSU in Hf. unfold found, search in *.
      pose proof (forbidden_keywords_ok _ Hin) as Hok.
      unfold keyword_ok in Hok.
      apply andb_prop in Hok; destruct Hok as [Hok _].
      apply andb_prop in Hok; destruct Hok as [Hok _].
      apply andb_prop in Hok; destruct Hok as [Hok _].
      apply andb_prop in Hok; destruct Hok as [Hg Hw].
      rewrite search_from_app_wordless in Hf; auto.
    + assert (Hval' : search limit_value_pattern u = None).
      { apply has_limit_iff in Hl. rewrite HSU in Hl.
        unfold search in *.
        rewrite search_from_app_wordless in Hl; auto. }
      exists "1000", 1000. split; [|split].
      * rewrite Hup. apply limit_value_suffixed. exact Hval'.
      * reflexivity.
      * lia.
Qed.

(* ------------------------------------------------------------------ *)
(** ** The calls and the states of a run *)

Lemma calls_step_then (n : Node) (st' : Context) (cs : list Call) (r : Run) :
  calls (step_then n st' cs r) = (cs ++ calls r)%list.
Proof. reflexivity. Qed.

Lemma trace_step_then (n : Node) (st' : Context) (cs : list Call) (r : Run) :
  trace (step_then n st' cs r) = (n, st') :: trace r.
Proof. reflexivity. Qed.

Section WalkHistory.

Variable backend : Backend.

(** [P h n st]: [h] are the calls made so far, [n] the node about to run
    and [st] the state it receives. *)
Variable P : list Call -> Node -> Context -> Prop.

Hypothesis P_step :
  forall h n st st' cs m,
    n <> END ->
    P h n st ->
    run_node backend n st = (Ok st', cs) ->
    next_node n st' = Ok m ->
    P (h ++ cs)%list m st'.

Lemma walk_history :
  forall limit n st h final,
    P h n st ->
    outcome (walk backend limit n st) = Ok final ->
    P (h ++ calls (walk backend limit n st))%list END final.
Proof.
  induction limit as [|limit IH]; intros n st h final HP;
    destruct (Node_END_dec n) as [->|Hn].
  - rewrite walk_END; simpl. intros [= <-]. rewrite app_nil_r. exact HP.
  - rewrite walk_O by exact Hn. discriminate.
  - rewrite walk_END; simpl. intros [= <-]. rewrite app_nil_r. exact HP.
  - destruct (run_node backend n st) as [[st'|e] cs] eqn:Hrun.
    + destruct (next_node_total n st') as [m Hm].
      rewrite (walk_step _ _ _ _ _ _ _ Hn Hrun Hm).
      rewrite outcome_step_then, calls_step_then, app_assoc.
      apply IH. eapply P_step; eauto.
    + rewrite walk_S by exact Hn. rewrite Hrun. discriminate.
Qed.

(** A run stopped by a node's exception: the calls are those made before
    that node and its own. *)
Lemma walk_history_raise :
  forall limit n st h e,
    P h n st ->
    outcome (walk backend limit n st) = Raise e ->
    e = GraphRecursionError
    \/ exists h' m st0 cs,
         P h' m st0 /\ run_node backend m st0 = (Raise e, cs)
         /\ (h ++ calls (walk backend limit n st) = h' ++ cs)%list.
Proof.
  induction limit as [|limit IH]; intros n st h e HP;
    destruct (Node_END_dec n) as [->|Hn].
  - rewrite walk_END; discriminate.
  - rewrite walk_O by exact Hn. simpl. intros [= <-]. left. reflexivity.
  - rewrite walk_END; discriminate.
  - destruct (run_node backend n st) as [[st'|e'] cs] eqn:Hrun.
    + destruct (next_node_total n st') as [m Hm].
      rewrite (walk_step _ _ _ _ _ _ _ Hn Hrun Hm).
      rewrite outcome_step_then, calls_step_then, app_assoc.
      apply IH. eapply P_step; eauto.
    + rewrite walk_S by exact Hn. rewrite Hrun. simpl. intros [= <-].
      right. exists h, n, st, cs. auto.
Qed.

End WalkHistory.

Lemma repeat_snoc {A : Type} (x : A) (n : nat) :
  (repeat x n ++ [x])%list = repeat x (S n).
Proof.
  induction n as [|n IH]; [reflexivity|]. simpl. rewrite IH. reflexivity.
Qed.

Lemma kinds_cons (c : Call) (h : list Call) :
  kinds (c :: h) = kind_of c :: kinds h.
Proof. reflexivity. Qed.

Lemma kinds_app (h1 h2 : list Call) :
  kinds (h1 ++ h2) = (kinds h1 ++ kinds h2)%list.
Proof. apply map_app. Qed.

Lemma final_answer_reset (st : Context) (a : option string) :
  final_answer st = None ->
  set_final_answer None (set_final_answer a st) = st.
Proof.
  destruct st; simpl. intros ->. reflexivity.
Qed.

Lemma Hist_initial (backend : Backend) (q : string) (s : Schema) :
  Hist backend [] input (initial_context q s).
Proof.
  split; [apply Inv_initial|]. simpl. unfold no_results. auto.
Qed.

Lemma Stage_step (backend : Backend) :
  forall h n st st' cs m,
    n <> END ->
    Inv backend n st ->
    Stage backend h n st ->
    run_node backend n st = (Ok st', cs) ->
    next_node n st' = Ok m ->
    Stage backend (h ++ cs)%list m st'.
Proof.
  intros h n st st' cs m HnE HI HS Hrun Hnext.
  pose proof HI as ((k & Hk & Hk2) & Hs & Hne & Hn).
  unfold MAX_REPAIR_ATTEMPTS in Hk2.
  destruct n; simpl in Hrun, Hnext, HS; try contradiction.
  - (* input *)
    injection Hnext as <-. destruct HS as (-> & Hres & Hrc).
    unfold input_node in Hrun.
    destruct (schema st) eqn:Es; [|congruence].
    rewrite Hrc in Hrun. injection Hrun as <- <-.
    simpl. auto.
  - (* generate_sql *)
    injection Hnext as <-. destruct HS as (-> & Hres & Hrc).
    unfold sql_generation_node in Hrun.
    destruct (call_deepseek_json backend ForGeneration st);
      injection Hrun as <- <-; simpl; unfold synthesis_calls, no_results in *;
      simpl; rewrite Hrc; simpl; tauto.
  - (* validate_sql *)
    injection Hrun as Hrun <-. rewrite app_nil_r.
    destruct HS as (Hres & Hh).
    destruct (validation_frame _ _ Hrun) as (Fr & _ & _ & Frows & Fcols & _).
    assert (Hres' : no_results st').
    { unfold no_results in *. rewrite Frows, Fcols. exact Hres. }
    assert (Hh' : kinds h = synthesis_calls st').
    { unfold synthesis_calls in *. rewrite Fr. exact Hh. }
    destruct (deepseek_sql st) as [sql|] eqn:Esql.
    2:{ unfold sql_validation_node in Hrun. rewrite Esql in Hrun.
        discriminate. }
    unfold should_repair, MAX_REPAIR_ATTEMPTS in Hnext.
    rewrite Fr, Hk in Hnext. simpl in Hnext.
    pose proof (validation_verdict _ _ Hrun) as Hv.
    destruct Hv as [(Hv & He & Hvq)|(Hv & He)].
    + rewrite Hv in Hnext. injection Hnext as <-. simpl.
      split; [exact Hres'|]. split; [exact Hh'|].
      destruct (validated_sql st') as [v|] eqn:Ev; [|discriminate].
      exists v. split; [reflexivity|]. exists st, st'. auto.
    + rewrite Hv, He in Hnext. simpl in Hnext.
      destruct (k <? 2) eqn:Hlt; injection Hnext as <-; simpl.
      * auto.
      * left. apply Z.ltb_ge in Hlt.
        split; [exact Hv|]. split.
        { destruct (validation_cases _ _ _ Esql Hrun)
            as [(_ & _ & Hmsg)|(_ & He' & _)]; [exact Hmsg|].
          rewrite He' in He. discriminate. }
        split; [|auto].
        rewrite Fr, Hk. unfold MAX_REPAIR_ATTEMPTS. f_equal. lia.
  - (* repair_sql *)
    injection Hnext as <-. destruct HS as (Hres & Hh).
    destruct Hn as (_ & _ & Hlt & _).
    assert (Hres' : no_results st').
    { simpl in Hrun. unfold sql_repair_node in Hrun.
      destruct (deepseek_sql st); [|discriminate].
      destruct (MAX_REPAIR_ATTEMPTS <=? _);
        [|destruct (call_deepseek_json backend ForRepair _)];
        injection Hrun as <- _; exact Hres. }
    destruct (repair_consumes_attempt _ _ _ _ Hrun Hlt) as [Hrc ->].
    simpl. split; [exact Hres'|].
    rewrite kinds_app, Hh. unfold synthesis_calls. rewrite Hrc, Hk.
    simpl get. simpl kinds.
    replace (Z.to_nat (k + 1)) with (S (Z.to_nat k)) by lia.
    simpl. rewrite repeat_snoc. reflexivity.
  - (* execute_sql *)
    injection Hnext as <-.
    destruct HS as (Hres & Hh & v & Ev & Hacc).
    destruct Hn as (Hv & He & _).
    unfold sql_execution_node in Hrun. rewrite Ev in Hrun, Hv.
    simpl in Hv. apply negb_true_iff in Hv. rewrite Hv in Hrun.
    destruct (run_query backend v) as [[columns rows]|e] eqn:Hq;
      injection Hrun as <- <-; simpl.
    + right; right. exists v, h. simpl.
      split; [exact Ev|]. split; [exact Hacc|]. auto.
    + right; left. exists v, e, h. simpl. unfold no_results. simpl.
      split; [exact Ev|]. split; [exact Hacc|]. auto.
  - (* generate_answer *)
    injection Hnext as <-. destruct Hn as (_ & Hf).
    unfold answer_generation_node in Hrun.
    assert (Herr : forall msg, sql_error st = Some msg ->
                   run_node backend generate_answer st
                   = (Ok (set_final_answer (Some ("Error: " ++ msg)) st),
                      [])).
    { intros msg E. simpl. unfold answer_generation_node. rewrite E.
      assert (Ht : truthy (Some msg) = true).
      { simpl. apply negb_true_iff, eqb_empty_false. congruence. }
      rewrite Ht. reflexivity. }
    simpl Stage.
    destruct HS as [HR|[HF|HD]].
    + destruct HR as (Hv & (msg & He & Hm) & Hrest).
      pose proof (Herr msg He) as Hrun'. simpl in Hrun'.
      unfold answer_generation_node in Hrun'.
      rewrite Hrun' in Hrun. injection Hrun as <- <-. rewrite app_nil_r.
      left. split.
      * left. split; [exact Hv|]. split; [exists msg; auto | exact Hrest].
      * exists msg. simpl. auto.
    + pose proof HF as (v & e & h0 & Hv & Hacc & Hq & He & Hrest).
      pose proof (Herr _ He) as Hrun'. simpl in Hrun'.
      unfold answer_generation_node in Hrun'.
      rewrite Hrun' in Hrun. injection Hrun as <- <-. rewrite app_nil_r.
      left. split.
      * right. exact HF.
      * eexists. simpl. split; [exact He | reflexivity].
    + pose proof HD as (v & h0 & Hv & Hacc & Hq & He & Hrest).
      rewrite He in Hrun. simpl truthy in Hrun. cbv iota in Hrun.
      right. exists h.
      destruct (call_deepseek_json backend ForAnswer st) as [reply|e] eqn:Hc;
        injection Hrun as <- <-;
        rewrite (final_answer_reset st _ Hf);
        (split; [exact HD|]); (split; [reflexivity|]).
      * left. exists reply. split; [exact Hc | reflexivity].
      * right. exists e. split; [exact Hc | reflexivity].
  - (* output *)
    injection Hnext as <-. injection Hrun as <- <-.
    rewrite app_nil_r. exact HS.
Qed.

Lemma Hist_step (backend : Backend) :
  forall h n st st' cs m,
    n <> END ->
    Hist backend h n st ->
    run_node backend n st = (Ok st', cs) ->
    next_node n st' = Ok m ->
    Hist backend (h ++ cs)%list m st'.
Proof.
  intros h n st st' cs m Hn [HI HS] Hrun Hnext. split.
  - eapply Inv_step; eauto.
  - eapply Stage_step; eauto.
Qed.

(* ------------------------------------------------------------------ *)
(** ** The final state and the calls of a run *)

Lemma ainvoke_final (backend : Backend) (q : string) (s : Schema)
      (final : Context) :
  outcome (ainvoke backend (initial_context q s)) = Ok final ->
  Inv backend END final
  /\ answered_state backend final
       (calls (ainvoke backend (initial_context q s))).
Proof.
  rewrite ainvoke_eq. intros Hout.
  pose proof (walk_history backend (Hist backend) (Hist_step backend)
                recursion_limit input (initial_context q s) [] final
                (Hist_initial backend q s) Hout) as H.
  rewrite app_nil_l in H. exact H.
Qed.

Lemma Inv_repairs (backend : Backend) (n : Node) (st : Context) :
  Inv backend n st -> (Z.to_nat (get (repair_count st) 0%Z) <= 2)%nat.
Proof.
  intros ((k & Hk & Hk2) & _). rewrite Hk. simpl.
  unfold MAX_REPAIR_ATTEMPTS in Hk2. lia.
Qed.

(** A run stopped by an exception was stopped by one of the two a node
    raises, and made a generation call and repair calls only. *)
Lemma ainvoke_raised (backend : Backend) (q : string) (s : Schema) (e : exn) :
  outcome (ainvoke backend (initial_context q s)) = Raise e ->
  stops_a_run e
  /\ exists k,
       (k <= 2)%nat
       /\ kinds (calls (ainvoke backend (initial_context q s)))
          = KBackend ForGeneration :: repeat (KBackend ForRepair) k.
Proof.
  intros Hout.
  assert (He : stops_a_run e).
  { destruct (ainvoke_ends backend q s) as [[final Hf]|(e' & Hs & Hr)];
      [congruence|].
    rewrite Hout in Hr. injection Hr as <-. exact Hs. }
  split; [exact He|].
  rewrite ainvoke_eq in *.
  destruct (walk_history_raise backend (Hist backend) (Hist_step backend)
              recursion_limit input (initial_context q s) []
              e (Hist_initial backend q s) Hout)
    as [Hrec|(h' & m & st0 & cs & [HI HS] & Hrun & Hcalls)].
  { exfalso. subst e. destruct He as [He|(n & _ & He)]; discriminate He. }
  rewrite app_nil_l in Hcalls. rewrite Hcalls.
  destruct (run_node_raise _ _ _ _ _ HI Hrun) as (-> & Hcase).
  exists (Z.to_nat (get (repair_count st0) 0)).
  split; [exact (Inv_repairs _ _ _ HI)|].
  rewrite app_nil_r.
  assert (Hm : m = validate_sql \/ m = repair_sql).
  { destruct Hcase as [(_ & _ & Hm)|(Hm & _)]; auto. }
  destruct Hm as [-> | ->]; simpl in HS; destruct HS as (_ & Hh); exact Hh.
Qed.

Lemma synthesis_only_no_query (h : list Call) (k : nat) (v : string) :
  kinds h = KBackend ForGeneration :: repeat (KBackend ForRepair) k ->
  ~ In (CallQuery v) h.
Proof.
  unfold kinds. intros Hk Hin. apply (in_map kind_of) in Hin.
  rewrite Hk in Hin. simpl in Hin.
  destruct Hin as [Hin|Hin]; [discriminate|].
  apply repeat_spec in Hin. discriminate.
Qed.

Lemma synthesis_calls_no_query (h : list Call) (st : Context) (v : string) :
  kinds h = synthesis_calls st -> ~ In (CallQuery v) h.
Proof.
  apply synthesis_only_no_query.
Qed.

(** The queries among the calls of a finished run: none when the validator
    had the last word, else the validated query of the final state. *)
Lemma answered_queries (backend : Backend) (st : Context) (h : list Call)
      (v : string) :
  answered_state backend st h ->
  In (CallQuery v) h <-> validated_sql st = Some v.
Proof.
  intros [[[HR|HF] _]|(h1 & HD & -> & _)].
  - destruct HR as (Hv & _ & _ & _ & Hh). split.
    + intros Hin. exfalso. exact (synthesis_calls_no_query _ _ _ Hh Hin).
    + congruence.
  - destruct HF as (v' & e & h0 & Hv & _ & _ & _ & _ & -> & Hh). split.
    + intros Hin. apply in_app_or in Hin. destruct Hin as [Hin|Hin].
      * exfalso. exact (synthesis_calls_no_query _ _ _ Hh Hin).
      * destruct Hin as [[= <-]|[]]. exact Hv.
    + intros E. rewrite Hv in E. injection E as <-.
      apply in_or_app. right. left. reflexivity.
  - destruct HD as (v' & h0 & Hv & _ & _ & _ & -> & Hh). split.
    + intros Hin. apply in_app_or in Hin. destruct Hin as [Hin|Hin].
      * apply in_app_or in Hin. destruct Hin as [Hin|Hin].
        -- exfalso. exact (synthesis_calls_no_query _ _ _ Hh Hin).
        -- destruct Hin as [[= <-]|[]]. exact Hv.
      * destruct Hin as [Hin|[]]. discriminate.
    + intros E. rewrite Hv in E. injection E as <-.
      apply in_or_app. left. apply in_or_app. right. left. reflexivity.
Qed.

Lemma answered_accepted (backend : Backend) (st : Context) (h : list Call)
      (v : string) :
  answered_state backend st h -> validated_sql st = Some v -> accepted v.
Proof.
  intros [[[HR|HF] _]|(h1 & HD & _)] E.
  - destruct HR as (Hv & _). congruence.
  - destruct HF as (v' & e & h0 & Hv & Hacc & _). congruence.
  - destruct HD as (v' & h0 & Hv & Hacc & _). congruence.
Qed.

(** [run_agent] unfolded along the outcome of the graph run. *)
Lemma run_agent_cases (backend : Backend) (q : string) (res : AgentResult) :
  fst (run_agent backend q) = Ok res ->
  exists s,
    get_schema backend = Ok s
    /\ snd (run_agent backend q)
       = CallSchema :: calls (ainvoke backend (initial_context q s))
    /\ ((exists final,
           outcome (ainvoke backend (initial_context q s)) = Ok final
           /\ res = {| answer_text := final_answer final;
                       sql := validated_sql final;
                       res_columns := result_columns final;
                       res_rows := result_rows final;
                       error := sql_error final |})
        \/ (exists e,
              outcome (ainvoke backend (initial_context q s)) = Raise e
              /\ stops_a_run e
              /\ aborted_result e res)).
Proof.
  unfold run_agent.
  destruct (get_schema backend) as [s|e]; [|discriminate].
  intros Hres. exists s. split; [reflexivity|].
  destruct (outcome (ainvoke backend (initial_context q s)))
    as [final|e] eqn:Hout.
  - split; [reflexivity|]. left. exists final.
    injection Hres as <-. auto.
  - split; [reflexivity|]. right. exists e.
    destruct (ainvoke_raised _ _ _ _ Hout) as [He _].
    split; [reflexivity|]. split; [exact He|]. injection Hres as <-.
    unfold aborted_result. simpl. auto.
Qed.

Lemma run_agent_calls_ok (backend : Backend) (q : string) (s : Schema) :
  get_schema backend = Ok s ->
  snd (run_agent backend q)
  = CallSchema :: calls (ainvoke backend (initial_context q s)).
Proof.
  intros Hs. unfold run_agent. rewrite Hs.
  destruct (outcome (ainvoke backend (initial_context q s))); reflexivity.
Qed.

Lemma run_agent_calls_raise (backend : Backend) (q : string) (e : exn) :
  get_schema backend = Raise e ->
  snd (run_agent backend q) = [CallSchema].
Proof.
  intros Hs. unfold run_agent. rewrite Hs. reflexivity.
Qed.

(* ------------------------------------------------------------------ *)
(** ** What one request costs and what it returns *)

(** X1. The calls of one request, in order.  The schema is loaded
    first.  If that fails, nothing else is called.  If it succeeds, there
    is one generation call, then at most two repair calls, then at most one
    query to the row store, then an answer call only if a query was run. *)
Theorem run_agent_calls (backend : Backend) (q : string) :
  (forall e,
      get_schema backend = Raise e ->
      kinds (snd (run_agent backend q)) = [KSchema])
  /\ (forall s,
         get_schema backend = Ok s ->
         exists k nq na : nat,
           (k <= 2)%nat /\ (nq <= 1)%nat /\ (na <= nq)%nat
           /\ kinds (snd (run_agent backend q))
              = (KSchema :: KBackend ForGeneration
                   :: repeat (KBackend ForRepair) k
                   ++ repeat KQuery nq
                   ++ repeat (KBackend ForAnswer) na)%list).
Proof.
  split.
  { intros e Hs. rewrite (run_agent_calls_raise _ _ _ Hs). reflexivity. }
  intros s Hs. rewrite (run_agent_calls_ok _ _ _ Hs).
  assert (Hgoal : exists k nq na : nat,
             (k <= 2)%nat /\ (nq <= 1)%nat /\ (na <= nq)%nat
             /\ kinds (calls (ainvoke backend (initial_context q s)))
                = (KBackend ForGeneration
                     :: repeat (KBackend ForRepair) k
                     ++ repeat KQuery nq
                     ++ repeat (KBackend ForAnswer) na)%list).
  { destruct (outcome (ainvoke backend (initial_context q s)))
      as [final|e] eqn:Hout.
    - destruct (ainvoke_final _ _ _ _ Hout) as [HI HA].
      pose proof (Inv_repairs _ _ _ HI) as Hk.
      destruct HA as [[[HR|HF] _]|(h1 & HD & Hh & _)].
      + destruct HR as (_ & _ & _ & _ & Hh).
        exists (Z.to_nat (get (repair_count final) 0)), 0%nat, 0%nat.
        rewrite Hh. simpl. rewrite app_nil_r. auto.
      + destruct HF as (v & e & h0 & _ & _ & _ & _ & _ & Hh & Hh0).
        exists (Z.to_nat (get (repair_count final) 0)), 1%nat, 0%nat.
        rewrite Hh, kinds_app, Hh0. simpl. auto.
      + destruct HD as (v & h0 & _ & _ & _ & _ & Hh1 & Hh0).
        exists (Z.to_nat (get (repair_count final) 0)), 1%nat, 1%nat.
        rewrite Hh, Hh1, !kinds_app, Hh0. simpl.
        rewrite <- app_assoc. auto.
    - destruct (ainvoke_raised _ _ _ _ Hout) as (_ & k & Hk & Hh).
      exists k, 0%nat, 0%nat. rewrite Hh. simpl. rewrite app_nil_r. auto. }
  destruct Hgoal as (k & nq & na & Hk & Hq & Ha & Hh).
  exists k, nq, na. split; [exact Hk|]. split; [exact Hq|].
  split; [exact Ha|].
  rewrite kinds_cons, Hh. reflexivity.
Qed.

Lemma run_agent_calls_witness :
  kinds (snd (run_agent no_schema_backend "How many?")) = [KSchema]
  /\ exists k nq na : nat,
       (k <= 2)%nat /\ (nq <= 1)%nat /\ (na <= nq)%nat
       /\ kinds (snd (run_agent helpful_backend "How many?"))
          = (KSchema :: KBackend ForGeneration
               :: repeat (KBackend ForRepair) k
               ++ repeat KQuery nq
               ++ repeat (KBackend ForAnswer) na)%list.
Proof.
  split.
  - apply (proj1 (run_agent_calls no_schema_backend "How many?")
             (Exception "IOException" "cannot open database")).
    reflexivity.
  - apply (proj2 (run_agent_calls helpful_backend "How many?")
             sample_schema).
    reflexivity.
Defined.

(** X2. The error field of a response is one of the validator's five
    messages, or the failure of the row store on the reported query, or
    the text of the exception that stopped the graph run; that exception
    is the one of slicing a missing candidate query or the one of [int] on
    more than 4300 digits after LIMIT, and the response is then the
    dictionary of an aborted run.  (Replies of the backend are taken
    well-typed: [sql], [explanation] and [answer] are strings when present
    and [confidence] is a number, as the [Reply] record has them.) *)
Theorem run_agent_error_forms (backend : Backend) (q : string)
        (res : AgentResult) (msg : string) :
  fst (run_agent backend q) = Ok res ->
  error res = Some msg ->
  validation_error msg
  \/ (exists v e,
        sql res = Some v /\ run_query backend v = Raise e
        /\ msg = "SQL execution failed: " ++ exn_str e)
  \/ (exists e,
        stops_a_run e /\ msg = exn_str e /\ aborted_result e res).
Proof.
  intros Hres Herr.
  destruct (run_agent_cases _ _ _ Hres)
    as (s & _ & _ & [(final & Hout & ->)|(e & _ & Hstop & Hab)]).
  - simpl in Herr.
    destruct (ainvoke_final _ _ _ _ Hout) as [_ HA].
    destruct HA as [[[HR|HF] _]|(h1 & HD & _)].
    + destruct HR as (_ & (m & He & Hm) & _). left. congruence.
    + destruct HF as (v & e & h0 & Hv & _ & Hq & He & _).
      right; left. exists v, e. split; [exact Hv|].
      split; [exact Hq | congruence].
    + destruct HD as (v & h0 & _ & _ & _ & He & _). congruence.
  - right; right. exists e. split; [exact Hstop|]. split; [|exact Hab].
    destruct Hab as (_ & _ & _ & _ & He). congruence.
Qed.

Lemma run_agent_error_forms_witness :
  validation_error "SQL execution failed: Binder Error: column borough not found"
  \/ (exists v e,
        sql failed_execution_result = Some v
        /\ run_query failing_query_backend v = Raise e
        /\ "SQL execution failed: Binder Error: column borough not found"
           = "SQL execution failed: " ++ exn_str e)
  \/ (exists e,
        stops_a_run e
        /\ "SQL execution failed: Binder Error: column borough not found"
           = exn_str e
        /\ aborted_result e failed_execution_result).
Proof.
  apply (run_agent_error_forms failing_query_backend "How many?"
           failed_execution_result).
  - vm_compute. reflexivity.
  - reflexivity.
Defined.

(** X3. A response that reports an error carries no rows and no columns,
    and its answer text is that error behind the prefix of the Answerer or
    behind the prefix of an aborted run. *)
Theorem error_response_shape (backend : Backend) (q : string)
        (res : AgentResult) (msg : string) :
  fst (run_agent backend q) = Ok res ->
  error res = Some msg ->
  res_rows res = [] /\ res_columns res = []
  /\ (answer_text res = Some ("Error: " ++ msg)
      \/ answer_text res = Some ("Agent execution failed: " ++ msg)).
Proof.
  intros Hres Herr.
  destruct (run_agent_cases _ _ _ Hres)
    as (s & _ & _ & [(final & Hout & ->)|(e & _ & _ & Hab)]).
  - simpl in Herr.
    destruct (ainvoke_final _ _ _ _ Hout) as [_ HA].
    destruct HA as [[Hcase (m & He & Hf)]|(h1 & HD & _)].
    + assert (Hno : no_results final).
      { destruct Hcase as [HR|HF].
        - destruct HR as (_ & _ & _ & Hno & _). exact Hno.
        - destruct HF as (v & e & h0 & _ & _ & _ & _ & Hno & _). exact Hno. }
      destruct Hno as [Hr Hc].
      split; [exact Hr|]. split; [exact Hc|]. left.
      rewrite He in Herr. injection Herr as <-. exact Hf.
    + destruct HD as (v & h0 & _ & _ & _ & He & _). congruence.
  - destruct Hab as (Ha & _ & Hc & Hr & He).
    split; [exact Hr|]. split; [exact Hc|]. right.
    rewrite Herr in He. injection He as ->. exact Ha.
Qed.

Lemma error_response_shape_witness :
  res_rows rejected_result = [] /\ res_columns rejected_result = []
  /\ (answer_text rejected_result
      = Some ("Error: " ++ "SQL must start with SELECT or WITH")
      \/ answer_text rejected_result
         = Some ("Agent execution failed: "
                 ++ "SQL must start with SELECT or WITH")).
Proof.
  apply (error_response_shape stubborn_backend "How many?" rejected_result).
  - vm_compute. reflexivity.
  - reflexivity.
Defined.

(** X4. The query reported in a response is the query that was sent to
    the row store, and no other query was sent. *)
Theorem reported_sql_was_run (backend : Backend) (q : string)
        (res : AgentResult) (v : string) :
  fst (run_agent backend q) = Ok res ->
  In (CallQuery v) (snd (run_agent backend q)) <-> sql res = Some v.
Proof.
  intros Hres.
  destruct (run_agent_cases _ _ _ Hres)
    as (s & _ & -> & [(final & Hout & ->)|(e & Hout & _ & Hab)]).
  - simpl sql.
    destruct (ainvoke_final _ _ _ _ Hout) as [_ HA].
    rewrite <- (answered_queries _ _ _ v HA). split.
    + intros Hin. apply in_inv in Hin.
      destruct Hin as [Hin|Hin]; [discriminate | exact Hin].
    + intros Hin. apply in_cons. exact Hin.
  - destruct Hab as (_ & Hs & _). rewrite Hs.
    destruct (ainvoke_raised _ _ _ _ Hout) as (_ & k & _ & Hh). split.
    + intros Hin. apply in_inv in Hin.
      destruct Hin as [Hin|Hin]; [discriminate|]. exfalso.
      exact (synthesis_only_no_query _ _ _ Hh Hin).
    + discriminate.
Qed.

Lemma reported_sql_was_run_witness :
  In (CallQuery "SELECT complaint_type FROM nyc_311 LIMIT 10")
     (snd (run_agent helpful_backend "How many?"))
  <-> sql helpful_result
      = Some "SELECT complaint_type FROM nyc_311 LIMIT 10".
Proof.
  apply (reported_sql_was_run helpful_backend "How many?" helpful_result).
  vm_compute. reflexivity.
Defined.

(** X5. With a backend that proposes queries of ASCII text, a query
    reaches the row store only if it starts with SELECT or WITH after
    surrounding blanks, holds no forbidden keyword as a whole word, and the
    validator's own search for LIMIT, blanks and digits finds in it digits
    that [int] reads as a number at most 1000.  The search looks at the
    first such place of the text and at its digits only. *)
Theorem only_checked_queries_run (backend : Backend) (q : string)
        (v : string) :
  proposes_ascii backend ->
  In (CallQuery v) (snd (run_agent backend q)) -> checked_query v.
Proof.
  intros _.
  destruct (get_schema backend) as [s|e] eqn:Hs.
  2:{ rewrite (run_agent_calls_raise _ _ _ Hs).
      intros [Hin|[]]. discriminate. }
  rewrite (run_agent_calls_ok _ _ _ Hs).
  assert (Hgoal : In (CallQuery v)
                     (calls (ainvoke backend (initial_context q s)))
                  -> checked_query v).
  { destruct (outcome (ainvoke backend (initial_context q s)))
      as [final|e] eqn:Hout.
    - destruct (ainvoke_final _ _ _ _ Hout) as [_ HA].
      intros Hin. apply (answered_queries _ _ _ v HA) in Hin.
      apply accepted_checked. exact (answered_accepted _ _ _ _ HA Hin).
    - destruct (ainvoke_raised _ _ _ _ Hout) as (_ & k & _ & Hh).
      intros Hin. exfalso.
      exact (synthesis_only_no_query _ _ _ Hh Hin). }
  intros Hin. apply in_inv in Hin.
  destruct Hin as [Hin|Hin]; [discriminate | exact (Hgoal Hin)].
Qed.

Lemma only_checked_queries_run_witness :
  checked_query "SELECT complaint_type FROM nyc_311 LIMIT 10".
Proof.
  apply (only_checked_queries_run helpful_backend "How many?").
  - intros p st r text Hc Hr. destruct p; simpl in Hc;
      injection Hc as <-; simpl in Hr;
      first [discriminate Hr | injection Hr as <-; reflexivity].
  - vm_compute. right. right. left. reflexivity.
Defined.

(** X6. A response without an error reports the query that was run, the
    columns and rows the row store returned for it, and an answer that is
    the backend's (or the default text when its reply has no answer), or
    one of the two fallback texts when the answer call failed. *)
Theorem success_response_shape (backend : Backend) (q : string)
        (res : AgentResult) :
  fst (run_agent backend q) = Ok res ->
  error res = None ->
  exists v a,
    sql res = Some v
    /\ run_query backend v = Ok (res_columns res, res_rows res)
    /\ answer_text res = Some a
    /\ (answered_by_backend backend a
        \/ exists e, a = fallback_answer (res_rows res) (res_columns res) e).
Proof.
  intros Hres Herr.
  destruct (run_agent_cases _ _ _ Hres)
    as (s & _ & _ & [(final & Hout & ->)|(e0 & _ & _ & Hab)]).
  - simpl in Herr.
    destruct (ainvoke_final _ _ _ _ Hout) as [_ HA].
    destruct HA as [[_ (m & He & _)]|(h1 & HD & _ & Hans)]; [congruence|].
    destruct HD as (v & h0 & Hv & _ & Hq & _).
    destruct Hans as [(reply & Hc & Hf)|(e & Hc & Hf)].
    + exists v, (get (r_answer reply) "Unable to generate answer.").
      split; [exact Hv|]. split; [exact Hq|]. split; [exact Hf|].
      left. eexists; eexists. split; [exact Hc | reflexivity].
    + exists v, (fallback_answer (result_rows final)
                                 (result_columns final) e).
      split; [exact Hv|]. split; [exact Hq|]. split; [exact Hf|].
      right. exists e. reflexivity.
  - destruct Hab as (_ & _ & _ & _ & He). congruence.
Qed.

Lemma success_response_shape_witness :
  exists v a,
    sql helpful_result = Some v
    /\ run_query helpful_backend v
       = Ok (res_columns helpful_result, res_rows helpful_result)
    /\ answer_text helpful_result = Some a
    /\ (answered_by_backend helpful_backend a
        \/ exists e,
             a = fallback_answer (res_rows helpful_result)
                                 (res_columns helpful_result) e).
Proof.
  apply (success_response_shape helpful_backend "How many?" helpful_result).
  - vm_compute. reflexivity.
  - reflexivity.
Defined.

(* ------------------------------------------------------------------ *)
(** ** The length of a run *)

Lemma walk_trace_length (backend : Backend) :
  forall limit n st,
    Inv backend n st ->
    (List.length (trace (walk backend limit n st)) <= steps_left n st)%nat.
Proof.
  induction limit as [|limit IH]; intros n st HI;
    destruct (Node_END_dec n) as [->|Hn];
    try (rewrite walk_END; simpl; lia).
  - rewrite walk_O by exact Hn. simpl. lia.
  - destruct (run_node backend n st) as [[st'|e] cs] eqn:Hrun.
    + destruct (next_node_total n st') as [m Hm].
      rewrite (walk_step _ _ _ _ _ _ _ Hn Hrun Hm), trace_step_then.
      pose proof (steps_decrease _ _ _ _ _ _ Hn HI Hrun Hm) as Hd.
      pose proof (IH m st' (Inv_step _ _ _ _ _ _ HI Hrun Hm)) as Hl.
      change (List.length ((n, st') :: trace (walk backend limit m st')))
        with (S (List.length (trace (walk backend limit m st')))).
      lia.
    + rewrite walk_S by exact Hn. rewrite Hrun. simpl. lia.
Qed.

Lemma steps_left_initial (q : string) (s : Schema) :
  steps_left input (initial_context q s) = 10%nat.
Proof. reflexivity. Qed.

(** X7. With well-typed replies of the backend, whatever they hold and
    whatever the row store answers, at most ten nodes of the graph run to
    completion and the run is never stopped by the step limit of the graph
    runtime: it reaches the end of the graph, or a node raises one of two
    exceptions, the one of slicing a missing candidate query or the one of
    [int] on more than 4300 digits after LIMIT. *)
Theorem run_is_bounded (backend : Backend) (q : string) (s : Schema) :
  (List.length (trace (ainvoke backend (initial_context q s))) <= 10)%nat
  /\ ((exists final,
         outcome (ainvoke backend (initial_context q s)) = Ok final)
      \/ (exists e,
            stops_a_run e
            /\ outcome (ainvoke backend (initial_context q s)) = Raise e))
  /\ outcome (ainvoke backend (initial_context q s))
     <> Raise GraphRecursionError.
Proof.
  pose proof (ainvoke_ends backend q s) as Hends.
  split; [|split; [exact Hends|]].
  - rewrite ainvoke_eq. rewrite <- (steps_left_initial q s).
    apply walk_trace_length. apply Inv_initial.
  - destruct Hends as [[final Hf]|(e & He & Hr)];
      [rewrite Hf | rewrite Hr]; [discriminate|].
    intros [= ->]. destruct He as [He|(n & _ & He)]; discriminate He.
Qed.

(* ------------------------------------------------------------------ *)
(** ** The validator as a function of the candidate query *)

(** The verdict depends on the candidate query only. *)
Lemma validation_same_candidate (a b a' : Context) :
  deepseek_sql a = deepseek_sql b ->
  sql_validation_node a = Ok a' ->
  exists b',
    sql_validation_node b = Ok b'
    /\ sql_error b' = sql_error a'
    /\ validated_sql b' = validated_sql a'
    /\ deepseek_sql b' = deepseek_sql a'.
Proof.
  intros Hab.
  destruct (deepseek_sql a) as [sql|] eqn:Ea.
  2:{ unfold sql_validation_node. rewrite Ea. discriminate. }
  symmetry in Hab.
  rewrite (validation_stages _ _ Ea), (validation_stages _ _ Hab).
  destruct (_ || _).
  { intros [= <-]. eexists. split; [reflexivity|]. simpl.
    rewrite Ea, Hab. auto. }
  destruct (negb _).
  { intros [= <-]. eexists. split; [reflexivity|]. simpl.
    rewrite Ea, Hab. auto. }
  unfold keyword_stage.
  destruct (find (fun keyword => _) forbidden_keywords).
  { intros [= <-]. eexists. split; [reflexivity|]. simpl.
    rewrite Ea, Hab. auto. }
  unfold table_stage.
  destruct (find (invalid_table_ref _) _).
  { intros [= <-]. eexists. split; [reflexivity|]. simpl.
    rewrite Ea, Hab. auto. }
  unfold limit_stage.
  destruct (found limit_pattern _);
    (destruct (search limit_value_pattern _) as [digits|];
     [destruct (int digits) as [limit_value|e]; [|discriminate];
      destruct (1000 <? limit_value)|]);
    intros [= <-]; eexists; (split; [reflexivity|]); simpl;
    rewrite ?Ea, ?Hab; auto.
Qed.

Lemma validation_keeps_rest (st st' : Context) :
  sql_validation_node st = Ok st' -> same_outside_verdict st st'.
Proof.
  unfold sql_validation_node.
  destruct (deepseek_sql st) as [sql|]; [|discriminate].
  unfold same_outside_verdict.
  repeat match goal with
         | |- context [if ?b then _ else _] => destruct b
         | |- context [match ?x with Some _ => _ | None => _ end] => destruct x
         | |- context [match ?x with Ok _ => _ | Raise _ => _ end] => destruct x
         end;
    try discriminate;
    intros [= <-]; simpl; repeat split; reflexivity.
Qed.

(** X8. A validation pass on a state that holds a candidate query of
    ASCII text has one of three outcomes.  It rejects the candidate with
    one of its five messages and leaves the candidate as it was; or it
    accepts it, and the validated query is the candidate itself or the
    candidate without its closing semicolons and surrounding blanks
    followed by " LIMIT 1000", the candidate being rewritten only in that
    last case; or it raises the ValueError of [int], when its search for
    LIMIT, blanks and digits finds more than 4300 digits.  When it
    returns, no other field of the state changes. *)
Theorem validation_outcome (st : Context) (sql : string) :
  deepseek_sql st = Some sql ->
  is_ascii sql = true ->
  (exists st',
      sql_validation_node st = Ok st'
      /\ same_outside_verdict st st'
      /\ ((validated_sql st' = None /\ deepseek_sql st' = Some sql
           /\ exists msg, sql_error st' = Some msg /\ validation_error msg)
          \/ (sql_error st' = None
              /\ exists q,
                   validated_sql st' = Some q /\ deepseek_sql st' = Some q
                   /\ (q = sql
                       \/ q = strip (rstrip_by is_semicolon sql)
                              ++ " LIMIT 1000"))))
  \/ (exists digits,
        search limit_value_pattern (strip (upper sql)) = Some digits
        /\ (max_str_digits < String.length digits)%nat
        /\ sql_validation_node st
           = Raise (int_too_long (String.length digits))).
Proof.
  intros Hq _.
  destruct (validation_returns _ _ Hq) as [[st' Hv]|Hraise];
    [left | right; exact Hraise].
  exists st'. split; [exact Hv|].
  split; [exact (validation_keeps_rest _ _ Hv)|].
  destruct (validation_cases _ _ _ Hq Hv)
    as [Hrej|(_ & He & Hvq & Hcase)]; [left; exact Hrej|].
  right. split; [exact He|].
  destruct Hcase as [(_ & Hc & _)|(_ & Hc)].
  - exists sql. rewrite Hvq. auto.
  - exists (query_core sql ++ limit_suffix). rewrite Hvq.
    split; [exact Hc|]. split; [exact Hc|]. right. reflexivity.
Qed.

Lemma validation_outcome_witness :
  (exists st',
      sql_validation_node candidate_with_drop = Ok st'
      /\ same_outside_verdict candidate_with_drop st'
      /\ ((validated_sql st' = None
           /\ deepseek_sql st' = Some "SELECT 1; DROP TABLE nyc_311"
           /\ exists msg, sql_error st' = Some msg /\ validation_error msg)
          \/ (sql_error st' = None
              /\ exists q,
                   validated_sql st' = Some q /\ deepseek_sql st' = Some q
                   /\ (q = "SELECT 1; DROP TABLE nyc_311"
                       \/ q = strip (rstrip_by is_semicolon
                                       "SELECT 1; DROP TABLE nyc_311")
                              ++ " LIMIT 1000"))))
  \/ (exists digits,
        search limit_value_pattern
          (strip (upper "SELECT 1; DROP TABLE nyc_311")) = Some digits
        /\ (max_str_digits < String.length digits)%nat
        /\ sql_validation_node candidate_with_drop
           = Raise (int_too_long (String.length digits))).
Proof.
  apply (validation_outcome candidate_with_drop
           "SELECT 1; DROP TABLE nyc_311").
  - reflexivity.
  - vm_compute. reflexivity.
Defined.

(** X9. Every query of ASCII text that the validator accepts starts with
    SELECT or WITH after surrounding blanks, holds none of the forbidden
    keywords as a whole word, and the validator's own search for LIMIT,
    blanks and digits finds in it digits that [int] reads as a number at
    most 1000; this holds of the validated text itself, also when the
    validator appended the LIMIT.  The search looks at the first such
    place of the text and at its digits only. *)
Theorem accepted_query_checked (st st' : Context) (q : string) :
  sql_validation_node st = Ok st' ->
  validated_sql st' = Some q ->
  is_ascii q = true ->
  checked_query q.
Proof.
  intros Hv Hq _. apply accepted_checked. exists st, st'. auto.
Qed.

Lemma accepted_query_checked_witness :
  checked_query
    "SELECT complaint_type, COUNT(*) FROM nyc_311 GROUP BY complaint_type LIMIT 1000".
Proof.
  apply (accepted_query_checked
           (set_deepseek_sql (Some (grouped_query ++ ";")) sample_context)
           (set_validated_sql
              (Some (grouped_query ++ " LIMIT 1000"))
              (set_deepseek_sql
                 (Some (grouped_query ++ " LIMIT 1000")) sample_context))).
  - vm_compute. reflexivity.
  - reflexivity.
  - vm_compute. reflexivity.
Defined.

(** X10. When the backend call of a repair attempt fails, the attempt is
    counted, the candidate query stays as it was, and the next validation
    pass rejects it with the same error as before: the text of the failed
    repair call is overwritten and never reported. *)
Theorem failed_repair_keeps_verdict (backend : Backend)
        (st0 st : Context) (e : exn) :
  sql_validation_node st0 = Ok st ->
  validated_sql st = None ->
  get (repair_count st) 0 < MAX_REPAIR_ATTEMPTS ->
  call_deepseek_json backend ForRepair
    (set_repair_count (Some (get (repair_count st) 0 + 1)) st) = Raise e ->
  exists st1 st2 cs,
    run_node backend repair_sql st = (Ok st1, cs)
    /\ repair_count st1 = Some (get (repair_count st) 0 + 1)
    /\ sql_error st1 = Some ("SQL repair failed: " ++ exn_str e)
    /\ deepseek_sql st1 = deepseek_sql st
    /\ sql_validation_node st1 = Ok st2
    /\ sql_error st2 = sql_error st
    /\ validated_sql st2 = None
    /\ deepseek_sql st2 = deepseek_sql st.
Proof.
  intros Hv Hrej Hlt Hcall.
  destruct (deepseek_sql st0) as [sql|] eqn:E0.
  2:{ unfold sql_validation_node in Hv. rewrite E0 in Hv. discriminate. }
  destruct (validation_cases _ _ _ E0 Hv)
    as [(_ & Hc & _)|(_ & _ & Hvq & Hcase)].
  2:{ exfalso. rewrite Hrej in Hvq.
      destruct Hcase as [(_ & Hc & _)|(_ & Hc)]; congruence. }
  assert (Hrun : run_node backend repair_sql st
                 = (Ok (set_sql_error
                          (Some ("SQL repair failed: " ++ exn_str e))
                          (set_repair_count
                             (Some (get (repair_count st) 0 + 1)) st)),
                    [CallBackend ForRepair
                       (set_repair_count
                          (Some (get (repair_count st) 0 + 1)) st)])).
  { simpl. unfold sql_repair_node. rewrite Hc.
    apply Z.leb_gt in Hlt. rewrite Hlt, Hcall. reflexivity. }
  set (st1 := set_sql_error (Some ("SQL repair failed: " ++ exn_str e))
                (set_repair_count (Some (get (repair_count st) 0 + 1)) st))
    in *.
  assert (Hsame : deepseek_sql st0 = deepseek_sql st1)
    by (rewrite E0; symmetry; exact Hc).
  destruct (validation_same_candidate st0 st1 st Hsame Hv)
    as (st2 & Hv2 & He2 & Hval2 & Hc2).
  exists st1, st2; eexists. split; [exact Hrun|].
  split; [reflexivity|]. split; [reflexivity|]. split; [reflexivity|].
  split; [exact Hv2|]. split; [exact He2|].
  split; [congruence | exact Hc2].
Qed.

Lemma failed_repair_keeps_verdict_witness :
  exists st1 st2 cs,
    run_node unreachable_backend repair_sql rejected_for_drop = (Ok st1, cs)
    /\ repair_count st1 = Some (get (repair_count rejected_for_drop) 0 + 1)
    /\ sql_error st1
       = Some ("SQL repair failed: "
               ++ exn_str (Exception "ConnectTimeout" "timed out"))
    /\ deepseek_sql st1 = deepseek_sql rejected_for_drop
    /\ sql_validation_node st1 = Ok st2
    /\ sql_error st2 = sql_error rejected_for_drop
    /\ validated_sql st2 = None
    /\ deepseek_sql st2 = deepseek_sql rejected_for_drop.
Proof.
  apply (failed_repair_keeps_verdict unreachable_backend
           candidate_with_drop rejected_for_drop).
  - vm_compute. reflexivity.
  - reflexivity.
  - vm_compute. reflexivity.
  - reflexivity.
Defined.

Lemma blank_upper (s : string) :
  (String.eqb s "" || String.eqb (strip s) "")
  = String.eqb (strip (upper s)) "".
Proof.
  rewrite strip_upper.
  destruct s as [|c s].
  - reflexivity.
  - simpl orb. destruct (strip (String c s)) as [|d t]; reflexivity.
Qed.

(** X11. The validator's verdict does not depend on the letter case of
    the candidate: two candidates that differ only in case are both
    accepted or both rejected, and rejected with the same message. *)
Theorem validation_ignores_case (a b a' b' : Context) (sa sb : string) :
  deepseek_sql a = Some sa ->
  deepseek_sql b = Some sb ->
  upper sa = upper sb ->
  sql_validation_node a = Ok a' ->
  sql_validation_node b = Ok b' ->
  sql_error a' = sql_error b'
  /\ (validated_sql a' = None <-> validated_sql b' = None).
Proof.
  intros Ea Eb Hup.
  rewrite (validation_stages _ _ Ea), (validation_stages _ _ Eb).
  rewrite !blank_upper, <- Hup.
  destruct (String.eqb _ "").
  { intros [= <-] [= <-]. simpl. tauto. }
  destruct (negb _).
  { intros [= <-] [= <-]. simpl. tauto. }
  unfold keyword_stage.
  destruct (find (fun keyword => _) forbidden_keywords).
  { intros [= <-] [= <-]. simpl. tauto. }
  unfold table_stage.
  destruct (find (invalid_table_ref _) _).
  { intros [= <-] [= <-]. simpl. tauto. }
  unfold limit_stage.
  destruct (found limit_pattern _);
    (destruct (search limit_value_pattern _) as [digits|];
     [destruct (int digits) as [limit_value|e]; [|discriminate];
      destruct (1000 <? limit_value)|]);
    intros [= <-] [= <-]; simpl; rewrite ?Ea, ?Eb;
    split; try reflexivity; split; discriminate.
Qed.

Lemma validation_ignores_case_witness :
  sql_error
    (set_sql_error (Some "Forbidden keyword found: DROP") candidate_with_drop)
  = sql_error
      (set_sql_error (Some "Forbidden keyword found: DROP")
         (set_deepseek_sql (Some "select 1; drop table NYC_311")
            sample_context))
  /\ (validated_sql
        (set_sql_error (Some "Forbidden keyword found: DROP")
           candidate_with_drop) = None
      <-> validated_sql
            (set_sql_error (Some "Forbidden keyword found: DROP")
               (set_deepseek_sql (Some "select 1; drop table NYC_311")
                  sample_context)) = None).
Proof.
  apply (validation_ignores_case
           candidate_with_drop
           (set_deepseek_sql (Some "select 1; drop table NYC_311")
              sample_context)
           _ _
           "SELECT 1; DROP TABLE nyc_311" "select 1; drop table NYC_311").
  - reflexivity.
  - reflexivity.
  - vm_compute. reflexivity.
  - vm_compute. reflexivity.
  - vm_compute. reflexivity.
Defined.

Lemma generation_failure_aborts_graph_witness :
  outcome (ainvoke failing_answer_backend
             (initial_context "How many?" sample_schema))
  = Raise TypeError_None_subscript
  /\ fst (run_agent failing_answer_backend "How many?")
     = Ok {| answer_text :=
               Some "Agent execution failed: 'NoneType' object is not subscriptable";
             sql := None;
             res_columns := [];
             res_rows := [];
             error := Some "'NoneType' object is not subscriptable" |}.
Proof.
  exact (generation_failure_aborts_graph failing_answer_backend "How many?"
           sample_schema
           (Exception "HTTPStatusError" "503 Service Unavailable")
           eq_refl eq_refl).
Defined.

(* ------------------------------------------------------------------ *)
(** ** A reply without a query *)



(* ------------------------------------------------------------------ *)
(** ** The backend client: unwrapping the reply *)






















(** The tag is matched in lower case only, an opening fence is removed
    after the tagged one, and a closing fence is removed without an opening
    one. *)
Lemma unfence_examples :
  DeepseekClient.unfence "```JSON {} ```" = "JSON {}"
  /\ DeepseekClient.unfence "```json```{}```" = "{}"
  /\ DeepseekClient.unfence "{} ```" = "{}"
  /\ DeepseekClient.unfence "```" = "".
Proof.
  split; [|split; [|split]]; vm_compute; reflexivity.
Qed.

(* ------------------------------------------------------------------ *)
(** ** The row store: rows as dictionaries *)

Section RowDicts.

Variable V : Type.
Variable native : V -> V.

Lemma dict_get_set_same (k : string) (v : V) (d : list (string * V)) :
  Db.dict_get k (Db.dict_set k v d) = Some v.
Proof.
  induction d as [|[k' v'] d IH]; simpl.
  - rewrite String.eqb_refl. reflexivity.
  - destruct (String.eqb k k') eqn:E; simpl; rewrite E; auto.
Qed.

Lemma dict_get_set_other (k k0 : string) (v : V) (d : list (string * V)) :
  k <> k0 -> Db.dict_get k (Db.dict_set k0 v d) = Db.dict_get k d.
Proof.
  intros Hne. induction d as [|[k' v'] d IH]; simpl.
  - apply String.eqb_neq in Hne. rewrite Hne. reflexivity.
  - destruct (String.eqb k0 k') eqn:E; simpl.
    + apply String.eqb_eq in E. subst k'.
      apply String.eqb_neq in Hne. rewrite Hne. reflexivity.
    + rewrite IH. reflexivity.
Qed.

Lemma dict_set_new (k : string) (v : V) (d : list (string * V)) :
  ~ In k (Db.keys d) -> Db.dict_set k v d = (d ++ [(k, v)])%list.
Proof.
  induction d as [|[k' v'] d IH]; simpl; intros Hn; [reflexivity|].
  destruct (String.eqb k k') eqn:E.
  - apply String.eqb_eq in E. subst k'. exfalso. apply Hn. left. reflexivity.
  - rewrite IH; [reflexivity|]. intros Hin. apply Hn. right. exact Hin.
Qed.

Lemma keys_dict_set (k : string) (v : V) (d : list (string * V)) :
  forall x, In x (Db.keys (Db.dict_set k v d)) -> x = k \/ In x (Db.keys d).
Proof.
  induction d as [|[k' v'] d IH]; simpl; intros x.
  - intros [<-|[]]. left. reflexivity.
  - destruct (String.eqb k k') eqn:E; simpl.
    + intros [<-|Hin]; auto.
    + intros [<-|Hin]; [auto|].
      destruct (IH x Hin); auto.
Qed.

(** The loop entered at index [i] sees the row from position [i] on. *)
Lemma fill_row_skipn (columns : list string) :
  forall (i : nat) (row : list V) (d : list (string * V)),
    Db.fill_row native i columns row d
    = Db.fill_row native 0 columns (skipn i row) d.
Proof.
  induction columns as [|col rest IH]; intros i row d; [reflexivity|].
  simpl. rewrite (IH (S i)), (IH 1%nat (skipn i row)).
  assert (Hn : nth_error row i = nth_error (skipn i row) 0).
  { rewrite nth_error_skipn. f_equal. lia. }
  rewrite Hn.
  assert (Hs : skipn (S i) row = skipn 1 (skipn i row)).
  { rewrite skipn_skipn. reflexivity. }
  rewrite Hs. reflexivity.
Qed.

Lemma fill_row_cons (col : string) (rest : list string) (value : V)
      (row : list V) (d : list (string * V)) :
  Db.fill_row native 0 (col :: rest) (value :: row) d
  = Db.fill_row native 0 rest row (Db.dict_set col (native value) d).
Proof.
  simpl. rewrite (fill_row_skipn rest 1%nat). reflexivity.
Qed.

Lemma fill_row_nil (columns : list string) (d : list (string * V)) :
  Db.fill_row native 0 columns [] d = d.
Proof.
  assert (H : forall i, Db.fill_row native i columns [] d = d).
  { induction columns as [|col rest IH]; intros i; [reflexivity|].
    simpl. destruct i; simpl; apply IH. }
  apply H.
Qed.

Lemma fill_row_get (k : string) (columns : list string) :
  forall (row : list V) (d : list (string * V)),
    Db.dict_get k (Db.fill_row native 0 columns row d)
    = match Db.last_value native k columns row with
      | Some v => Some v
      | None => Db.dict_get k d
      end.
Proof.
  induction columns as [|col rest IH]; intros row d; [reflexivity|].
  destruct row as [|value row].
  - rewrite fill_row_nil. reflexivity.
  - rewrite fill_row_cons, IH. simpl.
    destruct (Db.last_value native k rest row); [reflexivity|].
    destruct (String.eqb k col) eqn:E.
    + apply String.eqb_eq in E. subst col. apply dict_get_set_same.
    + apply dict_get_set_other. apply String.eqb_neq. exact E.
Qed.

Lemma fill_row_fresh (columns : list string) :
  forall (row : list V) (d : list (string * V)),
    NoDup columns ->
    (forall c, In c columns -> ~ In c (Db.keys d)) ->
    Db.fill_row native 0 columns row d
    = (d ++ combine columns (map native row))%list.
Proof.
  induction columns as [|col rest IH]; intros row d Hnd Hfresh.
  - simpl. rewrite app_nil_r. reflexivity.
  - destruct row as [|value row].
    + rewrite fill_row_nil. simpl. rewrite app_nil_r. reflexivity.
    + rewrite fill_row_cons.
      inversion Hnd as [|? ? Hnotin Hnd']; subst.
      rewrite dict_set_new by (apply Hfresh; left; reflexivity).
      rewrite IH; [|exact Hnd'|].
      * simpl. rewrite <- app_assoc. reflexivity.
      * intros c Hc Hin. unfold Db.keys in Hin.
        rewrite map_app in Hin. apply in_app_or in Hin.
        destruct Hin as [Hin|Hin].
        -- apply (Hfresh c); [right; exact Hc | exact Hin].
        -- simpl in Hin. destruct Hin as [<-|[]]. contradiction.
Qed.

Lemma fill_row_keys (columns : list string) :
  forall (row : list V) (d : list (string * V)) (x : string),
    In x (Db.keys (Db.fill_row native 0 columns row d)) ->
    In x columns \/ In x (Db.keys d).
Proof.
  induction columns as [|col rest IH]; intros row d x; [auto|].
  destruct row as [|value row].
  - rewrite fill_row_nil. auto.
  - rewrite fill_row_cons. intros Hin.
    destruct (IH _ _ _ Hin) as [H|H]; [left; right; exact H|].
    destruct (keys_dict_set _ _ _ _ H) as [-> | H'];
      [left; left; reflexivity | right; exact H'].
Qed.

(** X15. In the dictionary built for a row, a column name is bound to the
    converted value of its last position in the row; so when a name occurs
    twice among the columns, the value of the earlier position is lost, and
    a name whose positions all lie beyond the end of the row is absent. *)
Theorem row_dict_lookup (k : string) (columns : list string) (row : list V) :
  Db.dict_get k (Db.row_to_dict native columns row)
  = Db.last_value native k columns row.
Proof.
  unfold Db.row_to_dict. rewrite fill_row_get.
  destruct (Db.last_value native k columns row); reflexivity.
Qed.

(** X16. When no column name occurs twice, the dictionary of a row is the
    columns paired with the converted values, in the order of the columns,
    cut at the shorter of the two. *)
Theorem row_dict_is_zip (columns : list string) (row : list V) :
  NoDup columns ->
  Db.row_to_dict native columns row = combine columns (map native row).
Proof.
  intros Hnd. unfold Db.row_to_dict.
  rewrite fill_row_fresh; [reflexivity | exact Hnd |].
  intros c _ [].
Qed.

(** X17. When [run_query] returns, the column list is not empty, there is
    one dictionary for each fetched row, and the keys of each are among
    the columns; when the result has no description and the wrapped query
    gives none either, or fails, the error raised is the ValueError about
    column names and no row is fetched.  The connection, once opened, is
    closed last on every path. *)
Theorem run_query_outcomes (get_conn : Result (Db.Engine V)) (sql : string) :
  (forall columns rows,
      fst (Db.run_query native get_conn sql) = Ok (columns, rows) ->
      columns <> []
      /\ (exists conn history all_rows,
             get_conn = Ok conn
             /\ Db.fetchall conn history = Ok all_rows
             /\ rows = map (Db.row_to_dict native columns) all_rows)
      /\ forall d x, In d rows -> In x (Db.keys d) -> In x columns)
  /\ (forall conn,
         get_conn = Ok conn ->
         Db.execute conn [] sql = Ok tt ->
         Db.column_names (Db.description conn [sql]) = None ->
         (Db.execute conn [sql] (Db.wrapped_sql sql) = Ok tt ->
          Db.column_names
            (Db.description conn [sql; Db.wrapped_sql sql]) = None) ->
         Db.run_query native get_conn sql
         = (Raise Db.no_columns,
            [Db.Execute sql; Db.Execute (Db.wrapped_sql sql); Db.Close]))
  /\ (forall conn,
         get_conn = Ok conn ->
         exists events,
           snd (Db.run_query native get_conn sql)
           = (Db.Execute sql :: events ++ [Db.Close])%list
           /\ ~ In Db.Close events).
Proof.
  split; [|split].
  - intros columns rows. unfold Db.run_query.
    destruct get_conn as [conn|e]; [|discriminate].
    destruct (Db.execute conn [] sql) as [u|e]; [|discriminate].
    assert (Hnames : forall d cols,
               Db.column_names d = Some cols -> cols <> []).
    { intros [[|c l]|] cols; simpl; try discriminate.
      intros [= <-]. discriminate. }
    destruct (Db.column_names (Db.description conn [sql])) as [cols|] eqn:E1.
    + destruct (Db.fetchall conn [sql]) as [all_rows|e] eqn:Ef;
        [|discriminate].
      simpl. intros [= <- <-]. split; [exact (Hnames _ _ E1)|]. split.
      * exists conn, [sql], all_rows. auto.
      * intros d x Hd Hx. apply in_map_iff in Hd.
        destruct Hd as (row & <- & _).
        destruct (fill_row_keys _ _ _ _ Hx) as [H|[]]. exact H.
    + destruct (Db.execute conn [sql] (Db.wrapped_sql sql)) as [u'|e];
        [|discriminate].
      destruct (Db.column_names
                  (Db.description conn [sql; Db.wrapped_sql sql]))
        as [cols|] eqn:E2; [|discriminate].
      destruct (Db.fetchall conn [sql; Db.wrapped_sql sql])
        as [all_rows|e] eqn:Ef; [|discriminate].
      simpl. intros [= <- <-]. split; [exact (Hnames _ _ E2)|]. split.
      * exists conn, [sql; Db.wrapped_sql sql], all_rows. auto.
      * intros d x Hd Hx. apply in_map_iff in Hd.
        destruct Hd as (row & <- & _).
        destruct (fill_row_keys _ _ _ _ Hx) as [H|[]]. exact H.
  - intros conn -> Hex Hd Hw. unfold Db.run_query. rewrite Hex, Hd.
    destruct (Db.execute conn [sql] (Db.wrapped_sql sql)) as [[]|e];
      [rewrite (Hw eq_refl)|]; reflexivity.
  - intros conn ->. unfold Db.run_query.
    destruct (Db.execute conn [] sql) as [u|e].
    2:{ exists []. split; [reflexivity | intros []]. }
    destruct (Db.column_names (Db.description conn [sql])) as [cols|].
    + exists [].
      destruct (Db.fetchall conn [sql]);
        (split; [reflexivity | intros []]).
    + exists [Db.Execute (Db.wrapped_sql sql)].
      assert (Hno : ~ In Db.Close [Db.Execute (Db.wrapped_sql sql)])
        by (intros [H|[]]; discriminate).
      destruct (Db.execute conn [sql] (Db.wrapped_sql sql));
        [destruct (Db.column_names _);
         [destruct (Db.fetchall conn _)|]|];
        (split; [reflexivity | exact Hno]).
Qed.

End RowDicts.

Lemma row_dict_is_zip_witness :
  Db.row_to_dict (fun v : Scalar => v) ["borough"; "n"]
                 [SStr "BRONX"; SInt 12; SNull]
  = combine ["borough"; "n"]
            (map (fun v : Scalar => v) [SStr "BRONX"; SInt 12; SNull]).
Proof.
  apply (row_dict_is_zip Scalar (fun v => v) ["borough"; "n"]
           [SStr "BRONX"; SInt 12; SNull]).
  repeat constructor; simpl; intuition discriminate.
Defined.

(** A column name that occurs twice keeps the later value, in the place of
    the earlier one; a row shorter than the columns leaves the last
    columns out. *)
Lemma row_dict_examples :
  Db.row_to_dict (fun v : Scalar => v) ["n"; "borough"; "n"]
                 [SInt 1; SStr "BRONX"; SInt 2]
  = [("n", SInt 2); ("borough", SStr "BRONX")]
  /\ Db.row_to_dict (fun v : Scalar => v) ["borough"; "n"] [SStr "BRONX"]
     = [("borough", SStr "BRONX")]
  /\ Db.run_query (fun v : Scalar => v) (Ok Db.silent_engine) "SELECT 1"
     = (Raise Db.no_columns,
        [Db.Execute "SELECT 1";
         Db.Execute "SELECT * FROM (SELECT 1) LIMIT 0"; Db.Close]).
Proof.
  split; [|split]; reflexivity.
Qed.

(* ------------------------------------------------------------------ *)
(** ** The schema cache *)

(** X18. Once [get_schema] has returned a schema, every later call
    returns that same schema without looking at the table, whatever
    introspection would find or raise by then, until the cache is cleared;
    after [clear_schema_cache] the next call introspects again, and a
    failed introspection leaves nothing in the cache. *)
Theorem cached_schema_is_served
        (introspect : Result Schema) (cache cache' : SchemaCache.Cache)
        (s : Schema) (looked : bool)
        (later : list (Result Schema)) :
  SchemaCache.get_schema introspect cache = (Ok s, cache', looked) ->
  SchemaCache.get_schema_each later cache'
  = (map (fun _ => (Ok s, false)) later, Some s)
  /\ (forall now,
         SchemaCache.get_schema now (SchemaCache.clear_schema_cache cache')
         = match now with
           | Ok s' => (Ok s', Some s', true)
           | Raise e => (Raise e, None, true)
           end).
Proof.
  intros Hget.
  assert (Hc : cache' = Some s).
  { unfold SchemaCache.get_schema in Hget.
    destruct cache as [s0|]; [|destruct introspect as [s0|e]];
      inversion Hget; reflexivity. }
  subst cache'. split.
  - induction later as [|i later IH]; [reflexivity|].
    simpl. rewrite IH. reflexivity.
  - intros now. reflexivity.
Qed.

Lemma cached_schema_is_served_witness :
  SchemaCache.get_schema_each
    [Raise (Exception "CatalogException" "Table does not exist");
     Ok {| table := "nyc_311"; total_rows := 0; columns := [] |}]
    (Some sample_schema)
  = (map (fun _ => (Ok sample_schema, false))
         [Raise (Exception "CatalogException" "Table does not exist");
          Ok {| table := "nyc_311"; total_rows := 0; columns := [] |}],
     Some sample_schema)
  /\ (forall now,
         SchemaCache.get_schema now
           (SchemaCache.clear_schema_cache (Some sample_schema))
         = match now with
           | Ok s' => (Ok s', Some s', true)
           | Raise e => (Raise e, None, true)
           end).
Proof.
  apply (cached_schema_is_served (Ok sample_schema) None
           (Some sample_schema) sample_schema true).
  reflexivity.
Defined.

(* ------------------------------------------------------------------ *)
(** ** The column mapping of the loader *)

Lemma find_app {A : Type} (p : A -> bool) (l1 l2 : list A) :
  find p (l1 ++ l2)
  = match find p l1 with Some x => Some x | None => find p l2 end.
Proof.
  induction l1 as [|a l1 IH]; simpl; [reflexivity|].
  destruct (p a); [reflexivity | exact IH].
Qed.

(** A variable that is set by a strong match always, and by a weak match
    while it is still unset. *)
Lemma scan_last_or_first (strong weak : string -> bool)
      (cols : list string) :
  forall cur : option string,
    fold_left
      (fun cur col =>
         if strong col || (Etl.is_None cur && weak col) then Some col
         else cur)
      cols cur
    = match find strong (rev cols) with
      | Some col => Some col
      | None =>
          match cur with
          | Some col => Some col
          | None => find weak cols
          end
      end.
Proof.
  induction cols as [|a cols IH]; intros cur; simpl.
  - destruct cur; reflexivity.
  - rewrite IH, find_app. simpl.
    destruct (find strong (rev cols)); [reflexivity|].
    destruct (strong a) eqn:Es; simpl; [reflexivity|].
    destruct cur as [c|]; simpl; [reflexivity|].
    destruct (weak a); reflexivity.
Qed.

Lemma scan_last (p : string -> bool) (cols : list string) :
  forall cur : option string,
    fold_left (fun cur col => if p col then Some col else cur) cols cur
    = match find p (rev cols) with
      | Some col => Some col
      | None => cur
      end.
Proof.
  induction cols as [|a cols IH]; intros cur; simpl; [reflexivity|].
  rewrite IH, find_app. simpl.
  destruct (find p (rev cols)); [reflexivity|].
  destruct (p a); reflexivity.
Qed.

(** Each variable of the loop goes its own way. *)
Lemma scan_fields (cols : list string) :
  forall f : Etl.Found,
    let g := fold_left Etl.scan_column cols f in
    Etl.created_date_col g
    = fold_left
        (fun cur col =>
           if Etl.names "created_date" col
              || (Etl.is_None cur
                  && (Etl.names "created" col && Etl.names "date" col))
           then Some col else cur)
        cols (Etl.created_date_col f)
    /\ Etl.closed_date_col g
       = fold_left
           (fun cur col =>
              if Etl.names "closed_date" col
                 || (Etl.is_None cur
                     && (Etl.names "closed" col && Etl.names "date" col))
              then Some col else cur)
           cols (Etl.closed_date_col f)
    /\ Etl.incident_zip_col g
       = fold_left
           (fun cur col =>
              if Etl.names "incident_zip" col
                 || (Etl.is_None cur && Etl.names "zip" col)
              then Some col else cur)
           cols (Etl.incident_zip_col f)
    /\ Etl.latitude_col g
       = fold_left
           (fun cur col => if Etl.names "latitude" col then Some col else cur)
           cols (Etl.latitude_col f)
    /\ Etl.longitude_col g
       = fold_left
           (fun cur col => if Etl.names "longitude" col then Some col else cur)
           cols (Etl.longitude_col f).
Proof.
  induction cols as [|a cols IH]; intros f; simpl.
  - repeat split; reflexivity.
  - destruct (IH (Etl.scan_column f a)) as (H1 & H2 & H3 & H4 & H5).
    rewrite H1, H2, H3, H4, H5. unfold Etl.names. simpl.
    rewrite <- !andb_assoc. repeat split; reflexivity.
Qed.

(** X19. The search of the loader through the header: the created-date
    column is the last column whose normalised name contains
    [created_date], or else the first whose name contains both [created]
    and [date]; likewise the closed-date column; the zip column is the last
    whose name contains [incident_zip], or else the first that contains
    [zip]; the latitude and longitude columns are the last whose names
    contain [latitude] and [longitude]. *)
Theorem find_columns_spec (raw_columns : list string) :
  let f := Etl.find_columns raw_columns in
  Etl.created_date_col f
  = Etl.last_or_first
      (Etl.names "created_date")
      (fun col => Etl.names "created" col && Etl.names "date" col)
      raw_columns
  /\ Etl.closed_date_col f
     = Etl.last_or_first
         (Etl.names "closed_date")
         (fun col => Etl.names "closed" col && Etl.names "date" col)
         raw_columns
  /\ Etl.incident_zip_col f
     = Etl.last_or_first (Etl.names "incident_zip") (Etl.names "zip")
                         raw_columns
  /\ Etl.latitude_col f = find (Etl.names "latitude") (rev raw_columns)
  /\ Etl.longitude_col f = find (Etl.names "longitude") (rev raw_columns).
Proof.
  intros f. unfold f, Etl.find_columns.
  destruct (scan_fields raw_columns Etl.nothing_found)
    as (H1 & H2 & H3 & H4 & H5).
  rewrite H1, H2, H3, H4, H5. unfold Etl.last_or_first.
  rewrite !scan_last_or_first, !scan_last. simpl.
  repeat split;
    match goal with
    | |- context [find ?p (rev raw_columns)] =>
        destruct (find p (rev raw_columns)); reflexivity
    end.
Qed.

(** A column without a name matches nothing, so a column that was found
    has a name: the truth tests on the five variables test whether a
    column was found. *)
Lemma scan_column_nonempty (f : Etl.Found) (col : string) :
  Etl.found_nonempty f -> Etl.found_nonempty (Etl.scan_column f col).
Proof.
  intros (H1 & H2 & H3 & H4 & H5). unfold Etl.found_nonempty.
  destruct col as [|a col].
  - unfold Etl.scan_column. simpl.
    rewrite !andb_false_r. simpl. auto.
  - unfold Etl.scan_column. cbv zeta. simpl Etl.created_date_col.
    simpl Etl.closed_date_col. simpl Etl.incident_zip_col.
    simpl Etl.latitude_col. simpl Etl.longitude_col.
    repeat split;
      match goal with
      | |- (if ?b then _ else _) <> _ =>
          destruct b; [discriminate | assumption]
      end.
Qed.

Lemma find_columns_nonempty (raw_columns : list string) :
  Etl.found_nonempty (Etl.find_columns raw_columns).
Proof.
  unfold Etl.find_columns.
  assert (H : forall f, Etl.found_nonempty f ->
                        Etl.found_nonempty
                          (fold_left Etl.scan_column raw_columns f)).
  { induction raw_columns as [|a l IH]; intros f Hf; [exact Hf|].
    simpl. apply IH. apply scan_column_nonempty. exact Hf. }
  apply H. unfold Etl.found_nonempty. simpl.
  repeat split; discriminate.
Qed.

Lemma truthy_found (o : option string) (c : string) :
  o <> Some "" -> o = Some c -> truthy o = true.
Proof.
  intros Hne ->. simpl. apply negb_true_iff, eqb_empty_false.
  intros ->. apply Hne. reflexivity.
Qed.

(** X20. The select list of the loader keeps every column of the header,
    quoted and in order, before at most five derived columns; each column
    found by the search contributes its derived column (the two timestamps,
    the days to close when both dates were found, the zip code, the
    geocoded flag, with NULL for a missing coordinate); and the statement
    is refused, for want of columns, exactly when the header is empty. *)
Theorem select_parts_layout (table_name : string)
        (raw_columns : list string) :
  let f := Etl.find_columns raw_columns in
  let parts := Etl.select_parts raw_columns in
  (exists derived,
      parts = (map Etl.quoted raw_columns ++ derived)%list
      /\ (List.length derived <= 5)%nat)
  /\ (forall c, Etl.created_date_col f = Some c ->
                In (Etl.created_ts_expr c) parts)
  /\ (forall c, Etl.closed_date_col f = Some c ->
                In (Etl.closed_ts_expr c) parts)
  /\ (forall c d,
         Etl.created_date_col f = Some c -> Etl.closed_date_col f = Some d ->
         In (Etl.time_to_close_expr c d) parts)
  /\ (forall c, Etl.incident_zip_col f = Some c ->
                In (Etl.zip_code_expr c) parts)
  /\ (forall a b,
         Etl.latitude_col f = Some a \/ Etl.longitude_col f = Some b ->
         In (Etl.geocoded_expr (get (Etl.latitude_col f) "NULL")
                               (get (Etl.longitude_col f) "NULL")) parts)
  /\ (Etl.create_table_statement table_name raw_columns
      = Raise Etl.no_columns_error <-> raw_columns = [])
  /\ (raw_columns <> [] ->
      Etl.create_table_statement table_name raw_columns
      = Ok (Etl.create_sql table_name parts)).
Proof.
  intros f parts.
  destruct (find_columns_nonempty raw_columns) as (N1 & N2 & N3 & N4 & N5).
  fold f in N1, N2, N3, N4, N5.
  assert (Hparts :
            parts
            = (map Etl.quoted raw_columns
                 ++ (if truthy (Etl.created_date_col f)
                     then [Etl.created_ts_expr
                             (get (Etl.created_date_col f) "")] else [])
                 ++ (if truthy (Etl.closed_date_col f)
                     then [Etl.closed_ts_expr
                             (get (Etl.closed_date_col f) "")] else [])
                 ++ (if truthy (Etl.created_date_col f)
                        && truthy (Etl.closed_date_col f)
                     then [Etl.time_to_close_expr
                             (get (Etl.created_date_col f) "")
                             (get (Etl.closed_date_col f) "")]
                     else [])
                 ++ (if truthy (Etl.latitude_col f)
                        && truthy (Etl.longitude_col f)
                     then [Etl.geocoded_expr
                             (get (Etl.latitude_col f) "")
                             (get (Etl.longitude_col f) "")]
                     else if truthy (Etl.latitude_col f)
                             || truthy (Etl.longitude_col f)
                     then [Etl.geocoded_expr
                             (Etl.or_NULL (Etl.latitude_col f))
                             (Etl.or_NULL (Etl.longitude_col f))]
                     else [])
                 ++ (if truthy (Etl.incident_zip_col f)
                     then [Etl.zip_code_expr
                             (get (Etl.incident_zip_col f) "")]
                     else []))%list)
    by reflexivity.
  split; [|split; [|split; [|split; [|split; [|split; [|split]]]]]].
  - eexists. split; [exact Hparts|].
    repeat match goal with
           | |- context [if ?b then _ else _] => destruct b
           end; simpl; lia.
  - intros c Hc. rewrite Hparts, (truthy_found _ _ N1 Hc), Hc.
    apply in_or_app. right. left. reflexivity.
  - intros c Hc. rewrite Hparts, (truthy_found _ _ N2 Hc), Hc.
    apply in_or_app. right. apply in_or_app. right.
    apply in_or_app. left. left. reflexivity.
  - intros c d Hc Hd.
    rewrite Hparts, (truthy_found _ _ N1 Hc), (truthy_found _ _ N2 Hd),
      Hc, Hd.
    apply in_or_app. right. apply in_or_app. right.
    apply in_or_app. right. apply in_or_app. left. left. reflexivity.
  - intros c Hc. rewrite Hparts, (truthy_found _ _ N3 Hc), Hc.
    do 5 (apply in_or_app; right). left. reflexivity.
  - intros a b Hab. rewrite Hparts.
    do 4 (apply in_or_app; right). apply in_or_app. left.
    unfold Etl.or_NULL.
    destruct (Etl.latitude_col f) as [la|] eqn:Ela;
      destruct (Etl.longitude_col f) as [lo|] eqn:Elo.
    + rewrite (truthy_found _ _ N4 eq_refl), (truthy_found _ _ N5 eq_refl).
      left. reflexivity.
    + rewrite (truthy_found _ _ N4 eq_refl). left. reflexivity.
    + rewrite (truthy_found _ _ N5 eq_refl). left. reflexivity.
    + destruct Hab; discriminate.
  - unfold Etl.create_table_statement. fold parts. split.
    + destruct raw_columns as [|a l]; [reflexivity|].
      rewrite Hparts. simpl. discriminate.
    + intros ->. reflexivity.
  - intros Hne. unfold Etl.create_table_statement. fold parts.
    destruct raw_columns as [|a l]; [contradiction|].
    rewrite Hparts at 1. reflexivity.
Qed.

(** The header of the 311 export: every role is found, and the five
    derived columns follow the seven of the file. *)
Lemma header_311_columns :
  Etl.find_columns Etl.header_311
  = {| Etl.created_date_col := Some "Created Date";
       Etl.closed_date_col := Some "Closed Date";
       Etl.incident_zip_col := Some "Incident Zip";
       Etl.latitude_col := Some "Latitude";
       Etl.longitude_col := Some "Longitude" |}
  /\ List.length (Etl.select_parts Etl.header_311) = 12%nat
  /\ Etl.find_columns ["Date Created"; "Created Date"; "date created 2"]
     = {| Etl.created_date_col := Some "Created Date";
          Etl.closed_date_col := None;
          Etl.incident_zip_col := None;
          Etl.latitude_col := None;
          Etl.longitude_col := None |}.
Proof.
  split; [|split]; vm_compute; reflexivity.
Qed.
